(** * stock-app: price ingestion and reconciliation

    A shallow embedding of the tracker application: [types.ts], the
    reconciliation controller of [App.tsx] (refresh, merge, staleness, sort,
    import), the submit handler of [components/AddTrackerForm.tsx], the
    ingestion service [services/gemini.ts] and what the card of
    [components/StockCard.tsx] computes and decides to show.

    Conventions.
    - A JavaScript [number] that holds a price is an IEEE 754 binary64 value,
      here Rocq's primitive [float].  A timestamp is the integral number of
      milliseconds [Date.now()] returns, here a [Z].
    - A JavaScript string is a [string]; its characters stand for code units
      below 256.
    - [T | null] and optional fields are [option T].
    - Everything the runtime supplies ([Date.now], [JSON.parse], [parseFloat],
      [String.prototype.toUpperCase], the remote model) is a variable of the
      section [Env]; the code of the repository is defined over them. *)

From Stdlib Require Import ZArith List String Ascii Bool Lia Floats Uint63.
From stdpp Require Import base tactics option list gmap strings.

Set Warnings "-register-all".

Open Scope string_scope.
Open Scope Z_scope.

(** ** types.ts *)

Module StockTracker.
Record t : Type := mk {
  id : string;
  symbol : string;
  companyName : option string;
  startPrice : float;
  targetPrice : float;
  currentPrice : option float;
  lastUpdated : option Z;
  sourceUrl : option string;
  sourceTitle : option string;
  isCompleted : option bool;
  errorMessage : option string
}.
End StockTracker.

Module PriceUpdateResult.
Record t : Type := mk {
  symbol : string;
  price : float;
  companyName : option string;
  sourceUrl : option string;
  sourceTitle : option string
}.
End PriceUpdateResult.

Inductive SortOption : Type :=
| ADDED_DESC
| PROGRESS_DESC
| PROGRESS_ASC.

(** ** JavaScript values and operators used by the code *)

(** The outcome of evaluating code that may throw. *)
Inductive Completion (E A : Type) : Type :=
| Return (a : A)
| Throw (e : E).
Arguments Return {E A} a.
Arguments Throw {E A} e.

(** Truthiness ([ToBoolean]) at the types the code tests. *)
Definition truthy_string (s : string) : bool :=
  match s with EmptyString => false | String _ _ => true end.

Definition truthy_number (x : float) : bool :=
  negb (PrimFloat.eqb x 0%float || PrimFloat.is_nan x).

Definition truthy_opt {A : Type} (truthy : A -> bool) (o : option A) : bool :=
  match o with Some a => truthy a | None => false end.

Definition truthy_bool (b : bool) : bool := b.

(** [a || b] on optional values: [a] when it is truthy, otherwise [b]. *)
Definition js_or {A : Type} (truthy : A -> bool) (a b : option A) : option A :=
  if truthy_opt truthy a then a else b.

(** [x || 0] on a timestamp. *)
Definition or_zero (x : Z) : Z := if Z.eqb x 0 then 0 else x.

(** [Array.prototype.includes] on strings. *)
Definition includes (l : list string) (x : string) : bool :=
  existsb (String.eqb x) l.

(** [Array.from(new Set(l))]: the distinct elements in order of first
    occurrence. *)
Fixpoint uniq_from (seen : list string) (l : list string) : list string :=
  match l with
  | [] => []
  | x :: l' =>
      if includes seen x then uniq_from seen l'
      else x :: uniq_from (x :: seen) l'
  end.

Definition uniq (l : list string) : list string := uniq_from [] l.

(** A call with one surplus argument: JavaScript binds the declared
    parameter and drops the argument that has no parameter. *)
Definition call_with_surplus {A B X : Type} (f : A -> B) (a : A) (surplus : X) : B :=
  f a.

(** [Array.prototype.map] with a callback that may throw: the first
    exception ends the loop and is the exception of the call. *)
Fixpoint mapThrowing {E A B : Type} (f : A -> Completion E B) (l : list A)
  : Completion E (list B) :=
  match l with
  | [] => Return []
  | x :: l' =>
      match f x with
      | Throw e => Throw e
      | Return y =>
          match mapThrowing f l' with
          | Throw e => Throw e
          | Return ys => Return (y :: ys)
          end
      end
  end.

(** The exception of a property read on [null], known by the name of its
    constructor; its message is the engine's. *)
Definition TypeError : string := "TypeError".

(** ** Reading the clock

    Code that calls [Date.now()] is a computation over the number of
    readings taken so far; the [k]-th reading is [Date_now_at k]. *)

Definition Clocked (A : Type) : Type := nat -> A * nat.

Definition ret {A : Type} (a : A) : Clocked A := fun n => (a, n).

Definition bind {A B : Type} (m : Clocked A) (f : A -> Clocked B) : Clocked B :=
  fun n => let '(a, n') := m n in f a n'.

Notation "'let*' x ':=' m 'in' k" := (bind m (fun x => k))
  (at level 10, x name, m at level 100, k at level 200).

Fixpoint mapM {A B : Type} (f : A -> Clocked B) (l : list A) : Clocked (list B) :=
  match l with
  | [] => ret []
  | x :: l' => let* y := f x in let* ys := mapM f l' in ret (y :: ys)
  end.

(** [Array.prototype.some] with an effectful predicate: stops at the first
    element that satisfies it. *)
Fixpoint someM {A : Type} (p : A -> Clocked bool) (l : list A) : Clocked bool :=
  match l with
  | [] => ret false
  | x :: l' => let* b := p x in if b then ret true else someM p l'
  end.

Fixpoint filterM {A : Type} (p : A -> Clocked bool) (l : list A) : Clocked (list A) :=
  match l with
  | [] => ret []
  | x :: l' =>
      let* b := p x in let* ys := filterM p l' in ret (if b then x :: ys else ys)
  end.

(** ** Characters and strings *)

Definition dq : ascii := "034"%char.
Definition backslash : ascii := "092"%char.
Definition q : string := String dq EmptyString.

Definition code (c : ascii) : nat := nat_of_ascii c.

Definition in_chars (cs : list ascii) (c : ascii) : bool :=
  existsb (Ascii.eqb c) cs.

(** White space and line terminators among the code units below 256: what
    [trim] strips and what the class escape for white space matches. *)
Definition is_space (c : ascii) : bool :=
  in_chars ["009"; "010"; "011"; "012"; "013"; " "; "160"]%char c.

Fixpoint starts_with (p s : list ascii) : bool :=
  match p, s with
  | [], _ => true
  | a :: p', b :: s' => Ascii.eqb a b && starts_with p' s'
  | _ :: _, [] => false
  end.

(** [s.replace(/p/g, '')] for a literal, non-empty [p]: the occurrences are
    found left to right and do not overlap.  [skip] counts the characters of
    the current occurrence still to drop. *)
Fixpoint remove_all_from (p : list ascii) (skip : nat) (s : list ascii) : list ascii :=
  match s with
  | [] => []
  | c :: s' =>
      match skip with
      | S k => remove_all_from p k s'
      | O =>
          if starts_with p s then remove_all_from p (length p - 1)%nat s'
          else c :: remove_all_from p O s'
      end
  end.

Definition remove_all (p : string) (s : list ascii) : list ascii :=
  remove_all_from (list_ascii_of_string p) O s.

Fixpoint trim_start (s : list ascii) : list ascii :=
  match s with
  | c :: s' => if is_space c then trim_start s' else s
  | [] => []
  end.

Definition trim (s : list ascii) : list ascii :=
  rev (trim_start (rev (trim_start s))).

(** [symbols.join(sep)]. *)
Fixpoint join (sep : string) (l : list string) : string :=
  match l with
  | [] => ""
  | [x] => x
  | x :: l' => x ++ sep ++ join sep l'
  end.

(** ** Regular expressions

    The part of JavaScript's pattern language, without the unicode flag,
    that the patterns of the service are written in: pattern characters,
    escaped syntax characters, the white-space class escape, character
    classes with ranges and negation, the greedy quantifiers star, plus and
    question mark on a one-character atom, braces that do not form a
    quantifier (pattern characters), and capturing groups of such atoms.
    A pattern outside this part is reported as [Unsupported], apart from a
    syntax error. *)

Inductive ClassItem : Type :=
| CChar (c : ascii)
| CRange (lo hi : ascii)
| CSpace.

Inductive CharMatcher : Type :=
| MChar (c : ascii)
| MSet (invert : bool) (items : list ClassItem).

Inductive Quantifier : Type := QOne | QStar | QPlus | QOpt.

Definition Atom : Type := (CharMatcher * Quantifier)%type.

Inductive Term : Type :=
| TAtom (m : CharMatcher) (qt : Quantifier)
| TGroup (body : list Atom).

Inductive ParseResult (A : Type) : Type :=
| Parsed (a : A)
| SyntaxError
| Unsupported.
Arguments Parsed {A} a.
Arguments SyntaxError {A}.
Arguments Unsupported {A}.

Definition syntax_chars : list ascii :=
  ["^"; "$"; backslash; "."; "*"; "+"; "?"; "("; ")"; "["; "]"; "{"; "}"; "|"]%char.

Definition is_digit (c : ascii) : bool :=
  (Nat.leb 48 (code c) && Nat.leb (code c) 57)%bool.

Fixpoint skip_digits (s : list ascii) : list ascii :=
  match s with
  | c :: s' => if is_digit c then skip_digits s' else s
  | [] => []
  end.

(** After an opening brace: digits, then a closing brace, or a comma and a
    closing brace, or a comma, digits and a closing brace. *)
Definition braced_quantifier (s : list ascii) : bool :=
  match s with
  | c :: _ =>
      is_digit c &&
      match skip_digits s with
      | "}"%char :: _ => true
      | ","%char :: s1 =>
          match skip_digits s1 with
          | "}"%char :: _ => true
          | _ => false
          end
      | _ => false
      end
  | [] => false
  end.

(** Sequencing of parsing steps: the first failure is the result. *)
Definition andThen {A B : Type} (r : ParseResult A) (f : A -> ParseResult B)
  : ParseResult B :=
  match r with
  | Parsed a => f a
  | SyntaxError => SyntaxError
  | Unsupported => Unsupported
  end.

Definition cons_item (it : ClassItem) (r : ParseResult (list ClassItem * list ascii))
  : ParseResult (list ClassItem * list ascii) :=
  andThen r (fun '(its, rest) => Parsed (it :: its, rest)).

(** A hyphen that continues a range, and not one that ends the class. *)
Definition range_follows (s : list ascii) : bool :=
  match s with
  | "-"%char :: d :: _ => negb (Ascii.eqb d "]")
  | _ => false
  end.

(** The members of a class, after the opening bracket and the optional
    caret, up to and including the closing bracket. *)
Fixpoint parse_class_items (s : list ascii) : ParseResult (list ClassItem * list ascii) :=
  match s with
  | [] => SyntaxError
  | c :: s1 =>
      if Ascii.eqb c "]" then Parsed ([], s1)
      else if Ascii.eqb c backslash then
        match s1 with
        | [] => SyntaxError
        | e :: s2 =>
            if range_follows s2 then Unsupported
            else if Ascii.eqb e "s" then cons_item CSpace (parse_class_items s2)
            else if in_chars ("-"%char :: "/"%char :: syntax_chars) e
            then cons_item (CChar e) (parse_class_items s2)
            else Unsupported
        end
      else
        match s1 with
        | "-"%char :: hi :: s3 =>
            if Ascii.eqb hi "]" then Parsed ([CChar c; CChar "-"], s3)
            else if Ascii.eqb hi backslash then Unsupported
            else if Nat.ltb (code hi) (code c) then SyntaxError
            else cons_item (CRange c hi) (parse_class_items s3)
        | _ => cons_item (CChar c) (parse_class_items s1)
        end
  end.

(** One atom, at a position that holds neither parenthesis. *)
Definition parse_atom (s : list ascii) : ParseResult (CharMatcher * list ascii) :=
  match s with
  | [] => SyntaxError
  | c :: s1 =>
      if Ascii.eqb c backslash then
        match s1 with
        | [] => SyntaxError
        | e :: s2 =>
            if Ascii.eqb e "s" then Parsed (MSet false [CSpace], s2)
            else if in_chars ("/"%char :: syntax_chars) e then Parsed (MChar e, s2)
            else Unsupported
        end
      else if Ascii.eqb c "[" then
        let '(invert, s2) :=
          match s1 with
          | "^"%char :: s2 => (true, s2)
          | _ => (false, s1)
          end in
        andThen (parse_class_items s2)
                (fun '(its, rest) => Parsed (MSet invert its, rest))
      else if in_chars ["*"; "+"; "?"]%char c then SyntaxError
      else if in_chars ["|"; "^"; "$"; "."]%char c then Unsupported
      else if Ascii.eqb c "{" then
        if braced_quantifier s1 then SyntaxError else Parsed (MChar c, s1)
      else Parsed (MChar c, s1)
  end.

(** The quantifier that follows an atom, if any. *)
Definition parse_quantifier (s : list ascii) : ParseResult (Quantifier * list ascii) :=
  match s with
  | c :: s1 =>
      let lazy := match s1 with "?"%char :: _ => true | _ => false end in
      if Ascii.eqb c "*" then if lazy then Unsupported else Parsed (QStar, s1)
      else if Ascii.eqb c "+" then if lazy then Unsupported else Parsed (QPlus, s1)
      else if Ascii.eqb c "?" then if lazy then Unsupported else Parsed (QOpt, s1)
      else if Ascii.eqb c "{" then
        if braced_quantifier s1 then Unsupported else Parsed (QOne, s)
      else Parsed (QOne, s)
  | [] => Parsed (QOne, [])
  end.

Definition parse_quantified (s : list ascii) : ParseResult (Atom * list ascii) :=
  andThen (parse_atom s) (fun '(m, s1) =>
  andThen (parse_quantifier s1) (fun '(qt, s2) =>
  Parsed ((m, qt), s2))).

(** The body of a group, after its opening parenthesis, up to and including
    the closing one. *)
Fixpoint parse_group (fuel : nat) (s : list ascii) : ParseResult (list Atom * list ascii) :=
  match fuel with
  | O => Unsupported
  | S fuel' =>
      match s with
      | [] => SyntaxError
      | c :: s1 =>
          if Ascii.eqb c ")" then Parsed ([], s1)
          else if Ascii.eqb c "(" then Unsupported
          else
            andThen (parse_quantified s) (fun '(a, s2) =>
            andThen (parse_group fuel' s2) (fun '(body, rest) =>
            Parsed (a :: body, rest)))
      end
  end.

Definition quantifier_follows (s : list ascii) : bool :=
  match parse_quantifier s with
  | Parsed (QOne, _) => false
  | _ => true
  end.

Definition group_start (s : list ascii) : ParseResult unit :=
  match s with
  | "?"%char :: _ => Unsupported
  | _ => Parsed tt
  end.

Fixpoint parse_terms (fuel : nat) (s : list ascii) : ParseResult (list Term) :=
  match fuel with
  | O => Unsupported
  | S fuel' =>
      match s with
      | [] => Parsed []
      | c :: s1 =>
          if Ascii.eqb c ")" then SyntaxError
          else if Ascii.eqb c "(" then
            andThen (group_start s1) (fun _ =>
            andThen (parse_group fuel' s1) (fun '(body, s2) =>
            if quantifier_follows s2 then Unsupported
            else andThen (parse_terms fuel' s2) (fun ts =>
                 Parsed (TGroup body :: ts))))
          else
            andThen (parse_quantified s) (fun '((m, qt), s2) =>
            andThen (parse_terms fuel' s2) (fun ts =>
            Parsed (TAtom m qt :: ts)))
      end
  end.

Record RegExp : Type := mkRegExp {
  terms : list Term;
  ignoreCase : bool
}.

(** [new RegExp(pattern, flags)] for [flags] either empty or the single
    letter i.  Every step of the parser consumes a character, so the length
    of the pattern is fuel enough. *)
Definition RegExp_new (pattern : string) (ignore_case : bool) : ParseResult RegExp :=
  let s := list_ascii_of_string pattern in
  andThen (parse_terms (S (length s)) s) (fun ts =>
  Parsed (mkRegExp ts ignore_case)).

(** [Canonicalize] under the ignore-case flag without the unicode flag: the
    upper-case form when it is a single code unit.  Among the code units
    below 256 the letters a to z and the accented letters 224 to 254 other
    than the division sign 247 have their upper-case form 32 below; the
    upper-case forms of 181 and 255 lie above 255 and that of 223 is two
    characters, so these three compare equal only to themselves. *)
Definition canonicalize (c : ascii) : ascii :=
  let n := code c in
  if (Nat.leb 97 n && Nat.leb n 122)
     || (Nat.leb 224 n && Nat.leb n 254 && negb (Nat.eqb n 247))
  then ascii_of_nat (n - 32)
  else c.

Definition same_char (ic : bool) (a c : ascii) : bool :=
  if ic then Ascii.eqb (canonicalize a) (canonicalize c) else Ascii.eqb a c.

Definition item_matches (ic : bool) (it : ClassItem) (c : ascii) : bool :=
  match it with
  | CChar a => same_char ic a c
  | CRange lo hi =>
      existsb (fun n => same_char ic (ascii_of_nat n) c)
              (seq (code lo) (S (code hi) - code lo))
  | CSpace => is_space c
  end.

Definition test (ic : bool) (m : CharMatcher) (c : ascii) : bool :=
  match m with
  | MChar a => same_char ic a c
  | MSet invert items => xorb invert (existsb (fun it => item_matches ic it c) items)
  end.

(** Backtracking matching.  A matcher receives the rest of the input and a
    continuation; a greedy quantifier offers the continuation the longest
    repetition first and gives characters back one at a time. *)
Fixpoint star {R : Type} (t : ascii -> bool) (s : list ascii)
    (k : list ascii -> option R) : option R :=
  match s with
  | c :: s' =>
      if t c then
        match star t s' k with
        | Some r => Some r
        | None => k s
        end
      else k s
  | [] => k []
  end.

Definition match_atom {R : Type} (t : ascii -> bool) (qt : Quantifier)
    (s : list ascii) (k : list ascii -> option R) : option R :=
  match qt with
  | QOne =>
      match s with
      | c :: s' => if t c then k s' else None
      | [] => None
      end
  | QStar => star t s k
  | QPlus =>
      match s with
      | c :: s' => if t c then star t s' k else None
      | [] => None
      end
  | QOpt =>
      match s with
      | c :: s' =>
          if t c then
            match k s' with
            | Some r => Some r
            | None => k s
            end
          else k s
      | [] => k []
      end
  end.

Fixpoint match_atoms {R : Type} (ic : bool) (body : list Atom) (s : list ascii)
    (k : list ascii -> option R) : option R :=
  match body with
  | [] => k s
  | (m, qt) :: body' =>
      match_atom (test ic m) qt s (fun s' => match_atoms ic body' s' k)
  end.

(** The text a group has consumed: what lies between two positions. *)
Definition consumed (s s' : list ascii) : list ascii :=
  firstn (length s - length s') s.

Fixpoint match_terms {R : Type} (ic : bool) (ts : list Term) (s : list ascii)
    (caps : list (list ascii))
    (k : list ascii -> list (list ascii) -> option R) : option R :=
  match ts with
  | [] => k s caps
  | TAtom m qt :: ts' =>
      match_atom (test ic m) qt s (fun s' => match_terms ic ts' s' caps k)
  | TGroup body :: ts' =>
      match_atoms ic body s
        (fun s' => match_terms ic ts' s' (caps ++ [consumed s s']) k)
  end.

(** A match at the very start of [s]: the texts of the groups, in order. *)
Definition match_here (r : RegExp) (s : list ascii) : option (list (list ascii)) :=
  match_terms (ignoreCase r) (terms r) s [] (fun _ caps => Some caps).

(** [text.match(r)] for a regular expression without the global flag: the
    leftmost position where the pattern matches. *)
Fixpoint search (r : RegExp) (s : list ascii) : option (list (list ascii)) :=
  match match_here r s with
  | Some caps => Some caps
  | None =>
      match s with
      | [] => None
      | _ :: s' => search r s'
      end
  end.

Definition String_match (text : string) (r : RegExp) : option (list (list ascii)) :=
  search r (list_ascii_of_string text).

(** [m[1]] of a match whose pattern has a group. *)
Definition group1 (m : list (list ascii)) : string :=
  string_of_list_ascii (nth 0 m []).

(** ** services/gemini.ts *)

Definition regexp_special : list ascii :=
  ["."; "*"; "+"; "?"; "^"; "$"; "{"; "}"; "("; ")"; "|"; "["; "]"; backslash]%char.

Definition isRegExpSpecial (c : ascii) : bool := in_chars regexp_special c.

(** [string.replace(/[.*+?^${}()|[\]\\]/g, '\\$&')]: every special character
    is replaced by a backslash followed by itself. *)
Fixpoint escapeRegExp (s : string) : string :=
  match s with
  | EmptyString => EmptyString
  | String c s' =>
      if isRegExpSpecial c then String backslash (String c (escapeRegExp s'))
      else String c (escapeRegExp s')
  end.

(** The two patterns of the fallback, as the template literals build them
    around the escaped symbol. *)
Definition pricePattern (escapedSym : string) : string :=
  q ++ escapedSym ++ q ++ "\s*:\s*{[^}]*" ++ q ++ "price" ++ q
    ++ "\s*:\s*([0-9.]+)[^}]*}".

Definition namePattern (escapedSym : string) : string :=
  q ++ escapedSym ++ q ++ "\s*:\s*{[^}]*" ++ q ++ "name" ++ q
    ++ "\s*:\s*" ++ q ++ "([^" ++ q ++ "]+)" ++ q.

(** An entry of the parsed response: [{ price: number, name: string }]. *)
Record Entry : Type := mkEntry {
  entry_price : float;
  entry_name : string
}.

(** What [data[sym]] evaluates to when it is not [undefined], as far as
    the service reads it: an entry; a built-in function, which has a
    property [name] and no property [price]; or a value on which both
    reads give [undefined] (a number, a string, a prototype object). *)
Inductive Property : Type :=
| OfEntry (e : Entry)
| BuiltinFunction (name : string)
| Other.

(** What an object inherits from [Object.prototype] at a key that is a
    string: the constructor, the function [Object]; the accessor
    [__proto__], which evaluates to the prototype itself; and the
    methods, each a function that carries its key as name. *)
Definition Object_prototype_methods : list string :=
  ["__defineGetter__"; "__defineSetter__"; "__lookupGetter__"; "__lookupSetter__";
   "hasOwnProperty"; "isPrototypeOf"; "propertyIsEnumerable";
   "toLocaleString"; "toString"; "valueOf"].

Definition Object_prototype (key : string) : option Property :=
  if String.eqb key "constructor" then Some (BuiltinFunction "Object")
  else if String.eqb key "__proto__" then Some Other
  else if includes Object_prototype_methods key then Some (BuiltinFunction key)
  else None.

(** The value of the variable [data].  The code declares it a
    [Record<string, { price: number, name: string }>]; what it holds is
    the object the fallback fills or whatever [JSON.parse] returned:
    [null]; an object, with its own properties; or another value (a
    boolean, a number, a string, an array), given by what a property
    read finds on it: an element or a character, its length, or a member
    of its prototypes. *)
Inductive Data : Type :=
| DNull
| DObject (own : gmap string Entry)
| DOther (found : string -> option Property).

(** [data[key]]: on [null] the read throws; on an object it finds the own
    property or else the inherited one; [Return None] is [undefined]. *)
Definition read (data : Data) (key : string) : Completion string (option Property) :=
  match data with
  | DNull => Throw TypeError
  | DObject own =>
      Return match own !! key with
             | Some e => Some (OfEntry e)
             | None => Object_prototype key
             end
  | DOther found => Return (found key)
  end.

(** [entry?.price] and [entry?.name]: [None] is [undefined]. *)
Definition price_of (entry : option Property) : option float :=
  match entry with
  | Some (OfEntry e) => Some (entry_price e)
  | _ => None
  end.

Definition name_of (entry : option Property) : option string :=
  match entry with
  | Some (OfEntry e) => Some (entry_name e)
  | Some (BuiltinFunction name) => Some name
  | _ => None
  end.

(** The response of the remote model, as far as the service reads it. *)
Record WebSource : Type := mkWebSource {
  uri : option string;
  title : option string
}.

Record GroundingChunk : Type := mkGroundingChunk {
  web : option WebSource
}.

Record GroundingMetadata : Type := mkGroundingMetadata {
  groundingChunks : option (list GroundingChunk)
}.

Record Candidate : Type := mkCandidate {
  groundingMetadata : option GroundingMetadata
}.

Record GenerateContentResponse : Type := mkResponse {
  text : option string;
  candidates : option (list Candidate)
}.

(** What the service sends: the client's key, the model, the prompt and the
    search tool. *)
Record GenerateContentRequest : Type := mkRequest {
  client_apiKey : option string;
  model : string;
  contents : string;
  googleSearch : bool
}.

(** How [Promise.race([apiCall, timeout])] settles: with the response, or
    rejected by the call or by the timer of 20000 ms. *)
Inductive RaceOutcome : Type :=
| Resolved (response : GenerateContentResponse)
| Rejected (error : string).

Definition nl : string := String "010"%char EmptyString.

Definition prompt (symbols : list string) : string :=
  nl ++ "    Find the current real-time stock price and the short company name for the following symbols: "
     ++ join ", " symbols ++ "." ++ nl
  ++ "    " ++ nl
  ++ "    CRITICAL OUTPUT RULES:" ++ nl
  ++ "    1. You MUST return the data as a strictly valid JSON object." ++ nl
  ++ "    2. The keys must be the exact stock symbols provided." ++ nl
  ++ "    3. The values must be an object containing " ++ q ++ "price" ++ q
     ++ " (number) and " ++ q ++ "name" ++ q ++ " (string)." ++ nl
  ++ "    4. " ++ q ++ "name" ++ q ++ " should be the company name or asset name (e.g., "
     ++ q ++ "Apple Inc." ++ q ++ " or " ++ q ++ "Bitcoin" ++ q ++ ")." ++ nl
  ++ "    5. Do not include markdown formatting like ```json." ++ nl
  ++ "    6. Example format: { " ++ q ++ "AAPL" ++ q ++ ": { " ++ q ++ "price" ++ q
     ++ ": 150.25, " ++ q ++ "name" ++ q ++ ": " ++ q ++ "Apple Inc." ++ q ++ " }, "
     ++ q ++ "GOOGL" ++ q ++ ": { " ++ q ++ "price" ++ q ++ ": 2750.50, " ++ q ++ "name" ++ q
     ++ ": " ++ q ++ "Alphabet Inc." ++ q ++ " } }" ++ nl
  ++ "  ".

(** [text.replace(/```json/g, '').replace(/```/g, '').trim()]. *)
Definition cleanup (text : string) : string :=
  string_of_list_ascii
    (trim (remove_all "```" (remove_all "```json" (list_ascii_of_string text)))).

(** The first grounding chunk with a web address, and the attribution it
    gives to the whole batch. *)
Definition has_web_uri (c : GroundingChunk) : bool :=
  match web c with
  | Some w => truthy_opt truthy_string (uri w)
  | None => false
  end.

Definition attribution (response : GenerateContentResponse)
  : option string * option string :=
  let chunks :=
    match candidates response with
    | Some (c :: _) =>
        match groundingMetadata c with
        | Some md => match groundingChunks md with Some l => l | None => [] end
        | None => []
        end
    | _ => []
    end in
  match List.find has_web_uri chunks with
  | Some firstWebChunk =>
      match web firstWebChunk with
      | Some w => (uri w, title w)
      | None => (None, None)
      end
  | None => (None, None)
  end.

(** ** Parsed JSON

    The value [JSON.parse] returns on a file the user picked. The members of
    an object are kept in the order of the text; a repeated key is read at
    its last occurrence. *)

Inductive json : Type :=
| JNull
| JBool (b : bool)
| JNumber (x : float)
| JString (s : string)
| JArray (items : list json)
| JObject (members : list (string * json)).

Fixpoint last_member (key : string) (members : list (string * json)) : option json :=
  match members with
  | [] => None
  | (k, v) :: members' =>
      match last_member key members' with
      | Some v' => Some v'
      | None => if String.eqb k key then Some v else None
      end
  end.

(** [item.key] on a value other than [null]: [None] is [undefined].  The
    keys the code reads name no property of a string, an array or a boxed
    primitive. *)
Definition get (item : json) (key : string) : option json :=
  match item with
  | JObject members => last_member key members
  | _ => None
  end.

Definition truthy_json (v : json) : bool :=
  match v with
  | JNull => false
  | JBool b => b
  | JNumber x => truthy_number x
  | JString s => truthy_string s
  | JArray _ => true
  | JObject _ => true
  end.

(** The integer a number holds, when it holds one. *)
Definition float_to_Z (x : float) : option Z :=
  match Prim2SF x with
  | S754_zero _ => Some 0
  | S754_finite sign m e =>
      let mag :=
        if Z.leb 0 e then Some (Z.pos m * 2 ^ e)
        else if Z.eqb (Z.pos m mod 2 ^ (- e)) 0 then Some (Z.pos m / 2 ^ (- e))
        else None in
      match mag with
      | Some z => Some (if sign then - z else z)
      | None => None
      end
  | _ => None
  end.

(** Reading a parsed object at the interface [StockTracker]: [None] when a
    member does not have the declared type. *)
Definition opt_string (o : option json) : option (option string) :=
  match o with
  | None => Some None
  | Some (JString s) => Some (Some s)
  | Some _ => None
  end.

Definition opt_bool (o : option json) : option (option bool) :=
  match o with
  | None => Some None
  | Some (JBool b) => Some (Some b)
  | Some _ => None
  end.

Definition req_string (o : option json) : option string :=
  match o with Some (JString s) => Some s | _ => None end.

Definition req_number (o : option json) : option float :=
  match o with Some (JNumber x) => Some x | _ => None end.

Definition null_or_number (o : option json) : option (option float) :=
  match o with
  | Some JNull => Some None
  | Some (JNumber x) => Some (Some x)
  | _ => None
  end.

Definition null_or_time (o : option json) : option (option Z) :=
  match o with
  | Some JNull => Some None
  | Some (JNumber x) => match float_to_Z x with Some z => Some (Some z) | None => None end
  | _ => None
  end.

Definition tracker_of_json (item : json) : option StockTracker.t :=
  id ← req_string (get item "id");
  symbol ← req_string (get item "symbol");
  companyName ← opt_string (get item "companyName");
  startPrice ← req_number (get item "startPrice");
  targetPrice ← req_number (get item "targetPrice");
  currentPrice ← null_or_number (get item "currentPrice");
  lastUpdated ← null_or_time (get item "lastUpdated");
  sourceUrl ← opt_string (get item "sourceUrl");
  sourceTitle ← opt_string (get item "sourceTitle");
  isCompleted ← opt_bool (get item "isCompleted");
  errorMessage ← opt_string (get item "errorMessage");
  Some (StockTracker.mk id symbol companyName startPrice targetPrice currentPrice
          lastUpdated sourceUrl sourceTitle isCompleted errorMessage).

Fixpoint trackers_of_json (items : list json) : option (list StockTracker.t) :=
  match items with
  | [] => Some []
  | item :: items' =>
      t ← tracker_of_json item;
      ts ← trackers_of_json items';
      Some (t :: ts)
  end.

(** ** State of the application *)

(** The entries of the translation table the controller shows. *)
Inductive Message : Type :=
| missingKey
| errorUpdate
| importSuccess
| importError.

Record AppState : Type := mkApp {
  stocks : list StockTracker.t;
  isLoading : bool;
  error : option Message;
  isSettingsOpen : bool;
  apiKey : string
}.

Definition set_stocks (l : list StockTracker.t) (st : AppState) : AppState :=
  mkApp l (isLoading st) (error st) (isSettingsOpen st) (apiKey st).

Definition set_isLoading (b : bool) (st : AppState) : AppState :=
  mkApp (stocks st) b (error st) (isSettingsOpen st) (apiKey st).

Definition set_error (e : option Message) (st : AppState) : AppState :=
  mkApp (stocks st) (isLoading st) e (isSettingsOpen st) (apiKey st).

Definition set_isSettingsOpen (b : bool) (st : AppState) : AppState :=
  mkApp (stocks st) (isLoading st) (error st) b (apiKey st).

(** What the import handler does to the list. *)
Inductive ImportOutcome : Type :=
| Imported (parsedData : list json)
| Untouched.

(** The fields of the form of [AddTrackerForm]. *)
Module AddTrackerForm.
Record state : Type := mk {
  symbol : string;
  startPrice : string;
  targetPrice : string
}.
End AddTrackerForm.

(** [Array.prototype.sort] with a comparison function.  The language
    requires a stable sort that puts [b] before [a] only when the function
    returns a positive number for [(a, b)]; insertion from the right is
    such a sort.  A result that is not a number counts as zero. *)
Fixpoint insert_by {A : Type} (cmp : A -> A -> float) (x : A) (l : list A) : list A :=
  match l with
  | [] => [x]
  | y :: l' =>
      if PrimFloat.ltb 0%float (cmp x y) then y :: insert_by cmp x l'
      else x :: y :: l'
  end.

Definition Array_sort {A : Type} (cmp : A -> A -> float) (l : list A) : list A :=
  fold_right (insert_by cmp) [] l.

(** ** Vocabulary for the patterns of the fallback *)

(** The terms the two patterns are expected to parse to. *)
Definition literal (w : list ascii) : list Term :=
  map (fun c => TAtom (MChar c) QOne) w.

Definition white : CharMatcher := MSet false [CSpace].
Definition notBrace : CharMatcher := MSet true [CChar "}"].
Definition notQuote : CharMatcher := MSet true [CChar dq].
Definition digitOrDot : CharMatcher := MSet false [CRange "0" "9"; CChar "."].

(** A word between double quotes. *)
Definition quoted (w : string) : list ascii :=
  dq :: list_ascii_of_string w ++ [dq].

Definition openBrace : list Term :=
  [TAtom white QStar; TAtom (MChar ":") QOne; TAtom white QStar;
   TAtom (MChar "{") QOne; TAtom notBrace QStar].

Definition colon : list Term :=
  [TAtom white QStar; TAtom (MChar ":") QOne; TAtom white QStar].

Definition priceSuffix : list Term :=
  literal (quoted "price") ++ colon
  ++ [TGroup [(digitOrDot, QPlus)]; TAtom notBrace QStar; TAtom (MChar "}") QOne].

Definition priceTerms (sym : string) : list Term :=
  literal (quoted sym) ++ openBrace ++ priceSuffix.

Definition nameTerms (sym : string) : list Term :=
  literal (quoted sym) ++ openBrace ++ literal (quoted "name") ++ colon
  ++ [TAtom (MChar dq) QOne; TGroup [(notQuote, QPlus)]; TAtom (MChar dq) QOne].

(** A prefix up to case, as a literal pattern under the ignore-case flag
    sees it. *)
Fixpoint prefix_ci (p s : list ascii) : bool :=
  match p, s with
  | [], _ => true
  | a :: p', c :: s' => same_char true a c && prefix_ci p' s'
  | _ :: _, [] => false
  end.

(** An occurrence of [key], up to case, in [w ++ rest] that begins within
    [w]. *)
Fixpoint occurs_within (key w rest : list ascii) : bool :=
  match w with
  | [] => false
  | _ :: w' => prefix_ci key (w ++ rest) || occurs_within key w' rest
  end.

Definition digit_or_dot (c : ascii) : bool := is_digit c || Ascii.eqb c ".".

Definition not_brace (c : ascii) : bool := negb (Ascii.eqb c "}").

Definition starts_with_digit_or_dot (s : list ascii) : bool :=
  match s with
  | c :: _ => digit_or_dot c
  | [] => false
  end.

(** The next character, if any, fails the test [t]. *)
Definition head_fails (t : ascii -> bool) (s : list ascii) : Prop :=
  match s with
  | c :: _ => t c = false
  | [] => True
  end.

(** No quantifier begins the text. *)
Definition no_quantifier (s : list ascii) : bool :=
  match s with
  | c :: _ => negb (in_chars ["*"; "+"; "?"; "{"]%char c)
  | [] => true
  end.

Definition prepend (ts : list Term) (r : ParseResult (list Term))
  : ParseResult (list Term) :=
  andThen r (fun ts' => Parsed (ts ++ ts')%list).

(** A recognizable fragment for [sym] in a response: the quoted symbol, a
    colon, an opening brace, any text [b1] without a closing brace, the
    quoted word price, a colon, the number [num], any text [b2] without a
    closing brace, and the closing brace; [ws1] to [ws4] are the white
    space around the colons. *)
Definition priceField (ws3 ws4 num b2 : list ascii) : list ascii :=
  quoted "price" ++ ws3 ++ ":"%char :: ws4 ++ num ++ b2.

Definition fragment (sym : string) (ws1 ws2 b1 ws3 ws4 num b2 : list ascii)
  : list ascii :=
  quoted sym ++ ws1 ++ ":"%char :: ws2 ++ "{"%char :: b1
  ++ priceField ws3 ws4 num b2 ++ ["}"%char].

(** ** Vocabulary for the name in the fallback *)

Definition not_quote (c : ascii) : bool := negb (Ascii.eqb c dq).

(** A recognizable fragment with the name of [sym]: the quoted symbol, a
    colon, an opening brace, any text [b1] without a closing brace, the
    quoted word name, a colon, the name between double quotes, and any
    text [b2] without a closing brace. *)
Definition nameField (ws3 ws4 name : list ascii) : list ascii :=
  quoted "name" ++ ws3 ++ ":"%char :: ws4 ++ dq :: name ++ [dq].

Definition nameFragment (sym : string) (ws1 ws2 b1 ws3 ws4 name b2 : list ascii)
  : list ascii :=
  quoted sym ++ ws1 ++ ":"%char :: ws2 ++ "{"%char :: b1
  ++ nameField ws3 ws4 name ++ b2.

(** Terms without a group. *)
Definition atoms_only (ts : list Term) : bool :=
  forallb (fun t => match t with TAtom _ _ => true | TGroup _ => false end) ts.

(** Two words that differ in case at most, as the ignore-case flag
    compares them. *)
Fixpoint same_word_ci (w v : list ascii) : bool :=
  match w, v with
  | [], [] => true
  | a :: w', c :: v' => same_char true a c && same_word_ci w' v'
  | _, _ => false
  end.

(** ** Vocabulary for the cleaning of a response *)

(** The character of a code fence, and the fence. *)
Definition tick : ascii := "`"%char.

Definition fence : list ascii := [tick; tick; tick].

Definition no_tick (s : list ascii) : bool :=
  forallb (fun c => negb (Ascii.eqb c tick)) s.

(** ** components/StockCard.tsx *)

(** The type [Language] of [types.ts]. *)
Inductive Language : Type := en | zh | ja.

(** [Math.max] and [Math.min] on two numbers: not a number when either
    argument is; of the two zeros the positive one is the larger. *)
Definition Math_max (a b : float) : float :=
  if PrimFloat.is_nan a || PrimFloat.is_nan b then nan
  else if PrimFloat.ltb a b then b
  else if PrimFloat.ltb b a then a
  else if PrimFloat.is_zero a && PrimFloat.get_sign a then b else a.

Definition Math_min (a b : float) : float :=
  if PrimFloat.is_nan a || PrimFloat.is_nan b then nan
  else if PrimFloat.ltb a b then a
  else if PrimFloat.ltb b a then b
  else if PrimFloat.is_zero a && negb (PrimFloat.get_sign a) then b else a.

Module StockCard.

(** What the card computes from its tracker before it renders. *)
Definition progress (stock : StockTracker.t) : float :=
  match StockTracker.currentPrice stock with
  | Some currentPrice =>
      let totalDistance :=
        (StockTracker.targetPrice stock - StockTracker.startPrice stock)%float in
      let coveredDistance :=
        (currentPrice - StockTracker.startPrice stock)%float in
      if negb (PrimFloat.eqb totalDistance 0%float)
      then ((coveredDistance / totalDistance) * 100)%float
      else 0%float
  | None => 0%float
  end.

Definition barWidth (stock : StockTracker.t) : float :=
  Math_min (Math_max (progress stock) 0%float) 100%float.

Definition isBullishStrategy (stock : StockTracker.t) : bool :=
  PrimFloat.leb (StockTracker.startPrice stock) (StockTracker.targetPrice stock).

Definition isAsianLocale (lang : Language) : bool :=
  match lang with
  | zh | ja => true
  | en => false
  end.

(** [primaryColorClass] and [progressBarClass], assigned together. *)
Definition colorClasses (stock : StockTracker.t) (lang : Language) : string * string :=
  if isBullishStrategy stock then
    if isAsianLocale lang
    then ("text-red-400", "bg-gradient-to-r from-orange-400 to-red-500")
    else ("text-emerald-400", "bg-gradient-to-r from-teal-400 to-emerald-500")
  else
    if isAsianLocale lang
    then ("text-emerald-400", "bg-gradient-to-r from-teal-400 to-emerald-500")
    else ("text-red-400", "bg-gradient-to-r from-orange-400 to-red-500").

Definition primaryColorClass (stock : StockTracker.t) (lang : Language) : string :=
  fst (colorClasses stock lang).

Definition progressBarClass (stock : StockTracker.t) (lang : Language) : string :=
  snd (colorClasses stock lang).

Definition isGoalHit (stock : StockTracker.t) : bool :=
  PrimFloat.leb 100%float (progress stock).

(** The conditions the markup tests: [errorMessage] and [isCompleted] as
    booleans. *)
Definition hasError (stock : StockTracker.t) : bool :=
  truthy_opt truthy_string (StockTracker.errorMessage stock).

Definition completed (stock : StockTracker.t) : bool :=
  truthy_opt truthy_bool (StockTracker.isCompleted stock).

(** The pulsing background. *)
Definition pulse (stock : StockTracker.t) : bool :=
  isGoalHit stock && negb (completed stock) && negb (hasError stock).

(** The badges beside the symbol. *)
Inductive Badge : Type := ErrorBadge | GoalHitBadge | CompleteBadge.

Definition badges (stock : StockTracker.t) : list Badge :=
  if hasError stock then [ErrorBadge]
  else
    ((if isGoalHit stock && negb (completed stock) then [GoalHitBadge] else [])
     ++ (if completed stock then [CompleteBadge] else []))%list.

(** The figure on the right: the words Invalid Symbol, the progress with
    two decimals, or the notice that the first price is being fetched. *)
Inductive Readout : Type :=
| InvalidSymbol
| Percentage (progress : float)
| Syncing.

Definition readout (stock : StockTracker.t) : Readout :=
  if hasError stock then InvalidSymbol
  else
    match StockTracker.currentPrice stock with
    | Some _ => Percentage (progress stock)
    | None => Syncing
    end.

(** The width of the bar, in percent. *)
Definition fillWidth (stock : StockTracker.t) : float :=
  if hasError stock then 100%float else barWidth stock.

(** The label shown on a bar that moved away from the target. *)
Definition drifting (stock : StockTracker.t) : bool :=
  negb (hasError stock) && PrimFloat.ltb (progress stock) 0%float.

(** [disabled] of the button that toggles completion. *)
Definition toggleDisabled (stock : StockTracker.t) : bool :=
  negb (negb (hasError stock)).

(** The line at the foot of the card: the time of the last update with
    the link to the source, if there is one (its text is the title, or
    the word of the translation when the title is missing), or else one
    of two notices. *)
Inductive Footer : Type :=
| Updated (time : Z) (via : option (string * option string))
| UpdateFailed
| Waiting.

Definition footer (stock : StockTracker.t) : Footer :=
  let notice := if hasError stock then UpdateFailed else Waiting in
  match StockTracker.lastUpdated stock with
  | Some time =>
      if Z.eqb time 0 then notice
      else
        Updated time
          match StockTracker.sourceUrl stock with
          | Some url =>
              if truthy_string url
              then Some (url,
                         if truthy_opt truthy_string (StockTracker.sourceTitle stock)
                         then StockTracker.sourceTitle stock
                         else None)
              else None
          | None => None
          end
  | None => notice
  end.

End StockCard.

(** ** The code over its environment *)

Section Env.

Set Default Proof Using "Type*".

(** [Date.now()]: the value of the [k]-th reading. *)
Variable Date_now_at : nat -> Z.
(** [process.env.API_KEY], read once when the module is loaded. *)
Variable API_KEY : option string.
(** The remote call raced against the timer, as a function of the request. *)
Variable generateContent : GenerateContentRequest -> RaceOutcome.
(** [JSON.parse] on the cleaned text of a response; [None] when it
    throws, and [Some DNull] when the text is null, which it accepts.
    The properties of an object are read at the declared type
    [{ price: number, name: string }]: a property that lacks the price or
    the name, or is no object, is the entry with the price 0 or the empty
    name in that place, which [||] treats as it treats [undefined]. *)
Variable JSON_parse_data : string -> option Data.
(** [JSON.parse] on the text of an imported file; [None] when it throws. *)
Variable JSON_parse : string -> option json.
Variable parseFloat : string -> float.
(** [String.prototype.toUpperCase]. *)
Variable toUpperCase : string -> string.

Definition Date_now : Clocked Z := fun n => (Date_now_at n, S n).

(** *** services/gemini.ts *)

(** The body of the callback of [symbols.forEach] in the fallback: an
    exception of either constructor is caught and leaves [data] as it
    is.  The assignment [data[sym] = ...] adds an own property or
    replaces it; at the key [__proto__] it makes the entry the prototype
    of [data] instead, after which [data] at that key evaluates to the
    entry all the same, and at the keys [price] and [name], inherited
    from the entry, to a number and a string, which have neither
    property and so read like [undefined]. *)
Definition extractSymbol (cleanText : string) (data : gmap string Entry)
    (sym : string) : gmap string Entry :=
  let escapedSym := escapeRegExp sym in
  match RegExp_new (pricePattern escapedSym) true with
  | Parsed priceRegex =>
      let match_ := String_match cleanText priceRegex in
      match RegExp_new (namePattern escapedSym) true with
      | Parsed nameRegex =>
          let nameMatch := String_match cleanText nameRegex in
          match match_ with
          | Some m =>
              let name :=
                match nameMatch with
                | Some nm => group1 nm
                | None => sym
                end in
              <[sym := mkEntry (parseFloat (group1 m)) name]> data
          | None => data
          end
      | _ => data
      end
  | _ => data
  end.

Definition fallback (symbols : list string) (cleanText : string) : gmap string Entry :=
  fold_left (extractSymbol cleanText) symbols ∅.

(** [data] after the attempt to parse: the parsed value, or the object
    that starts empty and that the fallback fills. *)
Definition parsedOrFallback (symbols : list string) (cleanText : string) : Data :=
  match JSON_parse_data cleanText with
  | Some data => data
  | None => DObject (fallback symbols cleanText)
  end.

(** The object [symbols.map] builds for one symbol from [entry]. *)
Definition resultOf (entry : option Property)
    (defaultSource : option string * option string) (sym : string)
  : PriceUpdateResult.t :=
  PriceUpdateResult.mk
    sym
    (match price_of entry with
     | Some price => if truthy_number price then price else 0%float
     | None => 0%float
     end)
    (Some (match name_of entry with
           | Some name => if truthy_string name then name else sym
           | None => sym
           end))
    (fst defaultSource)
    (snd defaultSource).

(** The callback of [symbols.map]: it reads [data[sym]] first. *)
Definition resultFor (data : Data)
    (defaultSource : option string * option string) (sym : string)
  : Completion string PriceUpdateResult.t :=
  match read data sym with
  | Return entry => Return (resultOf entry defaultSource sym)
  | Throw e => Throw e
  end.

(** [response.text || ""]. *)
Definition responseText (response : GenerateContentResponse) : string :=
  match text response with
  | Some t => if truthy_string t then t else ""
  | None => ""
  end.

(** The request for a list of symbols. *)
Definition requestFor (symbols : list string) : GenerateContentRequest :=
  mkRequest API_KEY "gemini-2.5-flash" (prompt symbols) true.

(** [fetchStockPrices]: the requests it has sent and how it completes.
    An exception of the body is caught, logged and thrown again. *)
Definition fetchStockPrices (symbols : list string)
  : list GenerateContentRequest * Completion string (list PriceUpdateResult.t) :=
  if Nat.eqb (length symbols) 0 then ([], Return [])
  else
    let request := requestFor symbols in
    match generateContent request with
    | Rejected error => ([request], Throw error)
    | Resolved response =>
        let text := responseText response in
        let cleanText := cleanup text in
        let data := parsedOrFallback symbols cleanText in
        let defaultSource := attribution response in
        ([request], mapThrowing (resultFor data defaultSource) symbols)
    end.

(** *** components/AddTrackerForm.tsx *)

(** [handleSubmit]: the tracker handed to [onAdd], if the form is
    complete; [uuid] is what [crypto.randomUUID()] returns. *)
Definition handleSubmit (uuid : string) (form : AddTrackerForm.state)
  : option StockTracker.t :=
  if negb (truthy_string (AddTrackerForm.symbol form))
     || negb (truthy_string (AddTrackerForm.startPrice form))
     || negb (truthy_string (AddTrackerForm.targetPrice form))
  then None
  else Some (StockTracker.mk
               uuid
               (toUpperCase (AddTrackerForm.symbol form))
               None
               (parseFloat (AddTrackerForm.startPrice form))
               (parseFloat (AddTrackerForm.targetPrice form))
               None
               None
               None None None None).

(** *** App.tsx: the reconciliation merge *)

Definition successfulUpdate (stock : StockTracker.t) (update : PriceUpdateResult.t)
    (now : Z) : StockTracker.t :=
  StockTracker.mk
    (StockTracker.id stock)
    (StockTracker.symbol stock)
    (js_or truthy_string (PriceUpdateResult.companyName update)
           (StockTracker.companyName stock))
    (StockTracker.startPrice stock)
    (StockTracker.targetPrice stock)
    (Some (PriceUpdateResult.price update))
    (Some now)
    (PriceUpdateResult.sourceUrl update)
    (PriceUpdateResult.sourceTitle update)
    (StockTracker.isCompleted stock)
    None.

Definition failedUpdate (stock : StockTracker.t) (message : string) (now : Z)
  : StockTracker.t :=
  StockTracker.mk
    (StockTracker.id stock)
    (StockTracker.symbol stock)
    (StockTracker.companyName stock)
    (StockTracker.startPrice stock)
    (StockTracker.targetPrice stock)
    (StockTracker.currentPrice stock)
    (Some now)
    (StockTracker.sourceUrl stock)
    (StockTracker.sourceTitle stock)
    (StockTracker.isCompleted stock)
    (Some message).

Definition findUpdate (results : list PriceUpdateResult.t) (stock : StockTracker.t)
  : option PriceUpdateResult.t :=
  List.find (fun r => String.eqb (PriceUpdateResult.symbol r) (StockTracker.symbol stock))
            results.

(** The callback of [currentStocks.map] after a successful round trip. *)
Definition mergeOne (symbols : list string) (results : list PriceUpdateResult.t)
    (stock : StockTracker.t) : Clocked StockTracker.t :=
  if negb (includes symbols (StockTracker.symbol stock)) then ret stock
  else
    match findUpdate results stock with
    | Some update =>
        if PrimFloat.ltb 0%float (PriceUpdateResult.price update) then
          let* now := Date_now in ret (successfulUpdate stock update now)
        else
          let* now := Date_now in
          ret (failedUpdate stock "Symbol not found or data unavailable" now)
    | None =>
        let* now := Date_now in
        ret (failedUpdate stock "Symbol not found or data unavailable" now)
    end.

Definition mergeResults (symbols : list string) (results : list PriceUpdateResult.t)
    (currentStocks : list StockTracker.t) : Clocked (list StockTracker.t) :=
  mapM (mergeOne symbols results) currentStocks.

(** The callback of [currentStocks.map] after a failed round trip. *)
Definition failOne (symbols : list string) (stock : StockTracker.t)
  : Clocked StockTracker.t :=
  if includes symbols (StockTracker.symbol stock) then
    let* now := Date_now in ret (failedUpdate stock "Update failed" now)
  else ret stock.

Definition mergeFailure (symbols : list string) (currentStocks : list StockTracker.t)
  : Clocked (list StockTracker.t) :=
  mapM (failOne symbols) currentStocks.

(** What the settled round trip does to the list it finds. *)
Definition settleStocks (symbols : list string)
    (outcome : Completion string (list PriceUpdateResult.t))
    (currentStocks : list StockTracker.t) : Clocked (list StockTracker.t) :=
  match outcome with
  | Return results => mergeResults symbols results currentStocks
  | Throw _ => mergeFailure symbols currentStocks
  end.

Definition settle (symbols : list string)
    (outcome : Completion string (list PriceUpdateResult.t))
    (st : AppState) : Clocked AppState :=
  let* l := settleStocks symbols outcome (stocks st) in
  let st1 := match outcome with
             | Return _ => st
             | Throw _ => set_error (Some errorUpdate) st
             end in
  ret (set_isLoading false (set_stocks l st1)).

Definition active (s : StockTracker.t) : bool :=
  negb (truthy_opt truthy_bool (StockTracker.isCompleted s)).

(** The symbols a refresh asks for. *)
Definition requestedSymbols (targets : list StockTracker.t) : list string :=
  uniq (map StockTracker.symbol targets).

(** [refreshPrices(subset)], with nothing else changing the state while
    the round trip is outstanding: the new state and the requests sent. *)
Definition refreshPrices (subset : option (list StockTracker.t)) (st : AppState)
  : Clocked (AppState * list GenerateContentRequest) :=
  if negb (truthy_string (apiKey st)) then
    ret (set_isSettingsOpen true (set_error (Some missingKey) st), [])
  else
    let targets := match subset with
                   | Some l => l
                   | None => List.filter active (stocks st)
                   end in
    if Nat.eqb (length targets) 0 then ret (st, [])
    else
      let st1 := set_error None (set_isLoading true st) in
      let symbols := requestedSymbols targets in
      let '(requests, outcome) :=
        call_with_surplus fetchStockPrices symbols (apiKey st) in
      let* st2 := settle symbols outcome st1 in
      ret (st2, requests).

(** *** App.tsx: the handlers of the list *)

Definition handleAddStock (newStock : StockTracker.t) (st : AppState)
  : Clocked (AppState * list GenerateContentRequest) :=
  refreshPrices (Some [newStock]) (set_stocks (newStock :: stocks st) st).

Definition deleteStock (id : string) (l : list StockTracker.t) : list StockTracker.t :=
  List.filter (fun s => negb (String.eqb (StockTracker.id s) id)) l.

Definition handleDeleteStock (id : string) (st : AppState) : AppState :=
  set_stocks (deleteStock id (stocks st)) st.

Definition toggled (s : StockTracker.t) : StockTracker.t :=
  StockTracker.mk
    (StockTracker.id s)
    (StockTracker.symbol s)
    (StockTracker.companyName s)
    (StockTracker.startPrice s)
    (StockTracker.targetPrice s)
    (StockTracker.currentPrice s)
    (StockTracker.lastUpdated s)
    (StockTracker.sourceUrl s)
    (StockTracker.sourceTitle s)
    (Some (negb (truthy_opt truthy_bool (StockTracker.isCompleted s))))
    (StockTracker.errorMessage s).

Definition toggleComplete (id : string) (l : list StockTracker.t) : list StockTracker.t :=
  map (fun s => if String.eqb (StockTracker.id s) id then toggled s else s) l.

Definition handleToggleComplete (id : string) (st : AppState) : AppState :=
  set_stocks (toggleComplete id (stocks st)) st.

Definition handleSaveApiKey (key : string) (st : AppState) : AppState :=
  mkApp (stocks st) (isLoading st) (error st) (isSettingsOpen st) key.

(** *** App.tsx: import *)

(** The predicate handed to [parsedData.every].  Reading a property of
    [null] throws a [TypeError]. *)
Definition looksLikeTracker (item : json) : Completion unit bool :=
  match item with
  | JNull => Throw tt
  | _ =>
      Return (truthy_opt truthy_json (get item "id")
              && truthy_opt truthy_json (get item "symbol")
              && match get item "startPrice" with Some _ => true | None => false end)
  end.

(** [Array.prototype.every]: stops at the first element that fails. *)
Fixpoint every {A : Type} (p : A -> Completion unit bool) (l : list A)
  : Completion unit bool :=
  match l with
  | [] => Return true
  | x :: l' =>
      match p x with
      | Return true => every p l'
      | Return false => Return false
      | Throw e => Throw e
      end
  end.

(** The [onload] handler of the reader, on the text of the chosen file;
    without a file nothing happens.  It yields what becomes of the list
    and the alert shown. *)
Definition handleImportFile (file : option string) : ImportOutcome * option Message :=
  match file with
  | None => (Untouched, None)
  | Some content =>
      match JSON_parse content with
      | Some (JArray parsedData) =>
          match every looksLikeTracker parsedData with
          | Return true => (Imported parsedData, Some importSuccess)
          | Return false => (Untouched, Some importError)
          | Throw _ => (Untouched, Some importError)
          end
      | Some _ => (Untouched, Some importError)
      | None => (Untouched, Some importError)
      end
  end.

(** The words of the specification for an importable element: a
    non-empty [id], a non-empty [symbol] and a defined [startPrice], where
    non-empty is truthy, as it is for a string. *)
Definition spec_valid_item (item : json) : Prop :=
  (exists v, get item "id" = Some v /\ truthy_json v = true) /\
  (exists v, get item "symbol" = Some v /\ truthy_json v = true) /\
  (exists v, get item "startPrice" = Some v).

(** The list after the handler, over parsed values. *)
Definition importedStocks (file : option string) (current : list json) : list json :=
  match fst (handleImportFile file) with
  | Imported parsedData => parsedData
  | Untouched => current
  end.

(** *** App.tsx: staleness and the automatic refresh *)

Definition isStale (s : StockTracker.t) : Clocked bool :=
  match StockTracker.lastUpdated s with
  | None => ret true
  | Some t => let* now := Date_now in ret (Z.ltb 3600000 (now - or_zero t))
  end.

(** The effect that runs when the key becomes known: the subset it hands
    to [refreshPrices], if it calls it. *)
Definition autoRefreshTargets (st : AppState) : Clocked (option (list StockTracker.t)) :=
  if negb (truthy_string (apiKey st)) then ret None
  else
    let activeStocks := List.filter active (stocks st) in
    let* needsUpdate := someM isStale activeStocks in
    if needsUpdate && Nat.ltb 0 (length activeStocks) then
      let* toUpdate := filterM isStale activeStocks in
      ret (Some toUpdate)
    else ret None.

Definition autoRefresh (st : AppState)
  : Clocked (AppState * list GenerateContentRequest) :=
  let* targets := autoRefreshTargets st in
  match targets with
  | Some toUpdate => refreshPrices (Some toUpdate) st
  | None => ret (st, [])
  end.

(** The words of the specification for a tracker that qualifies for the
    automatic refresh at the time [now]. *)
Definition spec_qualifies (now : Z) (s : StockTracker.t) : Prop :=
  StockTracker.isCompleted s <> Some true /\
  (StockTracker.lastUpdated s = None \/
   exists t, StockTracker.lastUpdated s = Some t /\ 3600000 < now - t).

(** *** App.tsx: sorting *)

Definition getProgress (s : StockTracker.t) : float :=
  match StockTracker.currentPrice s with
  | None => (-9999)%float
  | Some currentPrice =>
      let total := (StockTracker.targetPrice s - StockTracker.startPrice s)%float in
      if PrimFloat.eqb total 0%float then 0%float
      else (((currentPrice - StockTracker.startPrice s) / total) * 100)%float
  end.

Definition hasPrice (s : StockTracker.t) : bool :=
  match StockTracker.currentPrice s with Some _ => true | None => false end.

(** The progress of [s] compares above the sentinel, whichever of the two
    is subtracted from the other. *)
Definition above_sentinel (s : StockTracker.t) : Prop :=
  PrimFloat.ltb 0 (getProgress s - (-9999)) = true /\
  PrimFloat.ltb 0 ((-9999) - getProgress s) = false.

Definition compareStocks (sortBy : SortOption) (a b : StockTracker.t) : float :=
  match sortBy with
  | ADDED_DESC => 0%float
  | PROGRESS_DESC => (getProgress b - getProgress a)%float
  | PROGRESS_ASC => (getProgress a - getProgress b)%float
  end.

Definition getSortedStocks (sortBy : SortOption) (l : list StockTracker.t)
  : list StockTracker.t :=
  Array_sort (compareStocks sortBy) l.

(** *** The list over time *)

(** One change of the list: a tracker created by the form, a settled
    refresh, a toggle, a deletion, or an accepted import whose elements
    have the declared type and whose list satisfies [importable]. *)
Inductive step (importable : list StockTracker.t -> Prop)
  : list StockTracker.t -> list StockTracker.t -> Prop :=
| step_create uuid form newStock l :
    handleSubmit uuid form = Some newStock ->
    step importable l (newStock :: l)
| step_settle symbols outcome n l :
    step importable l (fst (settleStocks symbols outcome l n))
| step_toggle id l :
    step importable l (toggleComplete id l)
| step_delete id l :
    step importable l (deleteStock id l)
| step_import content parsedData l l' :
    handleImportFile (Some content) = (Imported parsedData, Some importSuccess) ->
    trackers_of_json parsedData = Some l' ->
    importable l' ->
    step importable l l'.

(** The lists the application reaches from the empty one. *)
Definition reachable (importable : list StockTracker.t -> Prop)
    (l : list StockTracker.t) : Prop :=
  rtc (step importable) [] l.

(** The invariant of the data model: a tracker that has been attempted
    has a price or an error. *)
Definition attempted_has_outcome (s : StockTracker.t) : Prop :=
  StockTracker.lastUpdated s <> None ->
  StockTracker.currentPrice s <> None \/ StockTracker.errorMessage s <> None.

(** *** App.tsx: the two sections of the page *)

(** [sortBy] is a state of the component; it is a parameter here. *)
Definition activeStocks (sortBy : SortOption) (st : AppState) : list StockTracker.t :=
  getSortedStocks sortBy
    (List.filter (fun s => negb (truthy_opt truthy_bool (StockTracker.isCompleted s)))
                 (stocks st)).

Definition completedStocks (sortBy : SortOption) (st : AppState) : list StockTracker.t :=
  getSortedStocks sortBy
    (List.filter (fun s => truthy_opt truthy_bool (StockTracker.isCompleted s))
                 (stocks st)).

(** The targets of a refresh: the subset, or the trackers that are not
    completed. *)
Definition targetsOf (subset : option (list StockTracker.t)) (st : AppState)
  : list StockTracker.t :=
  match subset with
  | Some l => l
  | None => List.filter active (stocks st)
  end.

(** *** What the operations keep true of a tracker *)

(** A stored price is a positive number. *)
Definition price_is_positive (s : StockTracker.t) : Prop :=
  forall p, StockTracker.currentPrice s = Some p -> PrimFloat.ltb 0%float p = true.

(** A tracker with a price or an error has been stamped. *)
Definition outcome_is_stamped (s : StockTracker.t) : Prop :=
  StockTracker.currentPrice s <> None \/ StockTracker.errorMessage s <> None ->
  StockTracker.lastUpdated s <> None.

(** An attribution comes with a price. *)
Definition source_has_price (s : StockTracker.t) : Prop :=
  StockTracker.sourceUrl s <> None \/ StockTracker.sourceTitle s <> None ->
  StockTracker.currentPrice s <> None.

(** An error is one of the two messages of the merge. *)
Definition known_error (s : StockTracker.t) : Prop :=
  StockTracker.errorMessage s = None \/
  StockTracker.errorMessage s = Some "Symbol not found or data unavailable" \/
  StockTracker.errorMessage s = Some "Update failed".

Definition settled (s : StockTracker.t) : Prop :=
  price_is_positive s /\ outcome_is_stamped s /\ source_has_price s /\ known_error s.

(** ** An environment and data for the examples *)

Definition example_now : Z := 1700000000000.

(** A clock that stands still while the code runs. *)
Definition example_clock : nat -> Z := fun _ => example_now.

Definition example_env_key : option string := Some "key-of-the-environment".

Definition float_of_Z (z : Z) : float := PrimFloat.of_uint63 (Uint63.of_Z z).

(** [parseFloat] on an unsigned decimal literal: digits, at most one
    point, digits; it stops at the first character that does not continue
    the literal.  The value is the quotient of the digits read as an
    integer by the power of ten of the fraction, which is the rounding of
    the literal when both are below 2^53. *)
Fixpoint decimal_from (s : string) (num den : Z) (seen_point seen_digit : bool)
  : Z * Z * bool :=
  match s with
  | EmptyString => (num, den, seen_digit)
  | String c s' =>
      if is_digit c then
        decimal_from s' (10 * num + Z.of_nat (code c - 48))
                     (if seen_point then 10 * den else den) seen_point true
      else if Ascii.eqb c "." && negb seen_point then
        decimal_from s' num den true seen_digit
      else (num, den, seen_digit)
  end.

Definition example_parseFloat (s : string) : float :=
  let '(num, den, seen_digit) := decimal_from s 0 1 false false in
  if seen_digit then (float_of_Z num / float_of_Z den)%float else nan.

(** [toUpperCase] on the letters a to z. *)
Definition example_upper_char (c : ascii) : ascii :=
  if (Nat.leb 97 (code c) && Nat.leb (code c) 122)%bool
  then ascii_of_nat (code c - 32) else c.

Fixpoint example_toUpperCase (s : string) : string :=
  match s with
  | EmptyString => EmptyString
  | String c s' => String (example_upper_char c) (example_toUpperCase s')
  end.

(** A remote model that answers every request with the same text and
    one web citation, and one that never answers in time. *)
Definition example_citation : list Candidate :=
  [mkCandidate (Some (mkGroundingMetadata (Some
     [mkGroundingChunk None;
      mkGroundingChunk (Some (mkWebSource (Some "https://example.com/quote")
                                          (Some "Example Quotes")))])))].

Definition example_answer (answer : string) : GenerateContentRequest -> RaceOutcome :=
  fun _ => Resolved (mkResponse (Some answer) (Some example_citation)).

Definition example_timeout : GenerateContentRequest -> RaceOutcome :=
  fun _ => Rejected "Request timed out".

(** A parser that knows one text. *)
Definition example_parse {A : Type} (known : string) (value : A) : string -> option A :=
  fun s => if String.eqb s known then Some value else None.

Definition example_no_parse {A : Type} : string -> option A := fun _ => None.

(** A strict answer for AAPL. *)
Definition aapl_answer : string :=
  "{" ++ q ++ "AAPL" ++ q ++ ": {" ++ q ++ "price" ++ q ++ ": 150, "
      ++ q ++ "name" ++ q ++ ": " ++ q ++ "Apple Inc." ++ q ++ "}}".

Definition aapl_record : gmap string Entry :=
  <["AAPL" := mkEntry 150%float "Apple Inc."]> ∅.

(** An answer with prose around the object, for a symbol with
    parentheses. *)
Definition brk_answer : string :=
  "Sure! " ++ q ++ "BRK(B)" ++ q ++ ": { " ++ q ++ "price" ++ q ++ ": 12.5, "
      ++ q ++ "name" ++ q ++ ": " ++ q ++ "Berkshire" ++ q ++ " } thanks".

(** A tracker for AAPL with no prior data, and a completed one for the
    same symbol that was refreshed a minute ago. *)
Definition aapl : StockTracker.t :=
  StockTracker.mk "1" "AAPL" None 100%float 200%float None None None None None None.

Definition aapl_completed : StockTracker.t :=
  StockTracker.mk "2" "AAPL" (Some "Apple") 100%float 150%float (Some 120%float)
                  (Some (example_now - 60000)) None None (Some true) None.

Definition msft : StockTracker.t :=
  StockTracker.mk "3" "MSFT" None 300%float 400%float (Some 310%float)
                  (Some (example_now - 3600001)) None None None None.

(** Trackers with progress 10, without a price, and with progress 90. *)
Definition progress10 : StockTracker.t :=
  StockTracker.mk "p10" "TEN" None 100%float 200%float (Some 110%float)
                  (Some example_now) None None None None.

Definition noPrice : StockTracker.t :=
  StockTracker.mk "p0" "NONE" None 100%float 200%float None None None None None None.

Definition progress90 : StockTracker.t :=
  StockTracker.mk "p90" "NINETY" None 100%float 200%float (Some 190%float)
                  (Some example_now) None None None None.

(** The result of the strict answer, and an unresolved result. *)
Definition aapl_result : PriceUpdateResult.t :=
  PriceUpdateResult.mk "AAPL" 150%float (Some "Apple Inc.")
    (Some "https://example.com/quote") (Some "Example Quotes").

Definition aapl_unresolved : PriceUpdateResult.t :=
  PriceUpdateResult.mk "AAPL" 0%float (Some "AAPL") None None.

Definition chars (s : string) : list ascii := list_ascii_of_string s.

(** A filled form and the tracker it creates. *)
Definition example_form : AddTrackerForm.state :=
  AddTrackerForm.mk "aapl" "100" "200".

Definition example_created : StockTracker.t :=
  StockTracker.mk "uuid-1" "AAPL" None 100%float 200%float None None
                  None None None None.

Definition example_state : AppState :=
  mkApp [aapl; aapl_completed; msft; progress10] false None false "key-of-the-user".

(** A file that passes the validation of the import and holds a tracker
    that was attempted but has neither a price nor an error. *)
Definition stale_file : string :=
  "[{" ++ q ++ "id" ++ q ++ ":" ++ q ++ "9" ++ q ++ ","
       ++ q ++ "symbol" ++ q ++ ":" ++ q ++ "AAPL" ++ q ++ ","
       ++ q ++ "startPrice" ++ q ++ ":100,"
       ++ q ++ "targetPrice" ++ q ++ ":200,"
       ++ q ++ "currentPrice" ++ q ++ ":null,"
       ++ q ++ "lastUpdated" ++ q ++ ":1700000000000}]".

Definition stale_json : json :=
  JArray [JObject [("id", JString "9"); ("symbol", JString "AAPL");
                   ("startPrice", JNumber 100%float);
                   ("targetPrice", JNumber 200%float);
                   ("currentPrice", JNull);
                   ("lastUpdated", JNumber 1700000000000%float)]].

Definition stale_tracker : StockTracker.t :=
  StockTracker.mk "9" "AAPL" None 100%float 200%float None (Some example_now)
                  None None None None.

(** An answer that mentions no symbol, and one that writes the key in
    lower case. *)
Definition sorry_answer : string := "Sorry, I found no data.".

Definition lower_answer : string :=
  q ++ "aapl" ++ q ++ ": {" ++ q ++ "price" ++ q ++ ": 150}".

(** The answer null, which [JSON.parse] accepts, and an answer in prose
    that quotes two prices for MSFT. *)
Definition null_answer : string := "null".




(** ** Properties *)

(** [tauto] looks at every hypothesis, the variables of the environment
    among them; they are put aside first. *)
Ltac env_tauto :=
  try clear toUpperCase; try clear parseFloat; try clear JSON_parse;
  try clear JSON_parse_data; try clear generateContent;
  try clear API_KEY; try clear Date_now_at;
  tauto.

(** Case analysis on the 256 characters. *)
Ltac each_char c :=
  destruct c as [[|] [|] [|] [|] [|] [|] [|] [|]].

(** Lists written as a head followed by appended parts. *)
Ltac reassoc :=
  repeat first [rewrite <- app_assoc | rewrite <- app_comm_cons].


(** *** Lists, symbols and the clock *)

Lemma includes_In (l : list string) (x : string) :
  includes l x = true <-> In x l.
Proof.
  unfold includes. rewrite existsb_exists. split.
  - intros (y & Hy & Heq). apply String.eqb_eq in Heq. now subst.
  - intros Hin. exists x. split; [assumption | apply String.eqb_refl].
Qed.

Lemma includes_false (l : list string) (x : string) :
  includes l x = false <-> ~ In x l.
Proof.
  rewrite <- includes_In. destruct (includes l x); split; congruence.
Qed.

Lemma uniq_from_In (l seen : list string) (x : string) :
  In x (uniq_from seen l) <-> In x l /\ ~ In x seen.
Proof.
  revert seen. induction l as [|y l IH]; intros seen; simpl.
  - env_tauto.
  - destruct (includes seen y) eqn:Hy.
    + apply includes_In in Hy. rewrite IH.
      split; [env_tauto | intros [[->|H] Hn]; env_tauto].
    + apply includes_false in Hy. simpl. rewrite IH. simpl.
      destruct (string_dec y x) as [->|Hne]; env_tauto.
Qed.

Lemma uniq_from_NoDup (l seen : list string) : List.NoDup (uniq_from seen l).
Proof.
  revert seen. induction l as [|y l IH]; intros seen; simpl.
  - constructor.
  - destruct (includes seen y); [apply IH|].
    constructor; [|apply IH].
    rewrite uniq_from_In. simpl. env_tauto.
Qed.

Lemma uniq_In (l : list string) (x : string) : In x (uniq l) <-> In x l.
Proof. unfold uniq. rewrite uniq_from_In. simpl. env_tauto. Qed.

Lemma uniq_NoDup (l : list string) : List.NoDup (uniq l).
Proof. apply uniq_from_NoDup. Qed.

Lemma requestedSymbols_NoDup (targets : list StockTracker.t) :
  List.NoDup (requestedSymbols targets).
Proof. apply uniq_NoDup. Qed.

Lemma requestedSymbols_In (targets : list StockTracker.t) (sym : string) :
  In sym (requestedSymbols targets) <->
  exists t, In t targets /\ StockTracker.symbol t = sym.
Proof.
  unfold requestedSymbols. rewrite uniq_In, in_map_iff.
  split; intros (t & H1 & H2); exists t; env_tauto.
Qed.

Lemma mapM_cons {A B : Type} (f : A -> Clocked B) (x : A) (l : list A) (n : nat) :
  mapM f (x :: l) n =
  (fst (f x n) :: fst (mapM f l (snd (f x n))), snd (mapM f l (snd (f x n)))).
Proof.
  simpl. unfold bind, ret. destruct (f x n) as [y n1]. simpl.
  destruct (mapM f l n1) as [ys n2]. reflexivity.
Qed.

Lemma mapM_length {A B : Type} (f : A -> Clocked B) (l : list A) (n : nat) :
  length (fst (mapM f l n)) = length l.
Proof.
  revert n. induction l as [|x l IH]; intros n; [reflexivity|].
  rewrite mapM_cons. simpl. now rewrite IH.
Qed.

(** Each element of the result is the image of the element at the same
    index, computed at some count of readings not below the initial one. *)
Lemma mapM_lookup {A B : Type} (f : A -> Clocked B) :
  (forall x n, (n <= snd (f x n))%nat) ->
  forall (l : list A) (n i : nat) (x : A),
    l !! i = Some x ->
    exists k, (n <= k)%nat /\ fst (mapM f l n) !! i = Some (fst (f x k)).
Proof.
  intros Hmono. induction l as [|y l IH]; intros n i x Hi; [discriminate|].
  rewrite mapM_cons. destruct i as [|i]; simpl in *.
  - injection Hi as ->. exists n. split; [lia | reflexivity].
  - destruct (IH (snd (f y n)) i x Hi) as (k & Hk & Heq).
    exists k. split; [|exact Heq].
    specialize (Hmono y n). lia.
Qed.

Lemma mergeOne_mono symbols results stock n :
  (n <= snd (mergeOne symbols results stock n))%nat.
Proof.
  unfold mergeOne, bind, ret, Date_now.
  destruct (negb _); simpl; [lia|].
  destruct (findUpdate results stock) as [u|]; simpl; [|lia].
  destruct (PrimFloat.ltb _ _); simpl; lia.
Qed.

Lemma failOne_mono symbols stock n :
  (n <= snd (failOne symbols stock n))%nat.
Proof.
  unfold failOne, bind, ret, Date_now.
  destruct (includes _ _); simpl; lia.
Qed.

(** A result found by membership is the one found by the lookup when no
    two results share a symbol. *)
Lemma findUpdate_unique results stock update :
  List.NoDup (map PriceUpdateResult.symbol results) ->
  In update results ->
  PriceUpdateResult.symbol update = StockTracker.symbol stock ->
  findUpdate results stock = Some update.
Proof.
  unfold findUpdate. induction results as [|r results IH]; simpl; [env_tauto|].
  intros Hnd [->|Hin] Hsym.
  - rewrite Hsym, String.eqb_refl. reflexivity.
  - inversion Hnd as [|? ? Hnotin Hnd']; subst.
    destruct (String.eqb _ _) eqn:Heq.
    + apply String.eqb_eq in Heq. exfalso. apply Hnotin.
      rewrite Heq, <- Hsym. now apply in_map.
    + now apply IH.
Qed.

Lemma findUpdate_missing results stock :
  (forall r, In r results ->
             PriceUpdateResult.symbol r <> StockTracker.symbol stock) ->
  findUpdate results stock = None.
Proof.
  unfold findUpdate. intros H.
  destruct (List.find _ results) as [r|] eqn:Hf; [|reflexivity].
  apply find_some in Hf as [Hin Heq]. apply String.eqb_eq in Heq.
  now apply H in Hin.
Qed.

(** *** What [fetchStockPrices] returns *)

(** A map whose callback returns at every element returns the list of
    what it returned. *)
Lemma mapThrowing_Return {E A B : Type} (f : A -> Completion E B) (g : A -> B)
    (l : list A) :
  (forall x, In x l -> f x = Return (g x)) ->
  mapThrowing f l = Return (map g l).
Proof.
  induction l as [|x l IH]; intros H; [reflexivity|].
  cbn [mapThrowing map]. rewrite (H x) by now left.
  rewrite IH; [reflexivity|]. intros y Hy. apply H. now right.
Qed.

(** A map that returns has called its callback on every element, in
    order, and each call returned. *)
Lemma mapThrowing_inv {E A B : Type} (f : A -> Completion E B) (l : list A) :
  forall ys, mapThrowing f l = Return ys ->
             Forall2 (fun x y => f x = Return y) l ys.
Proof.
  induction l as [|x l IH]; intros ys; cbn [mapThrowing].
  - intros [= <-]. constructor.
  - destruct (f x) as [y|e] eqn:Hx; [|discriminate].
    destruct (mapThrowing f l) as [ys'|e]; [|discriminate].
    intros [= <-]. constructor; [exact Hx | now apply IH].
Qed.

(** Only [null] makes the read of a property throw. *)
Lemma read_Return (data : Data) :
  data <> DNull -> exists found, forall key, read data key = Return (found key).
Proof using Type.
  destruct data as [|own|found]; [congruence| |]; intros _; eexists; intros key;
    reflexivity.
Qed.

Lemma resultFor_symbol data defaultSource sym update :
  resultFor data defaultSource sym = Return update ->
  PriceUpdateResult.symbol update = sym.
Proof using Type.
  unfold resultFor. destruct (read data sym); [|discriminate].
  now intros [= <-].
Qed.

(** What [fetchStockPrices] does once the round trip has resolved. *)
Lemma fetchStockPrices_resolved symbols response :
  symbols <> [] ->
  generateContent (requestFor symbols) = Resolved response ->
  snd (fetchStockPrices symbols) =
  mapThrowing
    (resultFor (parsedOrFallback symbols (cleanup (responseText response)))
               (attribution response))
    symbols.
Proof.
  intros Hne Hres. unfold fetchStockPrices.
  destruct symbols as [|x l]; [congruence|]. cbn [length Nat.eqb].
  now rewrite Hres.
Qed.

(** With [data] an object, every symbol gets its result. *)
Lemma fetchStockPrices_object symbols response own :
  symbols <> [] ->
  generateContent (requestFor symbols) = Resolved response ->
  parsedOrFallback symbols (cleanup (responseText response)) = DObject own ->
  snd (fetchStockPrices symbols) =
  Return (map (fun sym =>
                 resultOf match own !! sym with
                          | Some e => Some (OfEntry e)
                          | None => Object_prototype sym
                          end (attribution response) sym)
              symbols).
Proof.
  intros Hne Hres Hdata. rewrite (fetchStockPrices_resolved _ _ Hne Hres), Hdata.
  apply mapThrowing_Return. reflexivity.
Qed.

(** A resolved round trip ends in results unless the cleaned text parses
    to [null], and then it ends in a [TypeError]. *)
Lemma fetchStockPrices_returns symbols response :
  generateContent (requestFor symbols) = Resolved response ->
  JSON_parse_data (cleanup (responseText response)) <> Some DNull ->
  exists results, snd (fetchStockPrices symbols) = Return results.
Proof.
  intros Hres Hparse.
  destruct symbols as [|x l]; [eexists; reflexivity|].
  rewrite (fetchStockPrices_resolved (x :: l) response) by (congruence || exact Hres).
  destruct (read_Return
              (parsedOrFallback (x :: l) (cleanup (responseText response))))
    as (found & Hfound).
  { unfold parsedOrFallback.
    destruct (JSON_parse_data _) as [data|]; [congruence | discriminate]. }
  eexists. apply (mapThrowing_Return _
                    (fun sym => resultOf (found sym) (attribution response) sym)).
  intros sym _. unfold resultFor. now rewrite Hfound.
Qed.

Lemma fetchStockPrices_null symbols response :
  symbols <> [] ->
  generateContent (requestFor symbols) = Resolved response ->
  JSON_parse_data (cleanup (responseText response)) = Some DNull ->
  snd (fetchStockPrices symbols) = Throw TypeError.
Proof.
  intros Hne Hres Hparse.
  rewrite (fetchStockPrices_resolved _ _ Hne Hres).
  unfold parsedOrFallback. rewrite Hparse.
  destruct symbols as [|x l]; [congruence | reflexivity].
Qed.

Lemma fetch_symbols symbols results :
  snd (fetchStockPrices symbols) = Return results ->
  map PriceUpdateResult.symbol results = symbols.
Proof.
  unfold fetchStockPrices.
  destruct (Nat.eqb (length symbols) 0) eqn:Hlen.
  - simpl. intros [= <-]. apply Nat.eqb_eq in Hlen.
    destruct symbols; [reflexivity | discriminate].
  - destruct (generateContent _); cbn [snd]; [|discriminate].
    intros Hmap. apply mapThrowing_inv in Hmap.
    induction Hmap as [|sym update l ys Hx _ IH]; [reflexivity|].
    cbn [map]. now rewrite (resultFor_symbol _ _ _ _ Hx), IH.
Qed.

(** *** The reconciliation merge *)

(** C1.  Take the results of an ingestion for the symbols of the target
    subset.  For a tracker of the current list whose symbol was requested
    and for which the results hold a result with a positive price, the
    merge puts at the same index a tracker with that price as
    [currentPrice], the result's name as [companyName] if it is
    non-empty and the previous [companyName] otherwise, a reading of the
    clock as [lastUpdated], the result's source attribution, no
    [errorMessage], and every other field as before. *)
Theorem merge_success_writes_price :
  forall (targets currentStocks : list StockTracker.t)
         (results : list PriceUpdateResult.t) (n i : nat)
         (stock : StockTracker.t) (update : PriceUpdateResult.t),
    snd (fetchStockPrices (requestedSymbols targets)) = Return results ->
    currentStocks !! i = Some stock ->
    In (StockTracker.symbol stock) (requestedSymbols targets) ->
    In update results ->
    PriceUpdateResult.symbol update = StockTracker.symbol stock ->
    PrimFloat.ltb 0%float (PriceUpdateResult.price update) = true ->
    exists (k : nat) (merged : StockTracker.t),
      (n <= k)%nat /\
      fst (mergeResults (requestedSymbols targets) results currentStocks n) !! i
        = Some merged /\
      StockTracker.currentPrice merged = Some (PriceUpdateResult.price update) /\
      StockTracker.companyName merged =
        match PriceUpdateResult.companyName update with
        | Some (String c name) => Some (String c name)
        | _ => StockTracker.companyName stock
        end /\
      StockTracker.lastUpdated merged = Some (Date_now_at k) /\
      StockTracker.sourceUrl merged = PriceUpdateResult.sourceUrl update /\
      StockTracker.sourceTitle merged = PriceUpdateResult.sourceTitle update /\
      StockTracker.errorMessage merged = None /\
      StockTracker.id merged = StockTracker.id stock /\
      StockTracker.symbol merged = StockTracker.symbol stock /\
      StockTracker.startPrice merged = StockTracker.startPrice stock /\
      StockTracker.targetPrice merged = StockTracker.targetPrice stock /\
      StockTracker.isCompleted merged = StockTracker.isCompleted stock.
Proof.
  intros targets currentStocks results n i stock update
         Hfetch Hi Hreq Hin Hsym Hpos.
  assert (Hfind : findUpdate results stock = Some update).
  { apply findUpdate_unique; try assumption.
    rewrite (fetch_symbols _ _ Hfetch). apply requestedSymbols_NoDup. }
  destruct (mapM_lookup (mergeOne (requestedSymbols targets) results)
              (mergeOne_mono _ _) currentStocks n i stock Hi)
    as (k & Hk & Hlook).
  exists k, (successfulUpdate stock update (Date_now_at k)).
  split; [exact Hk|]. split.
  - unfold mergeResults. rewrite Hlook. f_equal.
    unfold mergeOne. apply includes_In in Hreq. rewrite Hreq. simpl.
    rewrite Hfind, Hpos. reflexivity.
  - simpl. repeat split.
    unfold js_or, truthy_opt, truthy_string.
    destruct (PriceUpdateResult.companyName update) as [[|c name]|]; reflexivity.
Qed.

(** C2.  For a tracker of the current list whose symbol was requested: if
    the round trip failed, or the results hold no result for the symbol,
    or the result looked up for the symbol carries the price 0, then the
    merge puts at the same index a tracker with [currentPrice] as before,
    a reading of the clock as [lastUpdated], and the error message of the
    case; the other fields are as before. *)
Theorem merge_without_price_records_error :
  forall (symbols : list string)
         (outcome : Completion string (list PriceUpdateResult.t))
         (currentStocks : list StockTracker.t) (n i : nat)
         (stock : StockTracker.t),
    currentStocks !! i = Some stock ->
    In (StockTracker.symbol stock) symbols ->
    match outcome with
    | Throw _ => True
    | Return results =>
        (forall r, In r results ->
                   PriceUpdateResult.symbol r <> StockTracker.symbol stock)
        \/ (exists r, findUpdate results stock = Some r
                      /\ PriceUpdateResult.price r = 0%float)
    end ->
    exists (k : nat) (merged : StockTracker.t),
      (n <= k)%nat /\
      fst (settleStocks symbols outcome currentStocks n) !! i = Some merged /\
      StockTracker.currentPrice merged = StockTracker.currentPrice stock /\
      StockTracker.lastUpdated merged = Some (Date_now_at k) /\
      StockTracker.errorMessage merged =
        Some match outcome with
             | Throw _ => "Update failed"
             | Return _ => "Symbol not found or data unavailable"
             end /\
      StockTracker.id merged = StockTracker.id stock /\
      StockTracker.symbol merged = StockTracker.symbol stock /\
      StockTracker.companyName merged = StockTracker.companyName stock /\
      StockTracker.startPrice merged = StockTracker.startPrice stock /\
      StockTracker.targetPrice merged = StockTracker.targetPrice stock /\
      StockTracker.sourceUrl merged = StockTracker.sourceUrl stock /\
      StockTracker.sourceTitle merged = StockTracker.sourceTitle stock /\
      StockTracker.isCompleted merged = StockTracker.isCompleted stock.
Proof.
  intros symbols outcome currentStocks n i stock Hi Hreq Hcase.
  apply includes_In in Hreq.
  destruct outcome as [results|e]; simpl.
  - destruct (mapM_lookup (mergeOne symbols results)
                (mergeOne_mono _ _) currentStocks n i stock Hi)
      as (k & Hk & Hlook).
    exists k,
      (failedUpdate stock "Symbol not found or data unavailable" (Date_now_at k)).
    split; [exact Hk|]. split; [|simpl; repeat split].
    unfold mergeResults. rewrite Hlook. f_equal.
    unfold mergeOne. rewrite Hreq. simpl.
    destruct Hcase as [Hmiss|(r & Hfind & Hzero)].
    + rewrite (findUpdate_missing _ _ Hmiss). reflexivity.
    + rewrite Hfind, Hzero. reflexivity.
  - destruct (mapM_lookup (failOne symbols)
                (failOne_mono _) currentStocks n i stock Hi)
      as (k & Hk & Hlook).
    exists k, (failedUpdate stock "Update failed" (Date_now_at k)).
    split; [exact Hk|]. split; [|simpl; repeat split].
    unfold mergeFailure. rewrite Hlook. f_equal.
    unfold failOne. rewrite Hreq. reflexivity.
Qed.

(** C3, as the code has it.  A tracker whose symbol is not among the
    requested symbols is the same after the merge, whether the round
    trip returned results or failed.  The merge goes by symbol: a tracker
    outside the target subset that shares its symbol with a target is
    updated with it. *)
Theorem merge_keeps_other_symbols :
  forall (symbols : list string)
         (outcome : Completion string (list PriceUpdateResult.t))
         (currentStocks : list StockTracker.t) (n i : nat)
         (stock : StockTracker.t),
    currentStocks !! i = Some stock ->
    ~ In (StockTracker.symbol stock) symbols ->
    fst (settleStocks symbols outcome currentStocks n) !! i = Some stock.
Proof.
  intros symbols outcome currentStocks n i stock Hi Hout.
  apply includes_false in Hout.
  destruct outcome as [results|e]; simpl.
  - destruct (mapM_lookup (mergeOne symbols results)
                (mergeOne_mono _ _) currentStocks n i stock Hi)
      as (k & _ & Hlook).
    unfold mergeResults. rewrite Hlook. f_equal.
    unfold mergeOne. rewrite Hout. reflexivity.
  - destruct (mapM_lookup (failOne symbols)
                (failOne_mono _) currentStocks n i stock Hi)
      as (k & _ & Hlook).
    unfold mergeFailure. rewrite Hlook. f_equal.
    unfold failOne. rewrite Hout. reflexivity.
Qed.

(** *** Ingestion *)

Lemma filter_symbol_map (sym : string) (results : list PriceUpdateResult.t) :
  length (List.filter (fun r => String.eqb (PriceUpdateResult.symbol r) sym) results)
  = length (List.filter (fun x => String.eqb x sym)
                        (map PriceUpdateResult.symbol results)).
Proof.
  induction results as [|r results IH]; simpl; [reflexivity|].
  destruct (String.eqb _ sym); simpl; now rewrite IH.
Qed.

Lemma count_NoDup (sym : string) (l : list string) :
  List.NoDup l -> In sym l ->
  length (List.filter (fun x => String.eqb x sym) l) = 1%nat.
Proof.
  induction 1 as [|x l Hnotin Hnd IH]; simpl; [env_tauto|].
  intros [->|Hin].
  - rewrite String.eqb_refl. simpl. f_equal.
    clear IH Hnd. induction l as [|y l IHl]; simpl; [reflexivity|].
    destruct (String.eqb y sym) eqn:Heq.
    + apply String.eqb_eq in Heq. subst. exfalso. apply Hnotin. now left.
    + apply IHl. intros H. apply Hnotin. now right.
  - destruct (String.eqb x sym) eqn:Heq.
    + apply String.eqb_eq in Heq. subst. contradiction.
    + now apply IH.
Qed.

(** C4, as the code has it.  Whenever [fetchStockPrices] returns, it
    returns one result per element of its input, in the order of the
    input, each with the symbol of its element; so a list without
    repetitions, which is what the controller passes, gets exactly one
    result per symbol.  It returns when the round trip resolves and the
    cleaned text of the response does not parse to [null]; it throws,
    for a list that is not empty, when the round trip is rejected, and
    when the cleaned text parses to [null], where reading the first
    symbol throws a [TypeError].  On the empty list it returns the empty
    list without sending a request. *)
Theorem fetch_one_result_per_element :
  (forall symbols results,
      snd (fetchStockPrices symbols) = Return results ->
      map PriceUpdateResult.symbol results = symbols /\
      (List.NoDup symbols ->
       forall sym, In sym symbols ->
         length (List.filter
                   (fun r => String.eqb (PriceUpdateResult.symbol r) sym) results)
         = 1%nat)) /\
  (forall symbols response,
      generateContent (requestFor symbols) = Resolved response ->
      JSON_parse_data (cleanup (responseText response)) <> Some DNull ->
      exists results, snd (fetchStockPrices symbols) = Return results) /\
  (forall symbols response,
      symbols <> [] ->
      generateContent (requestFor symbols) = Resolved response ->
      JSON_parse_data (cleanup (responseText response)) = Some DNull ->
      snd (fetchStockPrices symbols) = Throw TypeError) /\
  (forall symbols e,
      symbols <> [] ->
      generateContent (requestFor symbols) = Rejected e ->
      snd (fetchStockPrices symbols) = Throw e) /\
  (forall targets, List.NoDup (requestedSymbols targets)) /\
  fetchStockPrices [] = ([], Return []).
Proof.
  split; [|split; [|split; [|split; [|split]]]].
  - intros symbols results Hfetch.
    pose proof (fetch_symbols _ _ Hfetch) as Hmap.
    split; [exact Hmap|].
    intros Hnd sym Hin. rewrite filter_symbol_map, Hmap.
    now apply count_NoDup.
  - exact fetchStockPrices_returns.
  - exact fetchStockPrices_null.
  - intros symbols e Hne Hres. unfold fetchStockPrices.
    destruct symbols as [|x l]; [congruence|]. cbn [length Nat.eqb].
    now rewrite Hres.
  - apply requestedSymbols_NoDup.
  - reflexivity.
Qed.

(** C10.  The call [fetchStockPrices(symbols, apiKey)] does not depend on
    the key the controller passes: the function declares one parameter,
    every request it sends carries the key of the environment, and two
    refreshes that differ only in a non-empty key of the controller end
    in the same list, flags and banner and send the same requests. *)
Theorem ingestion_ignores_caller_credential :
  (forall (symbols : list string) (k1 k2 : string),
      call_with_surplus fetchStockPrices symbols k1
      = call_with_surplus fetchStockPrices symbols k2) /\
  (forall (symbols : list string) (k : string) request,
      In request (fst (call_with_surplus fetchStockPrices symbols k)) ->
      client_apiKey request = API_KEY) /\
  (forall subset st (k1 k2 : string) n,
      k1 <> "" -> k2 <> "" ->
      let r1 := refreshPrices subset (handleSaveApiKey k1 st) n in
      let r2 := refreshPrices subset (handleSaveApiKey k2 st) n in
      stocks (fst (fst r1)) = stocks (fst (fst r2)) /\
      isLoading (fst (fst r1)) = isLoading (fst (fst r2)) /\
      error (fst (fst r1)) = error (fst (fst r2)) /\
      isSettingsOpen (fst (fst r1)) = isSettingsOpen (fst (fst r2)) /\
      snd (fst r1) = snd (fst r2) /\
      snd r1 = snd r2).
Proof.
  split; [|split].
  - reflexivity.
  - intros symbols k request. unfold call_with_surplus, fetchStockPrices.
    destruct (Nat.eqb _ _); simpl; [env_tauto|].
    destruct (generateContent _); simpl; intros [<-|[]]; reflexivity.
  - intros subset st k1 k2 n Hk1 Hk2. cbv zeta.
    unfold refreshPrices.
    destruct k1 as [|c1 k1]; [congruence|].
    destruct k2 as [|c2 k2]; [congruence|]. simpl.
    destruct (Nat.eqb _ _); [simpl; env_tauto|].
    unfold call_with_surplus.
    destruct (fetchStockPrices _) as [requests outcome].
    unfold bind, ret, settle, bind, ret. simpl.
    destruct (settleStocks _ outcome (stocks st) n) as [l n'].
    destruct outcome; simpl; env_tauto.
Qed.

(** *** Import *)

Lemma looksLikeTracker_valid (item : json) :
  looksLikeTracker item = Return true <-> spec_valid_item item.
Proof.
  unfold spec_valid_item.
  destruct item; simpl;
    try (split; [discriminate | intros ((v & H & _) & _); discriminate]).
  destruct (last_member "id" members) as [vid|];
    destruct (last_member "symbol" members) as [vsym|];
    destruct (last_member "startPrice" members) as [vsp|]; simpl;
    try destruct (truthy_json vid) eqn:Hid;
    try destruct (truthy_json vsym) eqn:Hsym; simpl;
    (split;
     [ try discriminate; intros _; eauto 10
     | try reflexivity;
       intros ((v1 & H1 & T1) & (v2 & H2 & T2) & (v3 & H3)); congruence ]).
Qed.

Lemma every_valid (items : list json) :
  every looksLikeTracker items = Return true <-> Forall spec_valid_item items.
Proof.
  induction items as [|item items IH]; simpl.
  - split; [constructor | reflexivity].
  - destruct (looksLikeTracker item) as [[|]|[]] eqn:Hitem.
    + rewrite IH. apply looksLikeTracker_valid in Hitem.
      split; [now constructor | now inversion 1].
    + split; [discriminate|]. inversion 1 as [|? ? Hv _]; subst.
      apply looksLikeTracker_valid in Hv. congruence.
    + split; [discriminate|]. inversion 1 as [|? ? Hv _]; subst.
      apply looksLikeTracker_valid in Hv. congruence.
Qed.

Lemma truthy_json_string (s : string) :
  truthy_json (JString s) = true <-> s <> "".
Proof. destruct s; simpl; split; congruence. Qed.

(** C9.  The import replaces the list by the parsed content exactly when
    the text parses to an array whose elements all have a non-empty
    [id], a non-empty [symbol] and a defined [startPrice], and then
    announces success.  In every other case, among them a parse error, a
    value that is not an array, and an element without [symbol], the
    list stays as it was and the failure is announced. *)
Theorem import_replaces_iff_valid :
  forall (content : string),
    (forall parsedData,
        handleImportFile (Some content) = (Imported parsedData, Some importSuccess)
        <-> JSON_parse content = Some (JArray parsedData)
            /\ Forall spec_valid_item parsedData) /\
    (forall parsedData current,
        JSON_parse content = Some (JArray parsedData) ->
        Forall spec_valid_item parsedData ->
        importedStocks (Some content) current = parsedData) /\
    ((~ exists parsedData,
           JSON_parse content = Some (JArray parsedData)
           /\ Forall spec_valid_item parsedData) ->
     handleImportFile (Some content) = (Untouched, Some importError)
     /\ forall current, importedStocks (Some content) current = current) /\
    (forall v, JSON_parse content = Some v ->
               (forall items, v <> JArray items) ->
               handleImportFile (Some content) = (Untouched, Some importError)) /\
    (forall items item,
        JSON_parse content = Some (JArray items) ->
        In item items -> get item "symbol" = None ->
        handleImportFile (Some content) = (Untouched, Some importError)).
Proof.
  intros content.
  assert (Hiff : forall parsedData,
             handleImportFile (Some content)
               = (Imported parsedData, Some importSuccess)
             <-> JSON_parse content = Some (JArray parsedData)
                 /\ Forall spec_valid_item parsedData).
  { intros parsedData. unfold handleImportFile.
    destruct (JSON_parse content) as [[| | | |items|]|];
      try (split; [discriminate | intros [[=] _]]).
    destruct (every looksLikeTracker items) as [[|]|[]] eqn:Hev.
    - apply every_valid in Hev. split.
      + intros [= <-]. env_tauto.
      + intros [[= <-] _]. reflexivity.
    - split; [discriminate|]. intros [[= <-] Hall].
      apply every_valid in Hall. congruence.
    - split; [discriminate|]. intros [[= <-] Hall].
      apply every_valid in Hall. congruence. }
  assert (Hrej : (~ exists parsedData,
                      JSON_parse content = Some (JArray parsedData)
                      /\ Forall spec_valid_item parsedData) ->
                 handleImportFile (Some content) = (Untouched, Some importError)).
  { intros Hno. unfold handleImportFile.
    destruct (JSON_parse content) as [[| | | |items|]|]; try reflexivity.
    destruct (every looksLikeTracker items) as [[|]|[]] eqn:Hev; try reflexivity.
    exfalso. apply Hno. exists items. apply every_valid in Hev. env_tauto. }
  split; [exact Hiff|]. split; [|split; [|split]].
  - intros parsedData current Hparse Hall. unfold importedStocks.
    now rewrite (proj2 (Hiff parsedData) (conj Hparse Hall)).
  - intros Hno. split; [now apply Hrej|].
    intros current. unfold importedStocks. now rewrite (Hrej Hno).
  - intros v Hparse Hnot. apply Hrej. intros (items & Hp & _).
    rewrite Hparse in Hp. injection Hp as ->. now apply (Hnot items).
  - intros items item Hparse Hin Hsym. apply Hrej.
    intros (items' & Hp & Hall). rewrite Hparse in Hp. injection Hp as <-.
    rewrite List.Forall_forall in Hall.
    destruct (Hall item Hin) as (_ & (v & Hv & _) & _).
    congruence.
Qed.

(** *** Staleness *)

Lemma active_spec (s : StockTracker.t) :
  active s = true <-> StockTracker.isCompleted s <> Some true.
Proof.
  unfold active, truthy_opt, truthy_bool.
  destruct (StockTracker.isCompleted s) as [[|]|]; simpl; split; congruence.
Qed.

Lemma or_zero_id (t : Z) : or_zero t = t.
Proof. unfold or_zero. destruct (Z.eqb_spec t 0); congruence. Qed.

Lemma isStale_spec (s : StockTracker.t) (n : nat) :
  fst (isStale s n) = true <->
  (StockTracker.lastUpdated s = None \/
   exists t, StockTracker.lastUpdated s = Some t /\ 3600000 < Date_now_at n - t).
Proof.
  unfold isStale, bind, ret, Date_now.
  destruct (StockTracker.lastUpdated s) as [t|]; simpl.
  - rewrite or_zero_id, Z.ltb_lt. split.
    + intros H. right. exists t. env_tauto.
    + intros [H|(t' & [= <-] & H)]; [discriminate | exact H].
  - split; [env_tauto | reflexivity].
Qed.

Lemma qualifies_spec (s : StockTracker.t) (n : nat) :
  active s && fst (isStale s n) = true <-> spec_qualifies (Date_now_at n) s.
Proof.
  unfold spec_qualifies.
  rewrite andb_true_iff, active_spec, isStale_spec. env_tauto.
Qed.

Section ConstantClock.

Variable now : Z.
Hypothesis clock_now : forall k, Date_now_at k = now.

Lemma isStale_now (s : StockTracker.t) (n : nat) :
  fst (isStale s n) = true <->
  (StockTracker.lastUpdated s = None \/
   exists t, StockTracker.lastUpdated s = Some t /\ 3600000 < now - t).
Proof. rewrite isStale_spec, clock_now. env_tauto. Qed.

Lemma filterM_isStale_In (l : list StockTracker.t) (n : nat) (s : StockTracker.t) :
  In s (fst (filterM isStale l n)) <->
  In s l /\ fst (isStale s O) = true.
Proof.
  revert n. induction l as [|x l IH]; intros n; simpl; [env_tauto|].
  unfold bind, ret.
  destruct (isStale x n) as [b n1] eqn:Hx.
  destruct (filterM isStale l n1) as [ys n2] eqn:Hys.
  specialize (IH n1). rewrite Hys in IH. simpl in IH.
  assert (Hb : b = true <-> fst (isStale x O) = true).
  { rewrite (isStale_now x O), <- (isStale_now x n), Hx. env_tauto. }
  destruct b; simpl.
  - rewrite IH. split.
    + intros [<-|H]; [split; [now left | now apply Hb] | env_tauto].
    + env_tauto.
  - rewrite IH. split; [env_tauto|].
    intros [[<-|H] Hs]; [|env_tauto].
    apply Hb in Hs. discriminate.
Qed.

Lemma someM_isStale_false (l : list StockTracker.t) (n : nat) :
  fst (someM isStale l n) = false ->
  forall s, In s l -> fst (isStale s O) = false.
Proof.
  revert n. induction l as [|x l IH]; intros n; simpl; [env_tauto|].
  unfold bind, ret.
  destruct (isStale x n) as [b n1] eqn:Hx.
  destruct b; simpl; [discriminate|].
  intros Hrest s [<-|Hin]; [|now apply (IH n1)].
  destruct (fst (isStale x O)) eqn:H0; [|reflexivity].
  apply isStale_now in H0. apply (isStale_now x n) in H0.
  rewrite Hx in H0. discriminate.
Qed.

Lemma autoRefreshTargets_In (st : AppState) (n : nat) (s : StockTracker.t) :
  apiKey st <> "" ->
  In s (match fst (autoRefreshTargets st n) with
        | Some toUpdate => toUpdate
        | None => []
        end)
  <-> In s (stocks st) /\ spec_qualifies now s.
Proof.
  intros Hkey. unfold autoRefreshTargets.
  destruct (apiKey st) as [|c key] eqn:Hk; [congruence|]. simpl.
  unfold bind, ret.
  destruct (someM isStale (List.filter active (stocks st)) n)
    as [needsUpdate n1] eqn:Hsome.
  assert (Hq : In s (List.filter active (stocks st)) /\ fst (isStale s O) = true
               <-> In s (stocks st) /\ spec_qualifies now s).
  { rewrite filter_In. unfold spec_qualifies.
    rewrite active_spec, (isStale_now s O). env_tauto. }
  destruct (needsUpdate && _) eqn:Hgo.
  - destruct (filterM isStale _ n1) as [toUpdate n2] eqn:Hf. simpl.
    rewrite <- Hq.
    pose proof (filterM_isStale_In (List.filter active (stocks st)) n1 s) as H.
    rewrite Hf in H. exact H.
  - simpl. rewrite <- Hq. split; [env_tauto|]. intros [Hin Hs].
    apply andb_false_iff in Hgo as [->|Hlen].
    + pose proof (someM_isStale_false (List.filter active (stocks st)) n) as H.
      rewrite Hsome in H.
      specialize (H eq_refl s Hin). congruence.
    + apply Nat.ltb_ge in Hlen.
      destruct (List.filter active (stocks st)); [contradiction | simpl in Hlen; lia].
Qed.

End ConstantClock.

(** C7.  A tracker qualifies for the automatic refresh exactly when it
    is not completed and its [lastUpdated] is absent or lies more than
    3600000 ms before the reading of the clock; with a key present and
    the clock standing at [now], the subset handed to [refreshPrices]
    holds exactly the trackers of the list that qualify.  At the
    boundary, 3600001 ms make a tracker stale, 3599999 ms do not, and an
    absent [lastUpdated] always does. *)
Theorem staleness_policy :
  (forall (s : StockTracker.t) (n : nat),
      active s && fst (isStale s n) = true <-> spec_qualifies (Date_now_at n) s) /\
  (forall (now : Z) (st : AppState) (n : nat) (s : StockTracker.t),
      (forall k, Date_now_at k = now) ->
      apiKey st <> "" ->
      In s (match fst (autoRefreshTargets st n) with
            | Some toUpdate => toUpdate
            | None => []
            end)
      <-> In s (stocks st) /\ spec_qualifies now s) /\
  (forall (s : StockTracker.t) (n : nat),
      StockTracker.isCompleted s <> Some true ->
      (StockTracker.lastUpdated s = Some (Date_now_at n - 3600001) ->
       active s && fst (isStale s n) = true) /\
      (StockTracker.lastUpdated s = Some (Date_now_at n - 3599999) ->
       active s && fst (isStale s n) = false) /\
      (StockTracker.lastUpdated s = None ->
       active s && fst (isStale s n) = true)).
Proof.
  split; [exact qualifies_spec|]. split.
  - intros now st n s Hclock Hkey. now apply autoRefreshTargets_In.
  - intros s n Hactive. split; [|split]; intros Hlast.
    + apply qualifies_spec. split; [exact Hactive|].
      right. eexists. split; [exact Hlast | lia].
    + apply not_true_is_false. intros H. apply qualifies_spec in H.
      destruct H as [_ [H|(t & Ht & Hlt)]]; [congruence|].
      rewrite Hlast in Ht. injection Ht as <-. lia.
    + apply qualifies_spec. split; [exact Hactive | now left].
Qed.

(** *** Progress and sorting *)




(** In insertion order the comparison is always zero and the list stays
    as it is. *)
Lemma getSortedStocks_added (l : list StockTracker.t) :
  getSortedStocks ADDED_DESC l = l.
Proof.
  unfold getSortedStocks, Array_sort.
  induction l as [|x l IH]; simpl; [reflexivity|].
  rewrite IH. destruct l; reflexivity.
Qed.

Lemma insert_by_Permutation {A : Type} (cmp : A -> A -> float) (x : A) (l : list A) :
  Permutation (insert_by cmp x l) (x :: l).
Proof.
  induction l as [|y l IH]; simpl; [reflexivity|].
  destruct (PrimFloat.ltb _ _); [|reflexivity].
  rewrite IH. apply perm_swap.
Qed.

(** Sorting shows the same trackers, in every mode. *)
Lemma getSortedStocks_Permutation (sortBy : SortOption) (l : list StockTracker.t) :
  Permutation (getSortedStocks sortBy l) l.
Proof.
  unfold getSortedStocks, Array_sort.
  induction l as [|x l IH]; simpl; [reflexivity|].
  rewrite insert_by_Permutation. now constructor.
Qed.

Lemma insert_by_pass {A : Type} (cmp : A -> A -> float) (x : A) (P U : list A) :
  (forall y, In y P -> PrimFloat.ltb 0 (cmp x y) = true) ->
  insert_by cmp x (P ++ U)%list = (P ++ insert_by cmp x U)%list.
Proof.
  induction P as [|y P IH]; intros H; [reflexivity|].
  cbn [app insert_by]. rewrite (H y) by now left.
  rewrite IH; [reflexivity|]. intros z Hz. apply H. now right.
Qed.


Lemma insert_by_In {A : Type} (cmp : A -> A -> float) (x y : A) (l : list A) :
  In y (insert_by cmp x l) <-> y = x \/ In y l.
Proof.
  induction l as [|z l IH]; cbn [insert_by].
  - simpl. intuition.
  - destruct (PrimFloat.ltb _ _); simpl; rewrite ?IH; intuition.
Qed.

Lemma Array_sort_In {A : Type} (cmp : A -> A -> float) (y : A) (l : list A) :
  In y (Array_sort cmp l) <-> In y l.
Proof.
  unfold Array_sort. induction l as [|x l IH]; cbn [fold_right]; [reflexivity|].
  rewrite insert_by_In, IH. simpl. intuition.
Qed.

Lemma getProgress_hasPrice_false (s : StockTracker.t) :
  hasPrice s = false -> getProgress s = (-9999)%float.
Proof.
  unfold getProgress, hasPrice. now destruct (StockTracker.currentPrice s).
Qed.

Lemma head_without_price (u : StockTracker.t) (U l : list StockTracker.t) :
  List.filter (fun s => negb (hasPrice s)) l = u :: U -> hasPrice u = false.
Proof.
  intros HU.
  assert (Hin : In u (List.filter (fun s => negb (hasPrice s)) l))
    by (rewrite HU; now left).
  apply filter_In in Hin as [_ Hn]. now apply negb_true_iff in Hn.
Qed.



(** *** The invariant of the list *)

Lemma mapM_Forall {A B : Type} (P : A -> Prop) (Q : B -> Prop) (f : A -> Clocked B) :
  (forall x n, P x -> Q (fst (f x n))) ->
  forall l n, Forall P l -> Forall Q (fst (mapM f l n)).
Proof.
  intros Hf. induction l as [|x l IH]; intros n Hall.
  - constructor.
  - rewrite mapM_cons. simpl. inversion Hall; subst.
    constructor; [now apply Hf | now apply IH].
Qed.

Lemma mergeOne_invariant symbols results stock n :
  attempted_has_outcome stock ->
  attempted_has_outcome (fst (mergeOne symbols results stock n)).
Proof.
  intros Hinv. unfold mergeOne, bind, ret, Date_now.
  destruct (negb _); simpl; [exact Hinv|].
  destruct (findUpdate results stock) as [update|]; simpl.
  - destruct (PrimFloat.ltb _ _); simpl; intros _; [left | right]; discriminate.
  - intros _. right. discriminate.
Qed.

Lemma failOne_invariant symbols stock n :
  attempted_has_outcome stock ->
  attempted_has_outcome (fst (failOne symbols stock n)).
Proof.
  intros Hinv. unfold failOne, bind, ret, Date_now.
  destruct (includes _ _); simpl; [|exact Hinv].
  intros _. right. discriminate.
Qed.

Lemma settleStocks_invariant symbols outcome l n :
  Forall attempted_has_outcome l ->
  Forall attempted_has_outcome (fst (settleStocks symbols outcome l n)).
Proof.
  destruct outcome as [results|e]; simpl.
  - apply mapM_Forall. intros x k. apply mergeOne_invariant.
  - apply mapM_Forall. intros x k. apply failOne_invariant.
Qed.

Lemma handleSubmit_invariant uuid form newStock :
  handleSubmit uuid form = Some newStock -> attempted_has_outcome newStock.
Proof.
  unfold handleSubmit. destruct (_ || _); [discriminate|].
  intros [= <-]. intros H. now contradiction H.
Qed.

Lemma toggleComplete_invariant id l :
  Forall attempted_has_outcome l ->
  Forall attempted_has_outcome (toggleComplete id l).
Proof.
  unfold toggleComplete. induction 1 as [|s l Hs Hl IH]; simpl; constructor; [|exact IH].
  destruct (String.eqb _ _); exact Hs.
Qed.

Lemma deleteStock_invariant id l :
  Forall attempted_has_outcome l ->
  Forall attempted_has_outcome (deleteStock id l).
Proof.
  unfold deleteStock. induction 1 as [|s l Hs Hl IH]; simpl; [constructor|].
  destruct (negb _); [now constructor | exact IH].
Qed.

Lemma step_invariant (importable : list StockTracker.t -> Prop) l l' :
  (forall imported, importable imported -> Forall attempted_has_outcome imported) ->
  step importable l l' ->
  Forall attempted_has_outcome l -> Forall attempted_has_outcome l'.
Proof.
  intros Himp Hstep Hinv. destruct Hstep.
  - constructor; [|exact Hinv]. eapply handleSubmit_invariant; eassumption.
  - now apply settleStocks_invariant.
  - now apply toggleComplete_invariant.
  - now apply deleteStock_invariant.
  - now apply Himp.
Qed.

(** C6, as the code has it.  Creation, the reconciliation merge, the
    completion toggle and deletion preserve the invariant that a tracker
    with [lastUpdated] set has a [currentPrice] or an [errorMessage]; so
    it holds in every list reached from the empty one by these operations
    and by imports of lists that satisfy it themselves.  The validation of
    an import does not look at these fields. *)
Theorem invariant_without_foreign_import :
  forall (importable : list StockTracker.t -> Prop),
    (forall imported, importable imported -> Forall attempted_has_outcome imported) ->
    (forall l l', step importable l l' ->
                  Forall attempted_has_outcome l -> Forall attempted_has_outcome l') /\
    (forall l, reachable importable l -> Forall attempted_has_outcome l).
Proof.
  intros importable Himp. split.
  - intros l l'. now apply step_invariant.
  - unfold reachable. apply rtc_ind_r; [constructor|].
    intros l l' _ Hstep Hinv. eapply step_invariant; eassumption.
Qed.

(** *** The patterns of the fallback always parse *)

Lemma list_ascii_app (a b : string) :
  list_ascii_of_string (a ++ b)
  = (list_ascii_of_string a ++ list_ascii_of_string b)%list.
Proof. induction a as [|c a IH]; simpl; [reflexivity | now rewrite IH]. Qed.

Lemma length_list_ascii (s : string) :
  length (list_ascii_of_string s) = String.length s.
Proof. induction s; simpl; congruence. Qed.

Lemma parse_quantifier_none (s : list ascii) :
  no_quantifier s = true -> parse_quantifier s = Parsed (QOne, s).
Proof.
  destruct s as [|c s]; [reflexivity|]. simpl.
  each_char c; try discriminate; reflexivity.
Qed.

(** A character that [escapeRegExp] leaves alone is a pattern character. *)
Lemma parse_atom_plain (c : ascii) (s : list ascii) :
  isRegExpSpecial c = false -> parse_atom (c :: s) = Parsed (MChar c, s).
Proof. each_char c; try discriminate; reflexivity. Qed.

(** A character that [escapeRegExp] escapes is read back as itself. *)
Lemma parse_atom_escaped (c : ascii) (s : list ascii) :
  isRegExpSpecial c = true ->
  parse_atom (backslash :: c :: s) = Parsed (MChar c, s).
Proof. each_char c; try discriminate; reflexivity. Qed.

Lemma plain_not_paren (c : ascii) :
  isRegExpSpecial c = false ->
  Ascii.eqb c ")" = false /\ Ascii.eqb c "(" = false.
Proof. each_char c; try discriminate; split; reflexivity. Qed.

Lemma plain_no_quantifier (c : ascii) (s : list ascii) :
  isRegExpSpecial c = false -> no_quantifier (c :: s) = true.
Proof. each_char c; try discriminate; reflexivity. Qed.

Lemma escaped_no_quantifier (sym : string) (rest : list ascii) :
  no_quantifier rest = true ->
  no_quantifier (list_ascii_of_string (escapeRegExp sym) ++ rest)%list = true.
Proof.
  destruct sym as [|c sym]; simpl; [env_tauto|]. intros _.
  destruct (isRegExpSpecial c) eqn:Hc; [reflexivity|].
  now apply plain_no_quantifier.
Qed.

(** The escaped symbol parses to the literal characters of the symbol,
    whatever they are. *)
Lemma parse_terms_escaped (sym : string) (fuel : nat) (rest : list ascii) :
  no_quantifier rest = true ->
  parse_terms (String.length sym + fuel)
              (list_ascii_of_string (escapeRegExp sym) ++ rest)%list
  = prepend (literal (list_ascii_of_string sym)) (parse_terms fuel rest).
Proof.
  intros Hrest.
  induction sym as [|c sym IH]; simpl String.length; simpl escapeRegExp.
  - simpl. destruct (parse_terms fuel rest); reflexivity.
  - pose proof (escaped_no_quantifier sym rest Hrest) as Hnq.
    destruct (isRegExpSpecial c) eqn:Hc.
    + cbn [list_ascii_of_string app plus parse_terms].
      change (Ascii.eqb backslash ")") with false.
      change (Ascii.eqb backslash "(") with false. cbv iota.
      unfold parse_quantified. rewrite (parse_atom_escaped c _ Hc).
      cbn [andThen]. rewrite (parse_quantifier_none _ Hnq). cbn [andThen].
      rewrite IH. destruct (parse_terms fuel rest); reflexivity.
    + cbn [list_ascii_of_string app plus parse_terms].
      destruct (plain_not_paren c Hc) as [-> ->].
      unfold parse_quantified. rewrite (parse_atom_plain c _ Hc).
      cbn [andThen]. rewrite (parse_quantifier_none _ Hnq). cbn [andThen].
      rewrite IH. destruct (parse_terms fuel rest); reflexivity.
Qed.

Lemma parse_group_more_fuel (f : nat) :
  forall (f' : nat) (s : list ascii) r,
    parse_group f s = Parsed r -> (f <= f')%nat -> parse_group f' s = Parsed r.
Proof.
  induction f as [|f IH]; intros f' s r H Hle; [discriminate|].
  destruct f' as [|f']; [lia|]. cbn [parse_group] in *.
  destruct s as [|c s]; [discriminate|].
  destruct (Ascii.eqb c ")"); [exact H|].
  destruct (Ascii.eqb c "("); [discriminate|].
  destruct (parse_quantified (c :: s)) as [[a s2]| |]; try discriminate.
  cbn [andThen] in *.
  destruct (parse_group f s2) as [[body rest]| |] eqn:Hg; try discriminate.
  rewrite (IH f' s2 _ Hg); [exact H | lia].
Qed.

Lemma parse_terms_more_fuel (f : nat) :
  forall (f' : nat) (s : list ascii) ts,
    parse_terms f s = Parsed ts -> (f <= f')%nat -> parse_terms f' s = Parsed ts.
Proof.
  induction f as [|f IH]; intros f' s ts H Hle; [discriminate|].
  destruct f' as [|f']; [lia|]. cbn [parse_terms] in *.
  destruct s as [|c s]; [exact H|].
  destruct (Ascii.eqb c ")"); [discriminate|].
  destruct (Ascii.eqb c "(").
  - destruct (group_start s); try discriminate. cbn [andThen] in *.
    destruct (parse_group f s) as [[body s2]| |] eqn:Hg; try discriminate.
    rewrite (parse_group_more_fuel f f' s _ Hg) by lia. cbn [andThen] in *.
    destruct (quantifier_follows s2); [discriminate|].
    destruct (parse_terms f s2) as [ts0| |] eqn:Ht; try discriminate.
    rewrite (IH f' s2 _ Ht); [exact H | lia].
  - destruct (parse_quantified (c :: s)) as [[[m qt] s2]| |]; try discriminate.
    cbn [andThen] in *.
    destruct (parse_terms f s2) as [ts0| |] eqn:Ht; try discriminate.
    rewrite (IH f' s2 _ Ht); [exact H | lia].
Qed.

Lemma escape_length (sym : string) :
  (String.length sym <= String.length (escapeRegExp sym))%nat.
Proof.
  induction sym as [|c sym IH]; simpl; [lia|].
  destruct (isRegExpSpecial c); simpl; lia.
Qed.

(** A pattern made of a quote, the escaped symbol and a constant rest
    parses to the quote, the characters of the symbol and the terms of
    the rest. *)
Lemma RegExp_new_around_symbol (sym rest : string) (ts : list Term) (ic : bool) :
  no_quantifier (list_ascii_of_string rest) = true ->
  parse_terms (String.length rest) (list_ascii_of_string rest) = Parsed ts ->
  RegExp_new (q ++ escapeRegExp sym ++ rest) ic
  = Parsed (mkRegExp (TAtom (MChar dq) QOne
                        :: literal (list_ascii_of_string sym) ++ ts)%list ic).
Proof.
  intros Hnq Hrest. unfold RegExp_new.
  assert (Hmain : parse_terms (S (String.length sym + String.length rest))
            (list_ascii_of_string (q ++ escapeRegExp sym ++ rest))
          = Parsed (TAtom (MChar dq) QOne
                      :: literal (list_ascii_of_string sym) ++ ts)%list).
  { change (q ++ escapeRegExp sym ++ rest)
      with (String dq (escapeRegExp sym ++ rest)).
    cbn [list_ascii_of_string parse_terms].
    change (Ascii.eqb dq ")") with false. change (Ascii.eqb dq "(") with false.
    cbv iota. rewrite list_ascii_app.
    unfold parse_quantified. rewrite parse_atom_plain by reflexivity.
    cbn [andThen].
    rewrite parse_quantifier_none by (now apply escaped_no_quantifier).
    cbn [andThen]. rewrite parse_terms_escaped by exact Hnq.
    rewrite Hrest. reflexivity. }
  rewrite (parse_terms_more_fuel _ _ _ _ Hmain); [reflexivity|].
  change (q ++ escapeRegExp sym ++ rest)
    with (String dq (escapeRegExp sym ++ rest)).
  cbn [list_ascii_of_string length].
  rewrite list_ascii_app, length_app, !length_list_ascii.
  pose proof (escape_length sym). lia.
Qed.

Lemma literal_quoted (sym : string) (ts : list Term) :
  (TAtom (MChar dq) QOne
     :: literal (list_ascii_of_string sym) ++ TAtom (MChar dq) QOne :: ts)%list
  = (literal (quoted sym) ++ ts)%list.
Proof.
  unfold quoted, literal. cbn [map]. rewrite map_app. cbn [map].
  reassoc. reflexivity.
Qed.

Lemma RegExp_new_price (sym : string) :
  RegExp_new (pricePattern (escapeRegExp sym)) true
  = Parsed (mkRegExp (priceTerms sym) true).
Proof.
  unfold pricePattern.
  rewrite (RegExp_new_around_symbol sym _
             (TAtom (MChar dq) QOne :: openBrace ++ priceSuffix)%list);
    [|reflexivity | vm_compute; reflexivity].
  now rewrite literal_quoted.
Qed.

Lemma RegExp_new_name (sym : string) :
  RegExp_new (namePattern (escapeRegExp sym)) true
  = Parsed (mkRegExp (nameTerms sym) true).
Proof.
  unfold namePattern.
  rewrite (RegExp_new_around_symbol sym _
             (TAtom (MChar dq) QOne :: openBrace ++ literal (quoted "name") ++ colon
                ++ [TAtom (MChar dq) QOne; TGroup [(notQuote, QPlus)];
                    TAtom (MChar dq) QOne])%list);
    [|reflexivity | vm_compute; reflexivity].
  now rewrite literal_quoted.
Qed.

(** *** Matching *)

Lemma star_prefix {R : Type} (t : ascii -> bool) (w s : list ascii)
    (k : list ascii -> option R) (r : R) :
  forallb t w = true -> star t s k = Some r -> star t (w ++ s)%list k = Some r.
Proof.
  induction w as [|c w IH]; simpl; [env_tauto|].
  intros H Hs. apply andb_true_iff in H as [-> Hw].
  now rewrite (IH Hw Hs).
Qed.

Lemma star_stop {R : Type} (t : ascii -> bool) (s : list ascii)
    (k : list ascii -> option R) :
  head_fails t s -> star t s k = k s.
Proof. destruct s as [|c s]; simpl; [reflexivity|]. now intros ->. Qed.

(** The greedy choice: the whole run, when the continuation accepts what
    follows it. *)
Lemma star_greedy {R : Type} (t : ascii -> bool) (w s : list ascii)
    (k : list ascii -> option R) (r : R) :
  forallb t w = true -> head_fails t s -> k s = Some r ->
  star t (w ++ s)%list k = Some r.
Proof.
  intros Hw Hs Hk. apply star_prefix; [exact Hw|]. now rewrite star_stop.
Qed.

Lemma star_none {R : Type} (t : ascii -> bool) (w s : list ascii)
    (k : list ascii -> option R) :
  head_fails t s ->
  (forall v u, w = (v ++ u)%list -> k (u ++ s)%list = None) ->
  star t (w ++ s)%list k = None.
Proof.
  intros Hs. induction w as [|c w IH]; intros Hk.
  - simpl. rewrite star_stop by exact Hs. exact (Hk [] [] eq_refl).
  - simpl. rewrite IH.
    + destruct (t c); exact (Hk [] (c :: w) eq_refl).
    + intros v u ->. exact (Hk (c :: v) u eq_refl).
Qed.

(** Backtracking: the run is given back down to the longest suffix that
    the continuation accepts. *)
Lemma star_backtrack {R : Type} (t : ascii -> bool) (w1 w2 s : list ascii)
    (k : list ascii -> option R) (r : R) :
  forallb t w1 = true -> forallb t w2 = true -> head_fails t s ->
  k (w2 ++ s)%list = Some r ->
  (forall v u, w2 = (v ++ u)%list -> v <> [] -> k (u ++ s)%list = None) ->
  star t (w1 ++ w2 ++ s)%list k = Some r.
Proof.
  intros H1 H2 Hs Hk Hnone. apply star_prefix; [exact H1|].
  destruct w2 as [|c w2]; simpl in *.
  - now rewrite star_stop.
  - apply andb_true_iff in H2 as [-> _].
    rewrite star_none; [exact Hk | exact Hs |].
    intros v u ->. apply (Hnone (c :: v) u eq_refl). discriminate.
Qed.

Lemma same_char_refl (ic : bool) (c : ascii) : same_char ic c c = true.
Proof. unfold same_char. destruct ic; apply Ascii.eqb_refl. Qed.

Lemma prefix_ci_self (w s : list ascii) : prefix_ci w (w ++ s)%list = true.
Proof.
  induction w as [|c w IH]; cbn [prefix_ci app]; [reflexivity|].
  now rewrite same_char_refl, IH.
Qed.

(** Literal terms match a prefix up to case, and nothing else. *)
Lemma match_literal {R : Type} (w : list ascii) (ts : list Term) :
  forall (s : list ascii) (caps : list (list ascii))
         (k : list ascii -> list (list ascii) -> option R),
    match_terms true (literal w ++ ts)%list s caps k =
    if prefix_ci w s then match_terms true ts (skipn (length w) s) caps k
    else None.
Proof.
  induction w as [|a w IH]; intros s caps k; [reflexivity|].
  cbn [literal map app match_terms match_atom test prefix_ci].
  destruct s as [|c s]; [reflexivity|].
  destruct (same_char true a c); [|reflexivity].
  cbn [andb length skipn]. apply IH.
Qed.

Lemma skipn_app_exact {A : Type} (w s : list A) :
  skipn (length w) (w ++ s)%list = s.
Proof. induction w as [|a w IH]; simpl; [reflexivity | exact IH]. Qed.

Lemma consumed_app (w s : list ascii) : consumed (w ++ s)%list s = w.
Proof.
  unfold consumed. rewrite length_app.
  replace (length w + length s - length s)%nat with (length w) by lia.
  rewrite firstn_app, firstn_all, Nat.sub_diag. simpl. apply app_nil_r.
Qed.

Lemma occurs_within_false (key w rest : list ascii) :
  occurs_within key w rest = false ->
  forall v u, w = (v ++ u)%list -> u <> [] ->
              prefix_ci key (u ++ rest)%list = false.
Proof.
  induction w as [|c w IH]; intros H v u Heq Hu.
  - destruct v, u; try discriminate. congruence.
  - simpl in H. apply orb_false_elim in H as [Hhere Hlater].
    destruct v as [|d v]; simpl in Heq.
    + subst u. exact Hhere.
    + injection Heq as -> ->. now apply (IH Hlater v u).
Qed.

Lemma search_here (r : RegExp) (s : list ascii) (caps : list (list ascii)) :
  match_here r s = Some caps -> search r s = Some caps.
Proof. intros H. destruct s; cbn [search]; now rewrite H. Qed.

(** The search passes over the positions where the pattern does not
    match. *)
Lemma search_skip (r : RegExp) (pre rest : list ascii) (caps : list (list ascii)) :
  (forall v u, pre = (v ++ u)%list -> u <> [] ->
               match_here r (u ++ rest)%list = None) ->
  match_here r rest = Some caps ->
  search r (pre ++ rest)%list = Some caps.
Proof.
  induction pre as [|c pre IH]; intros Hnone Hhere.
  - now apply search_here.
  - cbn [app search].
    assert (Hc : match_here r (c :: pre ++ rest)%list = None)
      by (apply (Hnone [] (c :: pre) eq_refl); discriminate).
    rewrite Hc. apply IH; [|exact Hhere].
    intros v u -> Hu. apply (Hnone (c :: v) u eq_refl Hu).
Qed.

(** The classes of the patterns, under the ignore-case flag. *)
Lemma test_white (c : ascii) : test true white c = is_space c.
Proof. simpl. now rewrite orb_false_r. Qed.

Lemma test_notBrace (c : ascii) : test true notBrace c = not_brace c.
Proof. each_char c; reflexivity. Qed.

Lemma test_digitOrDot (c : ascii) : test true digitOrDot c = digit_or_dot c.
Proof. each_char c; reflexivity. Qed.

Lemma space_not_brace (c : ascii) : is_space c = true -> not_brace c = true.
Proof. each_char c; try discriminate; reflexivity. Qed.

Lemma digit_not_brace (c : ascii) : digit_or_dot c = true -> not_brace c = true.
Proof. each_char c; try discriminate; reflexivity. Qed.

Lemma digit_not_space (c : ascii) : digit_or_dot c = true -> is_space c = false.
Proof. each_char c; try discriminate; reflexivity. Qed.

Lemma forallb_impl {A : Type} (p p' : A -> bool) (l : list A) :
  (forall x, p x = true -> p' x = true) ->
  forallb p l = true -> forallb p' l = true.
Proof.
  intros Himp. induction l as [|x l IH]; simpl; [env_tauto|].
  intros H. apply andb_true_iff in H as [Hx Hl].
  now rewrite (Himp x Hx), IH.
Qed.

Lemma forallb_test (m : CharMatcher) (p : ascii -> bool) (l : list ascii) :
  (forall c, test true m c = p c) ->
  forallb p l = true -> forallb (test true m) l = true.
Proof. intros H. apply forallb_impl. intros x. now rewrite H. Qed.

(** *** A recognizable fragment is found *)

Section Fragment.

Variables (sym : string) (pre ws1 ws2 b1 ws3 ws4 num b2 post : list ascii).

Hypothesis space1 : forallb is_space ws1 = true.
Hypothesis space2 : forallb is_space ws2 = true.
Hypothesis space3 : forallb is_space ws3 = true.
Hypothesis space4 : forallb is_space ws4 = true.
Hypothesis b1_no_brace : forallb not_brace b1 = true.
Hypothesis b2_no_brace : forallb not_brace b2 = true.
Hypothesis num_nonempty : num <> [].
Hypothesis num_digits : forallb digit_or_dot num = true.
(** The number is not continued by what follows it. *)
Hypothesis num_maximal : starts_with_digit_or_dot b2 = false.
(** The quoted symbol does not occur earlier in the text. *)
Hypothesis first_key :
  occurs_within (quoted sym) pre
    (fragment sym ws1 ws2 b1 ws3 ws4 num b2 ++ post)%list = false.
(** The quoted word price does not occur again before the closing
    brace. *)
Hypothesis last_price :
  occurs_within (quoted "price") (tl (priceField ws3 ws4 num b2))
    ("}"%char :: post) = false.

Lemma match_closing (caps : list (list ascii)) :
  match_terms true [TAtom notBrace QStar; TAtom (MChar "}") QOne]
    (b2 ++ "}"%char :: post)%list caps (fun _ caps' => Some caps')
  = Some caps.
Proof using b2_no_brace.
  cbn [match_terms match_atom]. apply star_greedy.
  - apply (forallb_test notBrace not_brace);
      [apply test_notBrace | exact b2_no_brace].
  - reflexivity.
  - reflexivity.
Qed.

Lemma match_number (caps : list (list ascii)) :
  match_terms true
    [TGroup [(digitOrDot, QPlus)]; TAtom notBrace QStar; TAtom (MChar "}") QOne]
    (num ++ b2 ++ "}"%char :: post)%list caps (fun _ caps' => Some caps')
  = Some (caps ++ [num])%list.
Proof using num_nonempty num_digits num_maximal b2_no_brace.
  clear first_key last_price.
  destruct num as [|c num'] eqn:Hnum; [congruence|].
  pose proof num_digits as Hd. cbn [forallb] in Hd.
  apply andb_true_iff in Hd as [Hc Hrest].
  cbn [match_terms match_atoms match_atom app].
  rewrite test_digitOrDot, Hc.
  apply star_greedy.
  - apply (forallb_test digitOrDot digit_or_dot);
      [apply test_digitOrDot | exact Hrest].
  - unfold head_fails. destruct b2 as [|d b2']; cbn [app].
    + reflexivity.
    + rewrite test_digitOrDot. exact num_maximal.
  - change (c :: num' ++ b2 ++ "}"%char :: post)%list
      with ((c :: num') ++ b2 ++ "}"%char :: post)%list.
    rewrite consumed_app. apply match_closing.
Qed.

Lemma match_colon_number (caps : list (list ascii)) :
  match_terms true
    (colon ++ [TGroup [(digitOrDot, QPlus)]; TAtom notBrace QStar;
               TAtom (MChar "}") QOne])%list
    (ws3 ++ ":"%char :: ws4 ++ num ++ b2 ++ "}"%char :: post)%list caps
    (fun _ caps' => Some caps')
  = Some (caps ++ [num])%list.
Proof using space3 space4 num_nonempty num_digits num_maximal b2_no_brace.
  pose proof match_number as Hnumber. clear first_key last_price.
  unfold colon. cbn [app match_terms match_atom].
  apply star_greedy.
  - apply (forallb_test white is_space); [apply test_white | exact space3].
  - reflexivity.
  - change (test true (MChar ":") ":") with true. cbv iota.
    apply star_greedy.
    + apply (forallb_test white is_space); [apply test_white | exact space4].
    + unfold head_fails. destruct num as [|c num']; [congruence|].
      cbn [app]. rewrite test_white. apply digit_not_space.
      pose proof num_digits as Hd. cbn [forallb] in Hd.
      now apply andb_true_iff in Hd as [Hc _].
    + apply Hnumber.
Qed.

Lemma match_priceField (caps : list (list ascii)) :
  match_terms true priceSuffix
    (priceField ws3 ws4 num b2 ++ "}"%char :: post)%list caps
    (fun _ caps' => Some caps')
  = Some (caps ++ [num])%list.
Proof using space3 space4 num_nonempty num_digits num_maximal b2_no_brace.
  unfold priceSuffix, priceField. rewrite match_literal.
  rewrite <- app_assoc, prefix_ci_self, skipn_app_exact.
  reassoc. apply match_colon_number.
Qed.

Lemma priceField_no_brace :
  forallb not_brace (priceField ws3 ws4 num b2) = true.
Proof using space3 space4 num_digits b2_no_brace.
  unfold priceField. rewrite !forallb_app. cbn [forallb].
  rewrite !forallb_app.
  rewrite (forallb_impl _ _ _ space_not_brace space3).
  rewrite (forallb_impl _ _ _ space_not_brace space4).
  rewrite (forallb_impl _ _ _ digit_not_brace num_digits).
  rewrite b2_no_brace. reflexivity.
Qed.

(** The class that runs to the closing brace gives back everything
    from the last quoted word price on. *)
Lemma match_braces (caps : list (list ascii)) :
  match_terms true (TAtom notBrace QStar :: priceSuffix)
    (b1 ++ priceField ws3 ws4 num b2 ++ "}"%char :: post)%list caps
    (fun _ caps' => Some caps')
  = Some (caps ++ [num])%list.
Proof using b1_no_brace last_price space3 space4 num_nonempty num_digits num_maximal b2_no_brace.
  cbn [match_terms match_atom].
  apply star_backtrack.
  - apply (forallb_test notBrace not_brace);
      [apply test_notBrace | exact b1_no_brace].
  - apply (forallb_test notBrace not_brace);
      [apply test_notBrace | exact priceField_no_brace].
  - reflexivity.
  - apply match_priceField.
  - intros v u Heq Hv. unfold priceSuffix. rewrite match_literal.
    replace (prefix_ci (quoted "price") (u ++ "}"%char :: post)%list)
      with false; [reflexivity|].
    symmetry. destruct v as [|d v]; [congruence|].
    destruct u as [|e u]; [reflexivity|].
    apply (occurs_within_false _ _ _ last_price v (e :: u)); [|discriminate].
    rewrite Heq. reflexivity.
Qed.

Lemma match_object (caps : list (list ascii)) :
  match_terms true (openBrace ++ priceSuffix)%list
    (ws1 ++ ":"%char :: ws2 ++ "{"%char :: b1
       ++ priceField ws3 ws4 num b2 ++ "}"%char :: post)%list caps
    (fun _ caps' => Some caps')
  = Some (caps ++ [num])%list.
Proof using space1 space2 b1_no_brace last_price space3 space4 num_nonempty num_digits num_maximal b2_no_brace.
  unfold openBrace. cbn [app match_terms]. cbn [match_atom].
  apply star_greedy.
  - apply (forallb_test white is_space); [apply test_white | exact space1].
  - reflexivity.
  - change (test true (MChar ":") ":") with true. cbv iota.
    apply star_greedy.
    + apply (forallb_test white is_space); [apply test_white | exact space2].
    + reflexivity.
    + change (test true (MChar "{") "{") with true. cbv iota.
      apply match_braces.
Qed.



End Fragment.

(** *** The fallback, symbol by symbol *)

(** With both patterns parsed, the callback depends on the search for the
    price alone. *)
Lemma extractSymbol_eq (cleanText : string) (data : gmap string Entry) (sym : string) :
  extractSymbol cleanText data sym =
  match String_match cleanText (mkRegExp (priceTerms sym) true) with
  | Some m =>
      <[sym := mkEntry (parseFloat (group1 m))
                 match String_match cleanText (mkRegExp (nameTerms sym) true) with
                 | Some nm => group1 nm
                 | None => sym
                 end]> data
  | None => data
  end.
Proof.
  unfold extractSymbol. now rewrite RegExp_new_price, RegExp_new_name.
Qed.

Lemma extractSymbol_other (cleanText : string) (data : gmap string Entry)
    (sym other : string) :
  other <> sym ->
  extractSymbol cleanText data other !! sym = data !! sym.
Proof.
  intros Hne. rewrite extractSymbol_eq.
  destruct (String_match cleanText _); [|reflexivity].
  now apply lookup_insert_ne.
Qed.

Lemma extractSymbol_same (cleanText : string) (data : gmap string Entry)
    (sym : string) :
  extractSymbol cleanText data sym !! sym =
  match extractSymbol cleanText ∅ sym !! sym with
  | Some e => Some e
  | None => data !! sym
  end.
Proof.
  rewrite !extractSymbol_eq.
  destruct (String_match cleanText _).
  - now rewrite !lookup_insert_eq.
  - now rewrite lookup_empty.
Qed.

Lemma fold_extractSymbol_lookup (cleanText : string) (symbols : list string)
    (sym : string) :
  forall data : gmap string Entry,
    fold_left (extractSymbol cleanText) symbols data !! sym =
    if includes symbols sym then
      match extractSymbol cleanText ∅ sym !! sym with
      | Some e => Some e
      | None => data !! sym
      end
    else data !! sym.
Proof.
  induction symbols as [|x symbols IH]; intros data; [reflexivity|].
  cbn [fold_left]. rewrite IH. unfold includes. cbn [existsb].
  fold (includes symbols sym).
  destruct (String.eqb_spec sym x) as [<-|Hne]; cbn [orb].
  - rewrite (extractSymbol_same cleanText data sym).
    destruct (includes symbols sym);
      destruct (extractSymbol cleanText ∅ sym !! sym); reflexivity.
  - rewrite (extractSymbol_other cleanText data sym x)
      by (intros Heq; apply Hne; now symmetry).
    reflexivity.
Qed.

(** What the fallback holds for a symbol is what the callback extracts
    for that symbol alone, whatever the other symbols are and whether or
    not their extraction succeeds; a symbol that was not requested gets
    nothing. *)
Lemma fallback_lookup (symbols : list string) (cleanText sym : string) :
  fallback symbols cleanText !! sym =
  if includes symbols sym then extractSymbol cleanText ∅ sym !! sym else None.
Proof.
  unfold fallback. rewrite fold_extractSymbol_lookup, lookup_empty.
  destruct (includes symbols sym); [|reflexivity].
  now destruct (extractSymbol cleanText ∅ sym !! sym).
Qed.

(** When the strict parse throws, the results are read from the object
    of the fallback, and every symbol gets one. *)
Lemma fetchStockPrices_fallback symbols response sym :
  In sym symbols ->
  generateContent (requestFor symbols) = Resolved response ->
  JSON_parse_data (cleanup (responseText response)) = None ->
  snd (fetchStockPrices symbols) =
  Return (map (fun sym =>
                 resultOf
                   match fallback symbols (cleanup (responseText response)) !! sym with
                   | Some e => Some (OfEntry e)
                   | None => Object_prototype sym
                   end (attribution response) sym)
              symbols).
Proof.
  intros Hin Hres Hparse. apply fetchStockPrices_object.
  - intros ->. destruct Hin.
  - exact Hres.
  - unfold parsedOrFallback. now rewrite Hparse.
Qed.


(** *** A refresh as a whole *)

Lemma uniq_nonempty (l : list string) : l <> [] -> uniq l <> [].
Proof. destruct l as [|x l]; [congruence|]. intros _. discriminate. Qed.

Lemma requestedSymbols_nonempty (targets : list StockTracker.t) :
  targets <> [] -> requestedSymbols targets <> [].
Proof.
  intros H. apply uniq_nonempty. destruct targets; [congruence | discriminate].
Qed.

Lemma fetchStockPrices_request (symbols : list string) :
  symbols <> [] -> fst (fetchStockPrices symbols) = [requestFor symbols].
Proof.
  intros H. unfold fetchStockPrices.
  destruct symbols as [|x l]; [congruence|]. cbn [length Nat.eqb].
  destruct (generateContent _); reflexivity.
Qed.

(** With a key and targets, a refresh is the round trip for the distinct
    symbols of the targets followed by the merge. *)
Lemma refreshPrices_with_key subset st n :
  apiKey st <> "" -> targetsOf subset st <> [] ->
  refreshPrices subset st n =
  (mkApp (fst (settleStocks (requestedSymbols (targetsOf subset st))
                 (snd (fetchStockPrices (requestedSymbols (targetsOf subset st))))
                 (stocks st) n))
         false
         match snd (fetchStockPrices (requestedSymbols (targetsOf subset st))) with
         | Return _ => None
         | Throw _ => Some errorUpdate
         end
         (isSettingsOpen st) (apiKey st),
   [requestFor (requestedSymbols (targetsOf subset st))],
   snd (settleStocks (requestedSymbols (targetsOf subset st))
          (snd (fetchStockPrices (requestedSymbols (targetsOf subset st))))
          (stocks st) n)).
Proof.
  intros Hkey Htargets. unfold refreshPrices.
  destruct (apiKey st) as [|c key] eqn:Hk; [congruence|].
  cbn [truthy_string negb]. fold (targetsOf subset st).
  pose proof (fetchStockPrices_request _ (requestedSymbols_nonempty _ Htargets))
    as Hreq.
  destruct (targetsOf subset st) as [|t targets]; [congruence|].
  cbn [length Nat.eqb]. unfold call_with_surplus.
  destruct (fetchStockPrices (requestedSymbols (t :: targets)))
    as [requests outcome].
  cbn [fst snd] in *. subst requests.
  unfold settle, bind, ret.
  cbn [stocks set_error set_isLoading].
  destruct (settleStocks _ outcome (stocks st) n) as [l n'].
  destruct outcome; unfold set_isLoading, set_stocks, set_error;
    cbn [stocks isLoading error isSettingsOpen apiKey]; rewrite ?Hk; reflexivity.
Qed.

Lemma refreshPrices_without_key subset st n :
  apiKey st = "" ->
  refreshPrices subset st n
  = (set_isSettingsOpen true (set_error (Some missingKey) st), [], n).
Proof. intros Hk. unfold refreshPrices. now rewrite Hk. Qed.

Lemma refreshPrices_without_targets subset st n :
  apiKey st <> "" -> targetsOf subset st = [] ->
  refreshPrices subset st n = (st, [], n).
Proof.
  intros Hkey Ht. unfold refreshPrices.
  destruct (apiKey st) as [|c key]; [congruence|].
  cbn [truthy_string negb]. fold (targetsOf subset st). now rewrite Ht.
Qed.

(** X1.  A refresh sends one request or none.  Without a key it sends
    none, shows the notice of the missing key and opens the settings;
    with a key and no target it does nothing at all; with a key and
    targets it sends exactly one request, for the distinct symbols of the
    targets, however many trackers there are. *)
Theorem refresh_sends_one_request_or_none :
  forall (subset : option (list StockTracker.t)) (st : AppState) (n : nat),
    let targets := targetsOf subset st in
    let r := refreshPrices subset st n in
    (apiKey st = "" ->
     r = (set_isSettingsOpen true (set_error (Some missingKey) st), [], n)) /\
    (apiKey st <> "" -> targets = [] -> r = (st, [], n)) /\
    (apiKey st <> "" -> targets <> [] ->
     snd (fst r) = [requestFor (requestedSymbols targets)] /\
     requestedSymbols targets <> []).
Proof.
  intros subset st n targets r. subst targets r. split; [|split].
  - apply refreshPrices_without_key.
  - apply refreshPrices_without_targets.
  - intros Hkey Ht. rewrite refreshPrices_with_key by assumption.
    split; [reflexivity | now apply requestedSymbols_nonempty].
Qed.

(** X2.  A refresh that reaches the network always ends with the loading
    flag cleared.  The banner then shows the update error exactly when
    the ingestion threw: when the round trip was rejected, and when it
    resolved with a text that, cleaned, parses to [null]; it is cleared
    when the round trip resolved with any other text.  The settings
    panel and the key are left alone. *)
Theorem refresh_settles_the_flags :
  forall (subset : option (list StockTracker.t)) (st : AppState) (n : nat),
    apiKey st <> "" -> targetsOf subset st <> [] ->
    let request := requestFor (requestedSymbols (targetsOf subset st)) in
    let st' := fst (fst (refreshPrices subset st n)) in
    isLoading st' = false /\
    (forall e, generateContent request = Rejected e ->
               error st' = Some errorUpdate) /\
    (forall response,
        generateContent request = Resolved response ->
        JSON_parse_data (cleanup (responseText response)) = Some DNull ->
        error st' = Some errorUpdate) /\
    (forall response,
        generateContent request = Resolved response ->
        JSON_parse_data (cleanup (responseText response)) <> Some DNull ->
        error st' = None) /\
    isSettingsOpen st' = isSettingsOpen st /\
    apiKey st' = apiKey st.
Proof.
  intros subset st n Hkey Ht request st'. subst request st'.
  rewrite refreshPrices_with_key by assumption. cbn [fst isLoading error
    isSettingsOpen apiKey].
  pose proof (requestedSymbols_nonempty _ Ht) as Hsym.
  split; [reflexivity|].
  split; [|split; [|split; [|split; reflexivity]]].
  - intros e He. unfold fetchStockPrices.
    destruct (requestedSymbols (targetsOf subset st)) as [|x l] eqn:Hs;
      [congruence|].
    cbn [length Nat.eqb]. rewrite He. reflexivity.
  - intros response He Hparse.
    now rewrite (fetchStockPrices_null _ _ Hsym He Hparse).
  - intros response He Hparse.
    destruct (fetchStockPrices_returns _ _ He Hparse) as (results & ->).
    reflexivity.
Qed.

Lemma mapM_In {A B : Type} (f : A -> Clocked B) (l : list A) (n : nat) (y : B) :
  In y (fst (mapM f l n)) -> exists x k, In x l /\ y = fst (f x k).
Proof.
  revert n. induction l as [|x l IH]; intros n; [intros []|].
  rewrite mapM_cons. cbn [fst]. intros [<-|Hin].
  - exists x, n. split; [now left | reflexivity].
  - destruct (IH _ Hin) as (x' & k & Hx & Hy).
    exists x', k. split; [now right | exact Hy].
Qed.

(** What the merge makes of one tracker, whatever the outcome of the round
    trip: the tracker itself when its symbol was not requested, and
    otherwise a tracker stamped with a reading of the clock; who it is
    and what it aims at stay. *)
Lemma settled_element (symbols : list string)
    (outcome : Completion string (list PriceUpdateResult.t))
    (s : StockTracker.t) (k : nat) :
  let s' := fst match outcome with
                | Return results => mergeOne symbols results s k
                | Throw _ => failOne symbols s k
                end in
  (StockTracker.id s' = StockTracker.id s /\
   StockTracker.symbol s' = StockTracker.symbol s /\
   StockTracker.startPrice s' = StockTracker.startPrice s /\
   StockTracker.targetPrice s' = StockTracker.targetPrice s /\
   StockTracker.isCompleted s' = StockTracker.isCompleted s) /\
  ((~ In (StockTracker.symbol s) symbols /\ s' = s) \/
   (In (StockTracker.symbol s) symbols /\
    StockTracker.lastUpdated s' = Some (Date_now_at k))).
Proof.
  cbv zeta. destruct outcome as [results|e]; unfold mergeOne, failOne.
  - destruct (includes symbols (StockTracker.symbol s)) eqn:Hin; cbn [negb].
    + apply includes_In in Hin.
      destruct (findUpdate results s) as [update|];
        [destruct (PrimFloat.ltb _ _)|]; cbn;
        (split; [repeat split | right; split; [exact Hin | reflexivity]]).
    + apply includes_false in Hin. cbn.
      split; [repeat split | left; split; [exact Hin | reflexivity]].
  - destruct (includes symbols (StockTracker.symbol s)) eqn:Hin.
    + apply includes_In in Hin. cbn.
      split; [repeat split | right; split; [exact Hin | reflexivity]].
    + apply includes_false in Hin. cbn.
      split; [repeat split | left; split; [exact Hin | reflexivity]].
Qed.

Lemma settleStocks_lookup symbols outcome l n i s :
  l !! i = Some s ->
  exists k, (n <= k)%nat /\
    fst (settleStocks symbols outcome l n) !! i =
    Some (fst match outcome with
              | Return results => mergeOne symbols results s k
              | Throw _ => failOne symbols s k
              end).
Proof.
  intros Hi. destruct outcome as [results|e]; cbn [settleStocks].
  - apply (mapM_lookup _ (mergeOne_mono _ _) l n i s Hi).
  - apply (mapM_lookup _ (failOne_mono _) l n i s Hi).
Qed.

Lemma settleStocks_In symbols outcome l n s' :
  In s' (fst (settleStocks symbols outcome l n)) ->
  exists s k, In s l /\
    s' = fst match outcome with
             | Return results => mergeOne symbols results s k
             | Throw _ => failOne symbols s k
             end.
Proof.
  destruct outcome as [results|e]; cbn [settleStocks]; apply mapM_In.
Qed.

Lemma settleStocks_length symbols outcome l n :
  length (fst (settleStocks symbols outcome l n)) = length l.
Proof. destruct outcome; apply mapM_length. Qed.

(** The list of a state after a refresh: the list as it was, or the
    merge of a round trip. *)
Lemma refreshPrices_stocks subset st n :
  stocks (fst (fst (refreshPrices subset st n))) = stocks st \/
  exists symbols outcome,
    stocks (fst (fst (refreshPrices subset st n)))
    = fst (settleStocks symbols outcome (stocks st) n).
Proof.
  destruct (apiKey st) as [|c key] eqn:Hk.
  - left. now rewrite refreshPrices_without_key.
  - assert (Hkey : apiKey st <> "") by (rewrite Hk; discriminate).
    destruct (targetsOf subset st) as [|t targets] eqn:Ht.
    + left. now rewrite refreshPrices_without_targets.
    + right. rewrite refreshPrices_with_key by (rewrite ?Ht; congruence).
      eexists. eexists. reflexivity.
Qed.

(** X3.  A refresh neither adds nor removes a tracker, and the tracker at
    each position keeps its id, symbol, start price, target price and
    completion flag, whatever the round trip returns. *)
Theorem refresh_keeps_the_trackers :
  forall (subset : option (list StockTracker.t)) (st : AppState) (n : nat),
    let st' := fst (fst (refreshPrices subset st n)) in
    length (stocks st') = length (stocks st) /\
    forall (i : nat) (s : StockTracker.t),
      stocks st !! i = Some s ->
      exists s', stocks st' !! i = Some s' /\
        StockTracker.id s' = StockTracker.id s /\
        StockTracker.symbol s' = StockTracker.symbol s /\
        StockTracker.startPrice s' = StockTracker.startPrice s /\
        StockTracker.targetPrice s' = StockTracker.targetPrice s /\
        StockTracker.isCompleted s' = StockTracker.isCompleted s.
Proof.
  intros subset st n st'. subst st'.
  destruct (refreshPrices_stocks subset st n) as [->|(symbols & outcome & ->)].
  - split; [reflexivity|]. intros i s Hi. exists s. now repeat split.
  - split; [apply settleStocks_length|]. intros i s Hi.
    destruct (settleStocks_lookup symbols outcome _ n i s Hi) as (k & _ & ->).
    eexists. split; [reflexivity|].
    apply (settled_element symbols outcome s k).
Qed.

(** *** The automatic refresh does not loop *)

Lemma someM_isStale_true (l : list StockTracker.t) (n : nat) :
  fst (someM isStale l n) = true ->
  exists s k, In s l /\ fst (isStale s k) = true.
Proof.
  revert n. induction l as [|x l IH]; intros n; cbn [someM]; [discriminate|].
  unfold bind, ret. destruct (isStale x n) as [b n1] eqn:Hx.
  destruct b.
  - intros _. exists x, n. split; [now left | now rewrite Hx].
  - intros H. destruct (IH n1 H) as (s & k & Hin & Hs).
    exists s, k. split; [now right | exact Hs].
Qed.

(** When no tracker of the list qualifies, the effect does not call the
    refresh. *)
Lemma autoRefreshTargets_none (now : Z) (st : AppState) (n : nat) :
  (forall k, Date_now_at k = now) ->
  (forall s, In s (stocks st) -> ~ spec_qualifies now s) ->
  fst (autoRefreshTargets st n) = None.
Proof.
  intros Hclock Hnone. unfold autoRefreshTargets.
  destruct (negb (truthy_string (apiKey st))); [reflexivity|].
  unfold bind, ret.
  destruct (someM isStale (List.filter active (stocks st)) n)
    as [needsUpdate n1] eqn:Hsome.
  destruct needsUpdate; [|reflexivity]. exfalso.
  destruct (someM_isStale_true (List.filter active (stocks st)) n)
    as (s & k & Hin & Hs); [now rewrite Hsome|].
  apply filter_In in Hin as [Hin Hact].
  apply (Hnone s Hin). rewrite <- (Hclock k). apply qualifies_spec.
  now rewrite Hact, Hs.
Qed.

(** X4.  While the clock stands still, one pass of the automatic refresh
    is enough: right after it, whether the round trip succeeded, failed
    or resolved nothing, no tracker qualifies any more and the effect
    would not call the refresh again.  This is what stamping the failed
    trackers is for. *)
Theorem automatic_refresh_settles_in_one_pass :
  forall (now : Z) (st : AppState) (n : nat),
    (forall k, Date_now_at k = now) ->
    let r := autoRefresh st n in
    fst (autoRefreshTargets (fst (fst r)) (snd r)) = None.
Proof.
  intros now st n Hclock r. subst r.
  destruct (apiKey st) as [|c key] eqn:Hk.
  { unfold autoRefresh, autoRefreshTargets, bind, ret. rewrite Hk. cbn.
    now rewrite Hk. }
  assert (Hkey : apiKey st <> "") by (rewrite Hk; discriminate).
  pose proof (autoRefreshTargets_In now Hclock st n) as Hq.
  unfold autoRefresh, bind.
  destruct (autoRefreshTargets st n) as [[toUpdate|] n1]; cbn [fst] in Hq.
  - destruct toUpdate as [|t toUpdate].
    + rewrite refreshPrices_without_targets by (assumption || reflexivity).
      apply (autoRefreshTargets_none now); [exact Hclock|].
      intros s Hin Hs. now apply (Hq s Hkey).
    + rewrite refreshPrices_with_key by (assumption || discriminate).
      cbn [fst snd targetsOf].
      apply (autoRefreshTargets_none now); [exact Hclock|].
      cbn [stocks]. intros s' Hin' Hs'.
      apply settleStocks_In in Hin' as (s & k & Hin & ->).
      destruct (settled_element (requestedSymbols (t :: toUpdate))
                  (snd (fetchStockPrices (requestedSymbols (t :: toUpdate)))) s k)
        as [(_ & _ & _ & _ & Hdone) [[Hout Hsame]|[_ Hstamp]]].
      * cbv zeta in Hsame. rewrite Hsame in Hs'.
        apply Hout. apply requestedSymbols_In. exists s.
        split; [|reflexivity]. apply (Hq s Hkey). now split.
      * cbv zeta in Hstamp. destruct Hs' as [_ [Hnone|(t0 & Ht0 & Hlt)]].
        -- rewrite Hstamp in Hnone. discriminate.
        -- rewrite Hstamp, Hclock in Ht0. injection Ht0 as <-. lia.
  - unfold ret. cbn [fst snd].
    apply (autoRefreshTargets_none now); [exact Hclock|].
    intros s Hin Hs. now apply (Hq s Hkey).
Qed.

(** *** The handlers of the list *)

(** X5.  Adding a tracker puts it at the head of the list and keeps the
    others in place.  Without a key nothing is sent and the notice of
    the missing key is shown; with a key exactly one request is sent, for
    the symbol of the new tracker alone, and when it settles the new
    tracker is stamped and the trackers with another symbol are as they
    were. *)
Theorem add_puts_the_tracker_first_and_fetches_it :
  forall (newStock : StockTracker.t) (st : AppState) (n : nat),
    let r := handleAddStock newStock st n in
    let l' := stocks (fst (fst r)) in
    length l' = S (length (stocks st)) /\
    (exists s', l' !! 0%nat = Some s' /\
                StockTracker.id s' = StockTracker.id newStock /\
                StockTracker.symbol s' = StockTracker.symbol newStock) /\
    (forall (i : nat) (s : StockTracker.t),
        stocks st !! i = Some s ->
        StockTracker.symbol s <> StockTracker.symbol newStock ->
        l' !! S i = Some s) /\
    (apiKey st = "" ->
     l' = newStock :: stocks st /\ snd (fst r) = [] /\
     error (fst (fst r)) = Some missingKey) /\
    (apiKey st <> "" ->
     snd (fst r) = [requestFor [StockTracker.symbol newStock]] /\
     exists s' k, l' !! 0%nat = Some s' /\
                  StockTracker.lastUpdated s' = Some (Date_now_at k)).
Proof.
  intros newStock st n r l'. subst r l'. unfold handleAddStock.
  destruct (apiKey st) as [|c key] eqn:Hk.
  - rewrite refreshPrices_without_key by exact Hk. cbn.
    split; [reflexivity|]. split; [exists newStock; now repeat split|].
    split; [intros i s Hi _; exact Hi|]. split; [now repeat split|].
    intros H. now contradiction H.
  - rewrite refreshPrices_with_key by (cbn; rewrite ?Hk; discriminate).
    cbn [fst snd stocks set_stocks targetsOf].
    change (requestedSymbols [newStock]) with [StockTracker.symbol newStock].
    set (symbols := [StockTracker.symbol newStock]).
    set (outcome := snd (fetchStockPrices symbols)).
    split; [now rewrite settleStocks_length|].
    destruct (settleStocks_lookup symbols outcome (newStock :: stocks st) n
                0%nat newStock eq_refl) as (k & _ & Hhead).
    destruct (settled_element symbols outcome newStock k)
      as [(Hid & Hsym & _) [[Hout _]|[_ Hstamp]]];
      [exfalso; apply Hout; now left|].
    split; [eexists; split; [exact Hhead | split; [exact Hid | exact Hsym]]|].
    split; [|split; [discriminate|]].
    + intros i s Hi Hne.
      destruct (settleStocks_lookup symbols outcome (newStock :: stocks st) n
                  (S i) s Hi) as (k' & _ & ->).
      destruct (settled_element symbols outcome s k')
        as [_ [[_ Hsame]|[[Heq|[]] _]]]; [|congruence].
      cbv zeta in Hsame. now rewrite Hsame.
    + intros _. split; [reflexivity|].
      eexists. exists k. split; [exact Hhead | exact Hstamp].
Qed.

Lemma deleteStock_In (id : string) (l : list StockTracker.t) (s : StockTracker.t) :
  In s (deleteStock id l) <-> In s l /\ StockTracker.id s <> id.
Proof.
  unfold deleteStock. rewrite filter_In, negb_true_iff.
  split; intros [Hin Hne]; (split; [exact Hin|]).
  - intros Heq. rewrite Heq, String.eqb_refl in Hne. discriminate.
  - now apply String.eqb_neq.
Qed.

Lemma deleteStock_absent (id : string) (l : list StockTracker.t) :
  (forall s, In s l -> StockTracker.id s <> id) -> deleteStock id l = l.
Proof.
  unfold deleteStock. induction l as [|x l IH]; intros H; [reflexivity|].
  cbn [List.filter].
  rewrite (proj2 (String.eqb_neq _ _) (H x (or_introl eq_refl))). cbn [negb].
  f_equal. apply IH. intros s Hs. apply H. now right.
Qed.

Lemma deleteStock_sublist (id : string) (l : list StockTracker.t) :
  sublist (deleteStock id l) l.
Proof.
  unfold deleteStock. induction l as [|x l IH]; cbn [List.filter]; [constructor|].
  destruct (negb _); now constructor.
Qed.

(** X6.  Deleting by id removes every tracker with that id and nothing
    else: the remaining trackers are those with another id, in the order
    they had; deleting an id the list does not hold changes nothing, so
    deleting twice is deleting once; two deletions commute; and the
    flags, the banner and the key are not touched. *)
Theorem delete_removes_the_id_and_nothing_else :
  forall (id : string) (st : AppState),
    let st' := handleDeleteStock id st in
    (forall s, In s (stocks st') <-> In s (stocks st) /\ StockTracker.id s <> id) /\
    sublist (stocks st') (stocks st) /\
    ((forall s, In s (stocks st) -> StockTracker.id s <> id) -> st' = st) /\
    handleDeleteStock id st' = st' /\
    (forall id', handleDeleteStock id' st'
                 = handleDeleteStock id (handleDeleteStock id' st)) /\
    (isLoading st', error st', isSettingsOpen st', apiKey st')
    = (isLoading st, error st, isSettingsOpen st, apiKey st).
Proof.
  intros id st st'. subst st'. destruct st as [l ld e so key].
  unfold handleDeleteStock, set_stocks. cbn [stocks isLoading error
    isSettingsOpen apiKey].
  split; [intros s; apply deleteStock_In|].
  split; [apply deleteStock_sublist|].
  split; [intros H; now rewrite deleteStock_absent|].
  split; [|split; [|reflexivity]].
  - rewrite deleteStock_absent; [reflexivity|].
    intros s Hs. now apply deleteStock_In in Hs.
  - intros id'. f_equal. unfold deleteStock.
    induction l as [|x l IH]; [reflexivity|]. cbn [List.filter].
    destruct (String.eqb (StockTracker.id x) id) eqn:H1;
      destruct (String.eqb (StockTracker.id x) id') eqn:H2;
      cbn [negb List.filter]; rewrite ?H1, ?H2; cbn [negb];
      now rewrite IH.
Qed.

Lemma active_toggled (s : StockTracker.t) : active (toggled s) = negb (active s).
Proof.
  unfold active, toggled. cbn.
  now destruct (truthy_opt truthy_bool (StockTracker.isCompleted s)).
Qed.

Lemma toggled_toggled (s : StockTracker.t) :
  StockTracker.isCompleted s <> None -> toggled (toggled s) = s.
Proof.
  destruct s as [i sy cn sp tp cp lu su stl [[|]|] em]; unfold toggled; cbn;
    intros H; [reflexivity | reflexivity | congruence].
Qed.

Lemma toggleComplete_lookup (id : string) (l : list StockTracker.t) (i : nat) :
  toggleComplete id l !! i =
  match l !! i with
  | Some s => Some (if String.eqb (StockTracker.id s) id then toggled s else s)
  | None => None
  end.
Proof.
  unfold toggleComplete. rewrite list_lookup_fmap.
  now destruct (l !! i).
Qed.

(** X7.  The toggle flips whether a tracker counts as active, for every
    tracker with the id, and changes nothing else: the other trackers
    stay, and so do the other fields of the toggled ones.  Toggling twice
    brings every tracker back to the section it was in, and the list back
    to what it was when the flag of the toggled trackers was a boolean; a
    flag that was absent comes back as false. *)
Theorem toggle_flips_completion_only :
  forall (id : string) (l : list StockTracker.t),
    length (toggleComplete id l) = length l /\
    (forall (i : nat) (s : StockTracker.t),
        l !! i = Some s ->
        exists s', toggleComplete id l !! i = Some s' /\
          (StockTracker.id s <> id -> s' = s) /\
          (StockTracker.id s = id ->
           active s' = negb (active s) /\
           StockTracker.isCompleted s' = Some (negb (active s')) /\
           StockTracker.id s' = StockTracker.id s /\
           StockTracker.symbol s' = StockTracker.symbol s /\
           StockTracker.companyName s' = StockTracker.companyName s /\
           StockTracker.startPrice s' = StockTracker.startPrice s /\
           StockTracker.targetPrice s' = StockTracker.targetPrice s /\
           StockTracker.currentPrice s' = StockTracker.currentPrice s /\
           StockTracker.lastUpdated s' = StockTracker.lastUpdated s /\
           StockTracker.sourceUrl s' = StockTracker.sourceUrl s /\
           StockTracker.sourceTitle s' = StockTracker.sourceTitle s /\
           StockTracker.errorMessage s' = StockTracker.errorMessage s)) /\
    map active (toggleComplete id (toggleComplete id l)) = map active l /\
    ((forall s, In s l -> StockTracker.id s = id ->
                StockTracker.isCompleted s <> None) ->
     toggleComplete id (toggleComplete id l) = l) /\
    (forall s, In s l -> StockTracker.id s = id ->
               StockTracker.isCompleted s = None ->
               In (toggled (toggled s)) (toggleComplete id (toggleComplete id l)) /\
               StockTracker.isCompleted (toggled (toggled s)) = Some false).
Proof.
  intros id l. split; [apply length_map|]. split; [|split; [|split]].
  - intros i s Hi. rewrite toggleComplete_lookup, Hi.
    eexists. split; [reflexivity|].
    destruct (String.eqb_spec (StockTracker.id s) id) as [Heq|Hne].
    + split; [congruence|]. intros _.
      rewrite active_toggled. unfold toggled, active. cbn.
      rewrite negb_involutive. now repeat split.
    + split; [reflexivity | congruence].
  - unfold toggleComplete. rewrite !map_map. apply map_ext. intros s.
    destruct (String.eqb (StockTracker.id s) id) eqn:Heq.
    + change (StockTracker.id (toggled s)) with (StockTracker.id s).
      rewrite Heq, !active_toggled. apply negb_involutive.
    + now rewrite Heq.
  - intros Hflag. unfold toggleComplete. rewrite map_map.
    rewrite <- (map_id l) at 2. apply map_ext_in. intros s Hs.
    destruct (String.eqb (StockTracker.id s) id) eqn:Heq.
    + change (StockTracker.id (toggled s)) with (StockTracker.id s).
      rewrite Heq. apply toggled_toggled. apply Hflag; [exact Hs|].
      now apply String.eqb_eq.
    + now rewrite Heq.
  - intros s Hs Hid Hnone. split.
    + unfold toggleComplete. rewrite map_map. apply in_map_iff.
      exists s. split; [|exact Hs].
      apply String.eqb_eq in Hid. rewrite Hid.
      change (StockTracker.id (toggled s)) with (StockTracker.id s).
      now rewrite Hid.
    + unfold toggled. cbn. now rewrite Hnone.
Qed.

(** *** The two sections of the page *)

Lemma filter_split_Permutation {A : Type} (f : A -> bool) (l : list A) :
  Permutation (List.filter f l ++ List.filter (fun x => negb (f x)) l)%list l.
Proof.
  induction l as [|x l IH]; cbn [List.filter]; [reflexivity|].
  destruct (f x); cbn [negb app].
  - now constructor.
  - rewrite <- Permutation_middle. now constructor.
Qed.

(** X8.  The page shows every tracker exactly once: the active section
    and the history together are a rearrangement of the list, in every
    sort mode; the active section holds the trackers that are not
    completed and the history the completed ones; and in the mode of
    insertion order both sections keep the order of the list. *)
Theorem sections_show_every_tracker_once :
  forall (sortBy : SortOption) (st : AppState),
    Permutation (activeStocks sortBy st ++ completedStocks sortBy st)%list (stocks st) /\
    (forall s, In s (activeStocks sortBy st) <-> In s (stocks st) /\ active s = true) /\
    (forall s, In s (completedStocks sortBy st)
               <-> In s (stocks st) /\ StockTracker.isCompleted s = Some true) /\
    activeStocks ADDED_DESC st = List.filter active (stocks st) /\
    completedStocks ADDED_DESC st
    = List.filter (fun s => negb (active s)) (stocks st).
Proof.
  intros sortBy st. unfold activeStocks, completedStocks.
  fold active. split; [|split; [|split; [|split]]].
  - rewrite !getSortedStocks_Permutation.
    rewrite <- (filter_split_Permutation active (stocks st)) at 3.
    apply Permutation_app_head. apply Permutation_refl'. apply filter_ext.
    intros s. unfold active. now rewrite negb_involutive.
  - intros s. unfold getSortedStocks. rewrite Array_sort_In. apply filter_In.
  - intros s. unfold getSortedStocks. rewrite Array_sort_In, filter_In.
    unfold truthy_opt, truthy_bool.
    destruct (StockTracker.isCompleted s) as [[|]|];
      (split; intros [H1 H2]; (split; [exact H1 | congruence])).
  - apply getSortedStocks_added.
  - rewrite getSortedStocks_added. apply filter_ext.
    intros s. unfold active. now rewrite negb_involutive.
Qed.

(** X9.  Sorted by ascending progress, the trackers without a price come
    first, in the order they had, when the progress of every tracker with
    a price compares above the sentinel: the sentinel that sinks them in
    the descending order lifts them here. *)
Theorem no_price_comes_first_when_ascending :
  forall (l : list StockTracker.t),
    (forall s, In s l -> hasPrice s = true -> above_sentinel s) ->
    getSortedStocks PROGRESS_ASC l =
    (List.filter (fun s => negb (hasPrice s)) l
       ++ getSortedStocks PROGRESS_ASC (List.filter hasPrice l))%list.
Proof.
  unfold getSortedStocks, Array_sort.
  induction l as [|x l IH]; intros H; [reflexivity|].
  cbn [fold_right List.filter]. rewrite IH by (intros s Hs; apply H; now right).
  destruct (hasPrice x) eqn:Hx; cbn [negb fold_right].
  - apply insert_by_pass. intros y Hy.
    apply filter_In in Hy as [_ Hy]. apply negb_true_iff in Hy.
    cbn [compareStocks]. rewrite (getProgress_hasPrice_false y Hy).
    apply (H x); [now left | exact Hx].
  - destruct (List.filter (fun s => negb (hasPrice s)) l) as [|u U] eqn:HU.
    + cbn [app].
      destruct (fold_right (insert_by (compareStocks PROGRESS_ASC)) []
                  (List.filter hasPrice l)) as [|p P] eqn:HP; [reflexivity|].
      cbn [insert_by compareStocks].
      rewrite (getProgress_hasPrice_false x Hx).
      assert (Hp : In p (Array_sort (compareStocks PROGRESS_ASC)
                           (List.filter hasPrice l)))
        by (unfold Array_sort; rewrite HP; now left).
      apply Array_sort_In in Hp. apply filter_In in Hp as [Hin Hpp].
      now rewrite (proj2 (H p (or_intror Hin) Hpp)).
    + cbn [app insert_by compareStocks].
      rewrite (getProgress_hasPrice_false u (head_without_price u U l HU)).
      rewrite (getProgress_hasPrice_false x Hx). reflexivity.
Qed.

(** *** What the list keeps true of its trackers *)

Lemma successfulUpdate_settled (stock : StockTracker.t)
    (update : PriceUpdateResult.t) (now : Z) :
  PrimFloat.ltb 0%float (PriceUpdateResult.price update) = true ->
  settled (successfulUpdate stock update now).
Proof.
  intros Hpos. unfold settled, price_is_positive, outcome_is_stamped,
    source_has_price, known_error. cbn.
  split; [intros p [= <-]; exact Hpos|].
  split; [discriminate|]. split; [discriminate | now left].
Qed.

Lemma failedUpdate_settled (stock : StockTracker.t) (message : string) (now : Z) :
  message = "Symbol not found or data unavailable" \/ message = "Update failed" ->
  settled stock -> settled (failedUpdate stock message now).
Proof.
  intros Hmsg (Hpos & _ & Hsrc & _). unfold settled, price_is_positive,
    outcome_is_stamped, source_has_price, known_error in *. cbn.
  split; [exact Hpos|]. split; [discriminate|]. split; [exact Hsrc|].
  destruct Hmsg as [->| ->]; [right; now left | right; now right].
Qed.

Lemma mergeOne_settled symbols results stock n :
  settled stock -> settled (fst (mergeOne symbols results stock n)).
Proof.
  intros Hs. unfold mergeOne, bind, ret, Date_now.
  destruct (negb _); cbn [fst]; [exact Hs|].
  destruct (findUpdate results stock) as [update|]; cbn [fst].
  - destruct (PrimFloat.ltb _ _) eqn:Hpos; cbn [fst].
    + now apply successfulUpdate_settled.
    + apply failedUpdate_settled; [now left | exact Hs].
  - apply failedUpdate_settled; [now left | exact Hs].
Qed.

Lemma failOne_settled symbols stock n :
  settled stock -> settled (fst (failOne symbols stock n)).
Proof.
  intros Hs. unfold failOne, bind, ret, Date_now.
  destruct (includes _ _); cbn [fst]; [|exact Hs].
  apply failedUpdate_settled; [now right | exact Hs].
Qed.

Lemma handleSubmit_settled uuid form newStock :
  handleSubmit uuid form = Some newStock -> settled newStock.
Proof.
  unfold handleSubmit. destruct (_ || _); [discriminate|].
  intros [= <-]. unfold settled, price_is_positive, outcome_is_stamped,
    source_has_price, known_error. cbn.
  split; [discriminate|].
  split; [intros [H|H]; now contradiction H|].
  split; [intros [H|H]; now contradiction H | now left].
Qed.

Lemma toggled_settled (s : StockTracker.t) : settled s -> settled (toggled s).
Proof. intros H. exact H. Qed.

Lemma step_settled (importable : list StockTracker.t -> Prop) l l' :
  (forall imported, importable imported -> Forall settled imported) ->
  step importable l l' -> Forall settled l -> Forall settled l'.
Proof.
  intros Himp Hstep Hinv. destruct Hstep as
    [uuid form newStock l Hsub|symbols outcome n l|id l|id l|? ? l l' _ _ Hok].
  - constructor; [|exact Hinv]. eapply handleSubmit_settled; eassumption.
  - destruct outcome as [results|e]; cbn [settleStocks].
    + apply (mapM_Forall settled settled); [|exact Hinv].
      intros x k. apply mergeOne_settled.
    + apply (mapM_Forall settled settled); [|exact Hinv].
      intros x k. apply failOne_settled.
  - unfold toggleComplete. apply List.Forall_forall. intros s' Hin.
    apply in_map_iff in Hin as (s & <- & Hs).
    rewrite List.Forall_forall in Hinv.
    destruct (String.eqb _ _); [apply toggled_settled|]; now apply Hinv.
  - unfold deleteStock. apply List.Forall_forall. intros s Hin.
    apply filter_In in Hin as [Hin _].
    rewrite List.Forall_forall in Hinv. now apply Hinv.
  - now apply Himp.
Qed.

(** X10.  In every list reached from the empty one by creation, merge,
    toggle and deletion (and by imports of lists of which the same holds),
    every tracker is settled: a stored price is a positive number, so
    never zero, negative or not a number; a tracker with a price or an
    error carries a time stamp; a source attribution comes with a price;
    and an error is one of the two messages of the merge. *)
Theorem reachable_trackers_are_settled :
  forall (importable : list StockTracker.t -> Prop) (l : list StockTracker.t),
    (forall imported, importable imported -> Forall settled imported) ->
    reachable importable l ->
    Forall settled l.
Proof.
  intros importable l Himp. revert l. unfold reachable.
  apply rtc_ind_r; [constructor|].
  intros l l' _ Hstep Hinv. eapply step_settled; eassumption.
Qed.

(** *** The escape of a symbol *)

Lemma backslash_special : isRegExpSpecial backslash = true.
Proof. reflexivity. Qed.

Lemma escapeRegExp_injective (s1 : string) :
  forall s2, escapeRegExp s1 = escapeRegExp s2 -> s1 = s2.
Proof.
  induction s1 as [|c1 s1 IH]; intros [|c2 s2]; cbn [escapeRegExp].
  - reflexivity.
  - destruct (isRegExpSpecial c2); discriminate.
  - destruct (isRegExpSpecial c1); discriminate.
  - destruct (isRegExpSpecial c1) eqn:H1; destruct (isRegExpSpecial c2) eqn:H2.
    + intros [= -> Heq]. f_equal. now apply IH.
    + intros [= <- _]. rewrite backslash_special in H2. discriminate.
    + intros [= -> _]. rewrite backslash_special in H1. discriminate.
    + intros [= -> Heq]. f_equal. now apply IH.
Qed.

Lemma escapeRegExp_plain (s : string) :
  escapeRegExp s = s <->
  forallb (fun c => negb (isRegExpSpecial c)) (list_ascii_of_string s) = true.
Proof.
  induction s as [|c s IH]; cbn [escapeRegExp list_ascii_of_string forallb].
  - split; reflexivity.
  - destruct (isRegExpSpecial c) eqn:Hc; cbn [negb andb].
    + split; [|discriminate]. intros Heq. exfalso.
      apply (f_equal String.length) in Heq. cbn [String.length] in Heq.
      pose proof (escape_length s). lia.
    + rewrite <- IH. split; [now intros [= ->] | now intros ->].
Qed.

Lemma escapeRegExp_at_most_doubles (s : string) :
  (String.length (escapeRegExp s) <= 2 * String.length s)%nat.
Proof.
  induction s as [|c s IH]; cbn [escapeRegExp String.length]; [lia|].
  destruct (isRegExpSpecial c); cbn [String.length]; lia.
Qed.

(** X11.  Escaping loses nothing and invents nothing: different symbols
    have different escapes; a symbol is left as it is exactly when it has
    none of the special characters; the escape is at most twice as long;
    and read as a pattern of its own, the escape of any symbol is the
    sequence of the characters of the symbol, each standing for
    itself. *)
Theorem escape_is_faithful :
  (forall s1 s2 : string, escapeRegExp s1 = escapeRegExp s2 -> s1 = s2) /\
  (forall s : string,
      escapeRegExp s = s <->
      forallb (fun c => negb (isRegExpSpecial c)) (list_ascii_of_string s) = true) /\
  (forall s : string,
      (String.length s <= String.length (escapeRegExp s) <= 2 * String.length s)%nat) /\
  (forall s : string,
      RegExp_new (escapeRegExp s) true
      = Parsed (mkRegExp (literal (list_ascii_of_string s)) true)).
Proof.
  split; [exact escapeRegExp_injective|]. split; [exact escapeRegExp_plain|].
  split; [intros s; split; [apply escape_length | apply escapeRegExp_at_most_doubles]|].
  intros s. unfold RegExp_new.
  assert (Hmain : parse_terms (String.length s + 1)
                    (list_ascii_of_string (escapeRegExp s))
                  = Parsed (literal (list_ascii_of_string s))).
  { rewrite <- (app_nil_r (list_ascii_of_string (escapeRegExp s))).
    rewrite parse_terms_escaped by reflexivity.
    cbn [parse_terms prepend andThen]. now rewrite app_nil_r. }
  rewrite (parse_terms_more_fuel _ _ _ _ Hmain); [reflexivity|].
  rewrite length_list_ascii. pose proof (escape_length s). lia.
Qed.

(** *** Cleaning the text of a response *)

Lemma remove_all_from_skip (p : list ascii) (k : nat) (s : list ascii) :
  remove_all_from p k s = remove_all_from p O (skipn k s).
Proof.
  revert k. induction s as [|c s IH]; intros [|k];
    cbn [remove_all_from skipn]; try reflexivity.
  apply IH.
Qed.

(** Text without the first character of the pattern is passed over. *)
Lemma remove_all_no_tick (p' body rest : list ascii) :
  no_tick body = true ->
  remove_all_from (tick :: p') O (body ++ rest)%list
  = (body ++ remove_all_from (tick :: p') O rest)%list.
Proof.
  unfold no_tick. induction body as [|c body IH]; cbn [forallb app]; [reflexivity|].
  intros H. apply andb_true_iff in H as [Hc Hb].
  apply negb_true_iff in Hc. rewrite Ascii.eqb_sym in Hc.
  cbn [remove_all_from starts_with]. rewrite Hc. cbn [andb].
  now rewrite IH.
Qed.

Lemma starts_two_ticks_removed (s : list ascii) :
  starts_with [tick; tick] s = false ->
  starts_with [tick; tick] (remove_all_from fence O s) = false.
Proof.
  destruct s as [|a [|b s2]]; [reflexivity| |].
  - intros _. cbn [remove_all_from fence starts_with].
    rewrite andb_false_r. apply andb_false_r.
  - cbn [starts_with]. rewrite andb_true_r. intros H.
    cbn [remove_all_from fence starts_with].
    destruct (Ascii.eqb tick a) eqn:Ha; cbn [andb] in *.
    + rewrite H. cbn [andb starts_with]. rewrite Ha, H. reflexivity.
    + cbn [starts_with]. now rewrite Ha.
Qed.

(** After the fences are removed no fence is left: what remains of a run
    of ticks is shorter than a fence. *)
Lemma no_fence_after_removal (n : nat) :
  forall s : list ascii, (length s <= n)%nat ->
    forall pre post, remove_all_from fence O s <> (pre ++ fence ++ post)%list.
Proof.
  induction n as [|n IH]; intros s Hlen pre post.
  - destruct s; [|cbn in Hlen; lia]. destruct pre; discriminate.
  - destruct s as [|c s]; [destruct pre; discriminate|].
    cbn [remove_all_from]. destruct (starts_with fence (c :: s)) eqn:Hst.
    + change (length fence - 1)%nat with 2%nat.
      rewrite remove_all_from_skip. apply IH.
      rewrite length_skipn. cbn [length] in Hlen. lia.
    + destruct pre as [|c0 pre]; cbn [app fence].
      * intros [= -> Heq].
        cbn [fence starts_with] in Hst. rewrite Ascii.eqb_refl in Hst.
        cbn [andb] in Hst.
        assert (H2 : starts_with [tick; tick] s = false).
        { destruct s as [|a [|b s2]]; cbn [starts_with] in *;
            rewrite ?andb_false_r; try reflexivity.
          rewrite andb_true_r.
          destruct (Ascii.eqb tick a); [|reflexivity]. cbn [andb] in *.
          destruct (Ascii.eqb tick b); [|reflexivity]. cbn [andb] in *.
          now destruct s2. }
        apply starts_two_ticks_removed in H2. rewrite Heq in H2.
        cbn [starts_with] in H2. rewrite Ascii.eqb_refl in H2. discriminate.
      * intros [= _ Heq]. apply (IH s) in Heq; [exact Heq|].
        cbn [length] in Hlen. lia.
Qed.

Lemma trim_start_split (s : list ascii) :
  exists w, s = (w ++ trim_start s)%list /\ forallb is_space w = true.
Proof.
  induction s as [|c s (w & Hw & Hs)]; [exists []; now split|].
  cbn [trim_start]. destruct (is_space c) eqn:Hc.
  - exists (c :: w). cbn [app forallb]. rewrite Hc, Hs. split; [now f_equal | reflexivity].
  - exists []. now split.
Qed.

Lemma trim_start_head (s : list ascii) : head_fails is_space (trim_start s).
Proof.
  induction s as [|c s IH]; [exact I|]. cbn [trim_start].
  destruct (is_space c) eqn:Hc; [exact IH | exact Hc].
Qed.

(** Trimming takes white space off both ends and nothing else. *)
Lemma trim_split (s : list ascii) :
  exists w1 w2, s = (w1 ++ trim s ++ w2)%list /\
                forallb is_space w1 = true /\ forallb is_space w2 = true.
Proof.
  destruct (trim_start_split s) as (w1 & H1 & Hs1).
  destruct (trim_start_split (rev (trim_start s))) as (w2 & H2 & Hs2).
  exists w1, (rev w2). split; [|split; [exact Hs1|]].
  - unfold trim. rewrite <- rev_app_distr, <- H2, rev_involutive. exact H1.
  - rewrite forallb_forall in *. intros c Hc. apply Hs2. now apply in_rev.
Qed.

Lemma trim_ends (s : list ascii) :
  head_fails is_space (trim s) /\ head_fails is_space (rev (trim s)).
Proof.
  split.
  - destruct (trim_start_split (rev (trim_start s))) as (w2 & H2 & _).
    pose proof (trim_start_head s) as Hh.
    apply (f_equal (@rev ascii)) in H2.
    rewrite rev_involutive, rev_app_distr in H2. fold (trim s) in H2.
    rewrite H2 in Hh. destruct (trim s); [exact I | exact Hh].
  - unfold trim. rewrite rev_involutive. apply trim_start_head.
Qed.

Lemma trim_no_space (s : list ascii) :
  head_fails is_space s -> head_fails is_space (rev s) -> trim s = s.
Proof.
  intros H1 H2. unfold trim.
  assert (Hs : forall t, head_fails is_space t -> trim_start t = t).
  { intros [|c t] Ht; [reflexivity|]. cbn [trim_start].
    unfold head_fails in Ht. now rewrite Ht. }
  rewrite (Hs s H1), (Hs (rev s) H2). apply rev_involutive.
Qed.

Lemma cleanup_chars (text : string) :
  list_ascii_of_string (cleanup text)
  = trim (remove_all_from fence O
            (remove_all "```json" (list_ascii_of_string text))).
Proof. unfold cleanup. apply list_ascii_of_string_of_list_ascii. Qed.

Lemma cleanup_plain (body : string) :
  no_tick (list_ascii_of_string body) = true ->
  list_ascii_of_string (cleanup body) = trim (list_ascii_of_string body).
Proof.
  intros H. rewrite cleanup_chars. unfold remove_all.
  rewrite <- (app_nil_r (list_ascii_of_string body)).
  change (list_ascii_of_string "```json") with (tick :: tick :: tick :: ["j"; "s"; "o"; "n"]%char).
  rewrite (remove_all_no_tick _ _ [] H). cbn [remove_all_from].
  unfold fence. rewrite (remove_all_no_tick _ _ [] H). reflexivity.
Qed.

Lemma starts_with_not_completed (w body rest : list ascii) :
  starts_with w body = false -> no_tick w = true ->
  starts_with w (body ++ tick :: rest)%list = false.
Proof.
  unfold no_tick. revert body. induction w as [|a w IH]; intros body; [discriminate|].
  cbn [forallb]. intros Hb Hw. apply andb_true_iff in Hw as [Ha Hw].
  apply negb_true_iff in Ha.
  destruct body as [|b body]; cbn [app starts_with] in *.
  - now rewrite Ha.
  - destruct (Ascii.eqb a b); [|reflexivity]. cbn [andb] in *. now apply IH.
Qed.

Lemma starts_with_cons (a c : ascii) (w s : list ascii) :
  starts_with (a :: w) (c :: s) = Ascii.eqb a c && starts_with w s.
Proof. reflexivity. Qed.

Lemma remove_all_from_pass (p : list ascii) (c : ascii) (s : list ascii) :
  starts_with p (c :: s) = false ->
  remove_all_from p O (c :: s) = c :: remove_all_from p O s.
Proof. intros H. cbn [remove_all_from]. now rewrite H. Qed.

(** A plain fence around a body that does not begin with the word json
    is not taken for the fence with that word. *)
Lemma plain_fence_kept (bs : list ascii) :
  no_tick bs = true ->
  starts_with ["j"; "s"; "o"; "n"]%char bs = false ->
  remove_all_from (tick :: tick :: tick :: ["j"; "s"; "o"; "n"]%char) O
    (fence ++ bs ++ fence)%list
  = (fence ++ bs ++ fence)%list.
Proof.
  intros H Hword.
  pose proof (remove_all_no_tick [tick; tick; "j"; "s"; "o"; "n"]%char bs fence H)
    as Hjson.
  change (remove_all_from _ O fence) with fence in Hjson.
  pose proof (starts_with_not_completed _ _ [tick; tick] Hword eq_refl) as Hw.
  destruct bs as [|b rest]; [reflexivity|].
  assert (Hnt : Ascii.eqb tick b = false).
  { unfold no_tick in H. cbn [forallb] in H.
    apply andb_true_iff in H as [H _]. apply negb_true_iff in H.
    now rewrite Ascii.eqb_sym. }
  unfold fence in *. cbn [app] in *. rewrite starts_with_cons in Hw.
  rewrite remove_all_from_pass
    by (rewrite !starts_with_cons, Hw; now rewrite !andb_false_r).
  rewrite remove_all_from_pass
    by (rewrite !starts_with_cons, Hnt; now rewrite !andb_false_r).
  rewrite remove_all_from_pass
    by (rewrite !starts_with_cons, Hnt; now rewrite !andb_false_r).
  now rewrite Hjson.
Qed.

(** X12.  Cleaning strips the fences and the margins.  For a body
    that holds no tick: the body wrapped in a fence with the word json
    is cleaned to the same text as the bare body, which is the body
    trimmed, and so is the body wrapped in a plain fence unless it
    begins with the word json.  Whatever the response, the cleaned text
    holds no fence and neither begins nor ends with white space; and a
    text without ticks and without white space at its ends is left as
    it is.  The two conditions on the body are needed: in a plain fence
    a body that begins with the word json loses that word, and so does
    a body that begins with a tick followed by it. *)
Theorem cleanup_strips_fences_and_margins :
  (forall body : string,
      no_tick (list_ascii_of_string body) = true ->
      cleanup ("```json" ++ body ++ "```") = cleanup body /\
      (starts_with (list_ascii_of_string "json") (list_ascii_of_string body) = false ->
       cleanup ("```" ++ body ++ "```") = cleanup body) /\
      list_ascii_of_string (cleanup body) = trim (list_ascii_of_string body)) /\
  (forall (text : string) (pre post : list ascii),
      list_ascii_of_string (cleanup text) <> (pre ++ fence ++ post)%list) /\
  (forall text : string,
      head_fails is_space (list_ascii_of_string (cleanup text)) /\
      head_fails is_space (rev (list_ascii_of_string (cleanup text)))) /\
  (forall text : string,
      no_tick (list_ascii_of_string text) = true ->
      head_fails is_space (list_ascii_of_string text) ->
      head_fails is_space (rev (list_ascii_of_string text)) ->
      cleanup text = text) /\
  (cleanup ("```" ++ "json x" ++ "```") = "x" /\ cleanup "json x" = "json x") /\
  (cleanup ("```" ++ "`json x" ++ "```") = "` x" /\ cleanup "`json x" = "`json x").
Proof.
  split; [|split; [|split; [|split; [|split; split; reflexivity]]]].
  - intros body H.
    assert (Hfenced : forall opening : string,
               remove_all "```"
                 (remove_all "```json"
                    (list_ascii_of_string (opening ++ body ++ "```")))
               = list_ascii_of_string body ->
               cleanup (opening ++ body ++ "```") = cleanup body).
    { intros opening Heq.
      rewrite <- (string_of_list_ascii_of_string (cleanup body)).
      rewrite (cleanup_plain body H). unfold cleanup. now rewrite Heq. }
    assert (Hlast : remove_all_from fence O
                      (list_ascii_of_string body ++ fence)%list
                    = list_ascii_of_string body).
    { unfold fence. rewrite (remove_all_no_tick _ _ _ H).
      cbn [remove_all_from starts_with]. rewrite !Ascii.eqb_refl.
      cbn [andb length Nat.sub remove_all_from]. apply app_nil_r. }
    assert (Hjson : remove_all_from
                      (tick :: tick :: tick :: ["j"; "s"; "o"; "n"]%char) O
                      (list_ascii_of_string body ++ fence)%list
                    = (list_ascii_of_string body ++ fence)%list).
    { now rewrite (remove_all_no_tick _ _ _ H). }
    split; [|split; [|now apply cleanup_plain]].
    + apply Hfenced. rewrite !list_ascii_app. unfold remove_all.
      change (list_ascii_of_string "```json")
        with (tick :: tick :: tick :: ["j"; "s"; "o"; "n"]%char).
      change (list_ascii_of_string "```") with fence.
      cbn [app remove_all_from starts_with]. rewrite !Ascii.eqb_refl.
      cbn [andb length Nat.sub]. rewrite remove_all_from_skip. cbn [skipn].
      now rewrite Hjson.
    + intros Hword. apply Hfenced. rewrite !list_ascii_app. unfold remove_all.
      change (list_ascii_of_string "```json")
        with (tick :: tick :: tick :: ["j"; "s"; "o"; "n"]%char).
      change (list_ascii_of_string "```") with fence.
      rewrite (plain_fence_kept _ H Hword).
      cbn [fence app remove_all_from starts_with]. rewrite !Ascii.eqb_refl.
      cbn [andb length Nat.sub]. rewrite remove_all_from_skip. cbn [skipn].
      exact Hlast.
  - intros text pre post. rewrite cleanup_chars. intros Heq.
    destruct (trim_split (remove_all_from fence O
                (remove_all "```json" (list_ascii_of_string text))))
      as (w1 & w2 & Hs & _ & _).
    rewrite Heq in Hs.
    apply (no_fence_after_removal _ (remove_all "```json" (list_ascii_of_string text))
             (Nat.le_refl _) (w1 ++ pre)%list (post ++ w2)%list).
    rewrite Hs. now rewrite <- !app_assoc.
  - intros text. rewrite cleanup_chars. apply trim_ends.
  - intros text H H1 H2.
    rewrite <- (string_of_list_ascii_of_string (cleanup text)).
    rewrite (cleanup_plain text H), (trim_no_space _ H1 H2).
    apply string_of_list_ascii_of_string.
Qed.

(** *** The results of an ingestion *)

Lemma truthy_number_not_nan (x : float) :
  truthy_number x = true -> PrimFloat.is_nan x = false.
Proof.
  unfold truthy_number. intros H. apply negb_true_iff in H.
  now apply orb_false_elim in H as [_ H].
Qed.

(** The attribution is a web address that is not empty, or none at all,
    and a title only comes with an address. *)
Lemma attribution_address (response : GenerateContentResponse) :
  fst (attribution response) <> Some "" /\
  (fst (attribution response) = None -> snd (attribution response) = None).
Proof.
  unfold attribution.
  destruct (List.find has_web_uri _) as [chunk|] eqn:Hfind;
    [|split; [discriminate | reflexivity]].
  apply find_some in Hfind as [_ Hweb]. unfold has_web_uri in Hweb.
  destruct (web chunk) as [w|]; [|discriminate]. cbn [fst snd].
  destruct (uri w) as [[|c u]|]; try discriminate.
  split; discriminate.
Qed.

(** X13.  Every result of an ingestion is well formed: its price is a
    number, the sentinel 0 standing in for a missing, zero or
    not-a-number price of the answer; its company name is present, and
    is not empty unless the symbol is; its web address is not the empty
    string and its source title only comes with an address; and all the
    results of one ingestion carry the same attribution. *)
Theorem results_are_well_formed :
  forall (symbols : list string) (results : list PriceUpdateResult.t)
         (r : PriceUpdateResult.t),
    snd (fetchStockPrices symbols) = Return results ->
    In r results ->
    PrimFloat.is_nan (PriceUpdateResult.price r) = false /\
    (exists name, PriceUpdateResult.companyName r = Some name /\
                  (PriceUpdateResult.symbol r <> "" -> name <> "")) /\
    PriceUpdateResult.sourceUrl r <> Some "" /\
    (PriceUpdateResult.sourceUrl r = None -> PriceUpdateResult.sourceTitle r = None) /\
    (forall r', In r' results ->
                PriceUpdateResult.sourceUrl r' = PriceUpdateResult.sourceUrl r /\
                PriceUpdateResult.sourceTitle r' = PriceUpdateResult.sourceTitle r).
Proof.
  intros symbols results r. unfold fetchStockPrices.
  destruct (Nat.eqb (length symbols) 0); [intros [= <-] []|].
  destruct (generateContent _) as [response|e]; [|discriminate].
  cbn [snd]. intros Hmap Hin.
  apply mapThrowing_inv in Hmap.
  assert (Hall : forall r', In r' results ->
                   exists entry sym,
                     r' = resultOf entry (attribution response) sym).
  { clear Hin. induction Hmap as [|sym update l ys Hx _ IH]; [intros r' []|].
    intros r' [<-|Hin']; [|now apply IH].
    unfold resultFor in Hx. destruct (read _ sym) as [entry|]; [|discriminate].
    injection Hx as <-. now exists entry, sym. }
  destruct (Hall r Hin) as (entry & sym & ->).
  pose proof (attribution_address response) as [Hurl Htitle].
  unfold resultOf. cbn [PriceUpdateResult.price PriceUpdateResult.companyName
    PriceUpdateResult.symbol PriceUpdateResult.sourceUrl
    PriceUpdateResult.sourceTitle].
  split; [|split; [|split; [exact Hurl | split; [exact Htitle|]]]].
  - destruct (price_of entry) as [price|]; [|reflexivity].
    destruct (truthy_number price) eqn:Hp; [|reflexivity].
    now apply truthy_number_not_nan.
  - eexists. split; [reflexivity|]. intros Hsym.
    destruct (name_of entry) as [name|]; [|exact Hsym].
    destruct name as [|c name]; cbn [truthy_string];
      [exact Hsym | discriminate].
  - intros r' Hin'. destruct (Hall r' Hin') as (entry' & sym' & ->).
    split; reflexivity.
Qed.

(** *** A symbol the answer does not mention *)

Lemma search_absent (key : list ascii) (ts : list Term) (s : list ascii) :
  key <> [] -> occurs_within key s [] = false ->
  search (mkRegExp (literal key ++ ts) true) s = None.
Proof.
  intros Hkey. induction s as [|c s IH]; intros Hocc.
  - cbn [search]. unfold match_here. cbn [terms ignoreCase].
    rewrite match_literal. destruct key; [congruence | reflexivity].
  - cbn [occurs_within] in Hocc. apply orb_false_elim in Hocc as [Hhere Hlater].
    rewrite app_nil_r in Hhere.
    cbn [search]. unfold match_here at 1. cbn [terms ignoreCase].
    rewrite match_literal, Hhere. now apply IH.
Qed.

Lemma quoted_nonempty (w : string) : quoted w <> [].
Proof. discriminate. Qed.

(** Without the quoted symbol in the text the fallback records nothing
    for it. *)
Lemma fallback_absent (symbols : list string) (cleanText sym : string) :
  occurs_within (quoted sym) (list_ascii_of_string cleanText) [] = false ->
  fallback symbols cleanText !! sym = None.
Proof.
  intros Hocc. rewrite fallback_lookup.
  destruct (includes symbols sym); [|reflexivity].
  rewrite extractSymbol_eq. unfold String_match, priceTerms.
  rewrite (search_absent _ _ _ (quoted_nonempty sym) Hocc).
  apply lookup_empty.
Qed.

(** A symbol that is no own property of the object is read from
    [Object.prototype]: it gets no price, and its own name but for the
    symbol constructor, which finds the function [Object]. *)
Lemma resultOf_inherited (defaultSource : option string * option string)
    (sym : string) :
  resultOf (Object_prototype sym) defaultSource sym
  = PriceUpdateResult.mk sym 0%float
      (Some (if String.eqb sym "constructor" then "Object" else sym))
      (fst defaultSource) (snd defaultSource).
Proof.
  unfold resultOf, Object_prototype.
  destruct (String.eqb sym "constructor"); [reflexivity|].
  destruct (String.eqb sym "__proto__"); [reflexivity|].
  destruct (includes Object_prototype_methods sym); [|reflexivity].
  cbn [price_of name_of]. now destruct sym.
Qed.

(** X14.  When strict parsing fails and the cleaned text does not hold
    the quoted symbol, in whatever case (an empty answer among others),
    the symbol stays unresolved: its result carries the sentinel price
    0, and as name the symbol itself, except that the symbol
    constructor, read from the empty object, finds the constructor that
    every object inherits and gets the name Object; and the merge
    records for every tracker with that symbol that the symbol was not
    found, keeping its price and its name. *)
Theorem unmentioned_symbol_stays_unresolved :
  forall (symbols : list string) (response : GenerateContentResponse)
         (sym : string),
    generateContent (requestFor symbols) = Resolved response ->
    JSON_parse_data (cleanup (responseText response)) = None ->
    In sym symbols ->
    occurs_within (quoted sym)
      (list_ascii_of_string (cleanup (responseText response))) [] = false ->
    exists results,
      snd (fetchStockPrices symbols) = Return results /\
      (exists update, In update results /\ PriceUpdateResult.symbol update = sym) /\
      (forall update, In update results ->
         PriceUpdateResult.symbol update = sym ->
         PriceUpdateResult.price update = 0%float /\
         PriceUpdateResult.companyName update =
           Some (if String.eqb sym "constructor" then "Object" else sym)) /\
      (forall (stock : StockTracker.t) (k : nat),
         StockTracker.symbol stock = sym ->
         fst (mergeOne symbols results stock k)
         = failedUpdate stock "Symbol not found or data unavailable"
             (Date_now_at k)).
Proof.
  intros symbols response sym Hres Hparse Hin Hocc.
  rewrite (fetchStockPrices_fallback symbols response sym Hin Hres Hparse).
  eexists. split; [reflexivity|].
  split; [eexists; split; [apply in_map; exact Hin | reflexivity]|].
  match goal with
  | |- (forall update, In update ?l -> _) /\ _ => set (results := l)
  end.
  assert (Hres0 : forall update,
             In update results ->
             PriceUpdateResult.symbol update = sym ->
             PriceUpdateResult.price update = 0%float /\
             PriceUpdateResult.companyName update =
               Some (if String.eqb sym "constructor" then "Object" else sym)).
  { intros update Hu Hsym. apply in_map_iff in Hu as (sym' & <- & _).
    cbn [resultOf PriceUpdateResult.symbol] in Hsym. subst sym'.
    rewrite (fallback_absent _ _ _ Hocc), resultOf_inherited. now split. }
  split; [exact Hres0|].
  intros stock k Hsym. unfold mergeOne.
  rewrite Hsym, (proj2 (includes_In symbols sym) Hin). cbn [negb].
  destruct (findUpdate _ stock) as [update|] eqn:Hfind; [|reflexivity].
  apply find_some in Hfind as [Hu Heq]. apply String.eqb_eq in Heq.
  rewrite Hsym in Heq.
  destruct (Hres0 update Hu Heq) as [-> _]. reflexivity.
Qed.

(** *** The name in the fallback *)

Lemma test_notQuote (c : ascii) : test true notQuote c = not_quote c.
Proof. each_char c; reflexivity. Qed.

(** The pattern for the name matches a fragment at its start and its
    group is the name. *)
Lemma match_nameFragment (sym : string)
    (ws1 ws2 b1 ws3 ws4 name b2 post : list ascii) :
  forallb is_space ws1 = true -> forallb is_space ws2 = true ->
  forallb is_space ws3 = true -> forallb is_space ws4 = true ->
  forallb not_brace b1 = true -> forallb not_brace b2 = true ->
  name <> [] ->
  forallb not_quote name = true -> forallb not_brace name = true ->
  head_fails not_brace post ->
  occurs_within (quoted "name") (tl (nameField ws3 ws4 name ++ b2)) post = false ->
  match_here (mkRegExp (nameTerms sym) true)
    (nameFragment sym ws1 ws2 b1 ws3 ws4 name b2 ++ post)%list
  = Some [name].
Proof.
  intros Hs1 Hs2 Hs3 Hs4 Hb1 Hb2 Hne Hq Hnb Hpost Hlast.
  unfold match_here, nameTerms. cbn [terms ignoreCase].
  rewrite match_literal. unfold nameFragment.
  rewrite <- app_assoc, prefix_ci_self, skipn_app_exact. reassoc.
  unfold openBrace. cbn [app match_terms]. cbn [match_atom].
  apply star_greedy;
    [apply (forallb_test white is_space); [apply test_white | exact Hs1]
    | reflexivity |].
  change (test true (MChar ":") ":") with true. cbv iota.
  apply star_greedy;
    [apply (forallb_test white is_space); [apply test_white | exact Hs2]
    | reflexivity |].
  change (test true (MChar "{") "{") with true. cbv iota.
  rewrite (app_assoc (nameField ws3 ws4 name) b2 post).
  assert (Hfield : forallb not_brace (nameField ws3 ws4 name ++ b2) = true).
  { unfold nameField. rewrite !forallb_app. cbn [forallb].
    rewrite !forallb_app. cbn [forallb].
    rewrite (forallb_impl _ _ _ space_not_brace Hs3).
    rewrite (forallb_impl _ _ _ space_not_brace Hs4).
    rewrite forallb_app, Hnb, Hb2. reflexivity. }
  apply star_backtrack.
  - apply (forallb_test notBrace not_brace); [apply test_notBrace | exact Hb1].
  - apply (forallb_test notBrace not_brace); [apply test_notBrace | exact Hfield].
  - unfold head_fails in *. destruct post as [|c post]; [exact I|].
    now rewrite test_notBrace.
  - rewrite match_literal. unfold nameField. reassoc.
    rewrite prefix_ci_self, skipn_app_exact.
    unfold colon. cbn [app match_terms match_atom].
    apply star_greedy;
      [apply (forallb_test white is_space); [apply test_white | exact Hs3]
      | reflexivity |].
    change (test true (MChar ":") ":") with true. cbv iota.
    apply star_greedy;
      [apply (forallb_test white is_space); [apply test_white | exact Hs4]
      | reflexivity |].
    change (test true (MChar dq) dq) with true. cbv iota.
    destruct name as [|c name']; [congruence|].
    cbn [forallb] in Hq. apply andb_true_iff in Hq as [Hc Hrest].
    cbn [match_atoms match_atom app]. rewrite test_notQuote, Hc.
    apply star_greedy.
    + apply (forallb_test notQuote not_quote); [apply test_notQuote | exact Hrest].
    + reflexivity.
    + change (c :: name' ++ dq :: b2 ++ post)%list
        with ((c :: name') ++ dq :: b2 ++ post)%list.
      rewrite consumed_app. reflexivity.
  - intros v u Heq Hv. rewrite match_literal.
    replace (prefix_ci (quoted "name") (u ++ post)%list) with false; [reflexivity|].
    symmetry. destruct v as [|d v]; [congruence|].
    destruct u as [|e u].
    + cbn [app]. destruct post as [|c post]; [reflexivity|].
      unfold head_fails in Hpost. cbn [quoted prefix_ci].
      each_char c; try discriminate Hpost; reflexivity.
    + apply (occurs_within_false _ _ _ Hlast v (e :: u)); [|discriminate].
      rewrite Heq. reflexivity.
Qed.

Lemma search_nameFragment (sym : string)
    (pre ws1 ws2 b1 ws3 ws4 name b2 post : list ascii) :
  forallb is_space ws1 = true -> forallb is_space ws2 = true ->
  forallb is_space ws3 = true -> forallb is_space ws4 = true ->
  forallb not_brace b1 = true -> forallb not_brace b2 = true ->
  name <> [] ->
  forallb not_quote name = true -> forallb not_brace name = true ->
  head_fails not_brace post ->
  occurs_within (quoted sym) pre
    (nameFragment sym ws1 ws2 b1 ws3 ws4 name b2 ++ post)%list = false ->
  occurs_within (quoted "name") (tl (nameField ws3 ws4 name ++ b2)) post = false ->
  search (mkRegExp (nameTerms sym) true)
    (pre ++ nameFragment sym ws1 ws2 b1 ws3 ws4 name b2 ++ post)%list
  = Some [name].
Proof.
  intros Hs1 Hs2 Hs3 Hs4 Hb1 Hb2 Hne Hq Hnb Hpost Hfirst Hlast.
  apply search_skip; [|now apply match_nameFragment].
  intros v u Heq Hu. unfold match_here, nameTerms. cbn [terms ignoreCase].
  rewrite match_literal.
  now rewrite (occurs_within_false _ _ _ Hfirst v u Heq Hu).
Qed.

(** X15.  The fallback recovers the company name.  When strict parsing
    fails on a response whose cleaned text holds a fragment with the
    name of a requested symbol (the quoted symbol not occurring earlier,
    the name not empty and free of double quotes and closing braces, and
    no later quoted word name before the closing brace), the result for
    the symbol carries that name and the price the price pattern
    captured, provided the price pattern matches; if the price pattern
    does not match, the name is dropped with it: the result carries the
    sentinel price 0 and the name of an unresolved symbol, which is the
    symbol itself, or Object for the symbol constructor, which every
    object inherits. *)
Theorem fallback_recovers_the_name :
  forall (symbols : list string) (response : GenerateContentResponse)
         (sym : string) (pre ws1 ws2 b1 ws3 ws4 name b2 post : list ascii)
         (priceRegex : RegExp),
    generateContent (requestFor symbols) = Resolved response ->
    JSON_parse_data (cleanup (responseText response)) = None ->
    In sym symbols ->
    RegExp_new (pricePattern (escapeRegExp sym)) true = Parsed priceRegex ->
    list_ascii_of_string (cleanup (responseText response))
      = (pre ++ nameFragment sym ws1 ws2 b1 ws3 ws4 name b2 ++ post)%list ->
    forallb is_space ws1 = true -> forallb is_space ws2 = true ->
    forallb is_space ws3 = true -> forallb is_space ws4 = true ->
    forallb not_brace b1 = true -> forallb not_brace b2 = true ->
    name <> [] ->
    forallb not_quote name = true -> forallb not_brace name = true ->
    head_fails not_brace post ->
    occurs_within (quoted sym) pre
      (nameFragment sym ws1 ws2 b1 ws3 ws4 name b2 ++ post)%list = false ->
    occurs_within (quoted "name") (tl (nameField ws3 ws4 name ++ b2)) post = false ->
    exists results,
      snd (fetchStockPrices symbols) = Return results /\
      (exists update, In update results /\ PriceUpdateResult.symbol update = sym) /\
      forall update,
        In update results -> PriceUpdateResult.symbol update = sym ->
        match String_match (cleanup (responseText response)) priceRegex with
        | Some m =>
            PriceUpdateResult.companyName update = Some (string_of_list_ascii name) /\
            PriceUpdateResult.price update =
              (let p := parseFloat (group1 m) in
               if truthy_number p then p else 0%float)
        | None =>
            PriceUpdateResult.companyName update =
              Some (if String.eqb sym "constructor" then "Object" else sym) /\
            PriceUpdateResult.price update = 0%float
        end.
Proof.
  intros symbols response sym pre ws1 ws2 b1 ws3 ws4 name b2 post priceRegex
         Hres Hparse Hin Hregex Htext Hs1 Hs2 Hs3 Hs4 Hb1 Hb2 Hne Hq Hnb
         Hpost Hfirst Hlast.
  rewrite RegExp_new_price in Hregex. injection Hregex as <-.
  assert (Hname : String_match (cleanup (responseText response))
                    (mkRegExp (nameTerms sym) true) = Some [name]).
  { unfold String_match. rewrite Htext. now apply search_nameFragment. }
  rewrite (fetchStockPrices_fallback symbols response sym Hin Hres Hparse).
  eexists. split; [reflexivity|].
  split; [eexists; split; [apply in_map; exact Hin | reflexivity]|].
  intros update Hu Hsym. apply in_map_iff in Hu as (sym' & <- & _).
  cbn [resultOf PriceUpdateResult.symbol] in Hsym. subst sym'.
  rewrite fallback_lookup, (proj2 (includes_In symbols sym) Hin).
  rewrite extractSymbol_eq, Hname.
  destruct (String_match _ (mkRegExp (priceTerms sym) true)) as [m|].
  - rewrite lookup_insert_eq. unfold resultOf.
    cbn [price_of name_of entry_name entry_price group1 nth
         PriceUpdateResult.companyName PriceUpdateResult.price].
    split; [|reflexivity].
    destruct name as [|c name']; [congruence | reflexivity].
  - rewrite lookup_empty, resultOf_inherited. now split.
Qed.

(** *** The form *)

(** X16.  The form creates a tracker exactly when its three fields are
    filled in.  The tracker carries the generated id, the symbol in upper
    case and the two prices as parsed; it has no price, time stamp,
    error or completion flag, so that it is active, qualifies for a
    refresh at any time, sorts with the sentinel, and its card announces
    the first synchronisation with an empty bar and no badge. *)
Theorem submit_creates_a_fresh_tracker :
  forall (uuid : string) (form : AddTrackerForm.state),
    (handleSubmit uuid form = None <->
     AddTrackerForm.symbol form = "" \/ AddTrackerForm.startPrice form = "" \/
     AddTrackerForm.targetPrice form = "") /\
    (forall (newStock : StockTracker.t) (n : nat),
        handleSubmit uuid form = Some newStock ->
        StockTracker.id newStock = uuid /\
        StockTracker.symbol newStock = toUpperCase (AddTrackerForm.symbol form) /\
        StockTracker.startPrice newStock = parseFloat (AddTrackerForm.startPrice form) /\
        StockTracker.targetPrice newStock = parseFloat (AddTrackerForm.targetPrice form) /\
        active newStock = true /\
        fst (isStale newStock n) = true /\
        getProgress newStock = (-9999)%float /\
        StockCard.readout newStock = StockCard.Syncing /\
        StockCard.badges newStock = [] /\
        StockCard.barWidth newStock = 0%float).
Proof.
  intros uuid form. unfold handleSubmit.
  destruct form as [[|c1 sym] [|c2 sp] [|c3 tp]]; cbn [AddTrackerForm.symbol
    AddTrackerForm.startPrice AddTrackerForm.targetPrice truthy_string negb orb];
    (split;
     [ split; [try discriminate; intros _; auto
              | try reflexivity; intros [H|[H|H]]; discriminate H]
     | try (intros newStock n H; discriminate H) ]).
  intros newStock n [= <-]. now repeat split.
Qed.

(** *** The card *)

Lemma SFcompare_swap (x y : spec_float) :
  SFcompare y x = option_map CompOpp (SFcompare x y).
Proof.
  destruct x as [sx|sx| |sx mx ex], y as [sy|sy| |sy my ey];
    try destruct sx; try destruct sy; cbn; try reflexivity;
    rewrite (Z.compare_antisym ex ey);
    destruct (ex ?= ey); cbn; try reflexivity;
    rewrite (Pos.compare_cont_antisym mx my Eq); cbn;
    now rewrite ?CompOpp_involutive.
Qed.

Lemma not_nan_spec (x : float) :
  PrimFloat.is_nan x = false -> Prim2SF x <> S754_nan.
Proof.
  unfold PrimFloat.is_nan. intros H Hn. apply negb_false_iff in H.
  rewrite FloatAxioms.eqb_spec, Hn in H. discriminate.
Qed.

Lemma SFcompare_defined (x y : spec_float) :
  x <> S754_nan -> y <> S754_nan -> exists c, SFcompare x y = Some c.
Proof. destruct x, y; intros Hx Hy; try congruence; cbn; eauto. Qed.

Lemma float_ltb_leb (x y : float) :
  PrimFloat.ltb x y = true -> PrimFloat.leb x y = true.
Proof.
  rewrite FloatAxioms.ltb_spec, FloatAxioms.leb_spec. unfold SFltb, SFleb.
  now destruct (SFcompare _ _) as [[| |]|].
Qed.

Lemma float_ltb_not_leb (x y : float) :
  PrimFloat.ltb x y = true -> PrimFloat.leb y x = false.
Proof.
  rewrite FloatAxioms.ltb_spec, FloatAxioms.leb_spec. unfold SFltb, SFleb.
  rewrite (SFcompare_swap (Prim2SF x) (Prim2SF y)).
  now destruct (SFcompare _ _) as [[| |]|].
Qed.

Lemma float_not_ltb_leb (x y : float) :
  PrimFloat.is_nan x = false -> PrimFloat.is_nan y = false ->
  PrimFloat.ltb y x = false -> PrimFloat.leb x y = true.
Proof.
  intros Hx Hy. apply not_nan_spec in Hx, Hy.
  rewrite FloatAxioms.ltb_spec, FloatAxioms.leb_spec. unfold SFltb, SFleb.
  rewrite (SFcompare_swap (Prim2SF x) (Prim2SF y)).
  destruct (SFcompare_defined _ _ Hx Hy) as (c & ->). now destruct c.
Qed.

Lemma float_neither_ltb_eqb (x y : float) :
  PrimFloat.is_nan x = false -> PrimFloat.is_nan y = false ->
  PrimFloat.ltb x y = false -> PrimFloat.ltb y x = false ->
  PrimFloat.eqb x y = true.
Proof.
  intros Hx Hy. apply not_nan_spec in Hx, Hy.
  rewrite !FloatAxioms.ltb_spec, FloatAxioms.eqb_spec. unfold SFltb, SFeqb.
  rewrite (SFcompare_swap (Prim2SF x) (Prim2SF y)).
  destruct (SFcompare_defined _ _ Hx Hy) as (c & ->). now destruct c.
Qed.

Lemma float_leb_not_nan (x y : float) :
  PrimFloat.leb x y = true ->
  PrimFloat.is_nan x = false /\ PrimFloat.is_nan y = false.
Proof.
  rewrite FloatAxioms.leb_spec. unfold PrimFloat.is_nan.
  rewrite !FloatAxioms.eqb_spec. unfold SFleb, SFeqb.
  destruct (Prim2SF x) as [sx|sx| |sx mx ex], (Prim2SF y) as [sy|sy| |sy my ey];
    try destruct sx; try destruct sy; cbn; try discriminate; intros _;
    rewrite ?Z.compare_refl, ?Pos.compare_cont_refl; split; reflexivity.
Qed.

Lemma float_eqb_sym (x y : float) : PrimFloat.eqb x y = PrimFloat.eqb y x.
Proof.
  rewrite !FloatAxioms.eqb_spec. unfold SFeqb.
  rewrite (SFcompare_swap (Prim2SF x) (Prim2SF y)).
  now destruct (SFcompare _ _) as [[| |]|].
Qed.

Lemma float_eqb_refl (x : float) :
  PrimFloat.is_nan x = false -> PrimFloat.eqb x x = true.
Proof. unfold PrimFloat.is_nan. intros H. now apply negb_false_iff in H. Qed.

Lemma negative_below_100 (p : float) :
  PrimFloat.ltb p 0 = true -> PrimFloat.leb 100 p = false.
Proof.
  rewrite FloatAxioms.ltb_spec, FloatAxioms.leb_spec.
  change (Prim2SF 0) with (S754_zero false).
  replace (Prim2SF 100) with (S754_finite false 7036874417766400 (-46))
    by (vm_compute; reflexivity).
  destruct (Prim2SF p) as [s|s| |s m e]; try destruct s; cbn; congruence.
Qed.

Lemma zero_below_100 (p : float) :
  PrimFloat.eqb p 0 = true -> PrimFloat.leb 100 p = false.
Proof.
  rewrite FloatAxioms.eqb_spec, FloatAxioms.leb_spec.
  change (Prim2SF 0) with (S754_zero false).
  replace (Prim2SF 100) with (S754_finite false 7036874417766400 (-46))
    by (vm_compute; reflexivity).
  destruct (Prim2SF p) as [s|s| |s m e]; try destruct s; cbn; congruence.
Qed.

(** The larger of a number and zero is a number that is not negative. *)
Lemma Math_max_zero (p : float) :
  PrimFloat.is_nan p = false ->
  PrimFloat.is_nan (Math_max p 0) = false /\
  PrimFloat.leb 0 (Math_max p 0) = true /\
  (Math_max p 0 = p \/
   Math_max p 0 = 0%float /\ PrimFloat.ltb 0 p = false).
Proof.
  intros Hp. unfold Math_max. rewrite Hp.
  change (PrimFloat.is_nan 0) with false. cbn [orb].
  destruct (PrimFloat.ltb p 0) eqn:Hneg.
  - split; [reflexivity|]. split; [reflexivity|]. right. split; [reflexivity|].
    apply float_ltb_not_leb in Hneg.
    destruct (PrimFloat.ltb 0 p) eqn:Hpos; [|reflexivity].
    apply float_ltb_leb in Hpos. congruence.
  - destruct (PrimFloat.ltb 0 p) eqn:Hpos.
    + split; [exact Hp|]. split; [now apply float_ltb_leb | now left].
    + destruct (PrimFloat.is_zero p && PrimFloat.get_sign p).
      * split; [reflexivity|]. split; [reflexivity | right; now split].
      * split; [exact Hp|]. split; [|now left].
        now apply float_not_ltb_leb.
Qed.

Lemma clamp_bounds (p : float) :
  PrimFloat.is_nan p = false ->
  PrimFloat.leb 0 (Math_min (Math_max p 0) 100) = true /\
  PrimFloat.leb (Math_min (Math_max p 0) 100) 100 = true.
Proof.
  intros Hp. destruct (Math_max_zero p Hp) as (Hm & Hge & _).
  set (m := Math_max p 0) in *. unfold Math_min. rewrite Hm.
  change (PrimFloat.is_nan 100) with false. cbn [orb].
  destruct (PrimFloat.ltb m 100) eqn:Hlt.
  - split; [exact Hge | now apply float_ltb_leb].
  - destruct (PrimFloat.ltb 100 m) eqn:Hgt; [split; reflexivity|].
    destruct (PrimFloat.is_zero m && negb (PrimFloat.get_sign m));
      [split; reflexivity|].
    split; [exact Hge | now apply float_not_ltb_leb].
Qed.

Lemma clamp_within (p : float) :
  PrimFloat.leb 0 p = true -> PrimFloat.leb p 100 = true ->
  PrimFloat.eqb (Math_min (Math_max p 0) 100) p = true.
Proof.
  intros H0 H100. destruct (float_leb_not_nan _ _ H0) as [_ Hp].
  assert (Hm : Math_max p 0 = p \/
               Math_max p 0 = 0%float /\ PrimFloat.eqb 0 p = true).
  { destruct (Math_max_zero p Hp) as (_ & _ & [Hm|[Hm Hpos]]); [now left|].
    right. split; [exact Hm|].
    apply float_neither_ltb_eqb; [reflexivity | exact Hp | exact Hpos |].
    destruct (PrimFloat.ltb p 0) eqn:Hneg; [|reflexivity].
    apply float_ltb_not_leb in Hneg. congruence. }
  destruct Hm as [->|[-> Hz]]; [|exact Hz].
  unfold Math_min. rewrite Hp. change (PrimFloat.is_nan 100) with false.
  cbn [orb].
  destruct (PrimFloat.ltb p 100) eqn:Hlt; [now apply float_eqb_refl|].
  destruct (PrimFloat.ltb 100 p) eqn:Hgt.
  - apply float_ltb_not_leb in Hgt. congruence.
  - destruct (PrimFloat.is_zero p && negb (PrimFloat.get_sign p));
      [|now apply float_eqb_refl].
    now apply float_neither_ltb_eqb.
Qed.

Lemma clamp_above (p : float) :
  PrimFloat.leb 100 p = true ->
  PrimFloat.eqb (Math_min (Math_max p 0) 100) 100 = true.
Proof.
  intros H100. destruct (float_leb_not_nan _ _ H100) as [_ Hp].
  assert (Hm : Math_max p 0 = p).
  { destruct (Math_max_zero p Hp) as (_ & _ & [Hm|[_ Hpos]]); [exact Hm|].
    exfalso. destruct (PrimFloat.ltb p 0) eqn:Hneg.
    - apply negative_below_100 in Hneg. congruence.
    - assert (Hz : PrimFloat.eqb p 0 = true)
        by (now apply float_neither_ltb_eqb).
      apply zero_below_100 in Hz. congruence. }
  rewrite Hm. unfold Math_min. rewrite Hp.
  change (PrimFloat.is_nan 100) with false. cbn [orb].
  destruct (PrimFloat.ltb p 100) eqn:Hlt.
  - apply float_ltb_not_leb in Hlt. congruence.
  - destruct (PrimFloat.ltb 100 p) eqn:Hgt; [reflexivity|].
    destruct (PrimFloat.is_zero p && negb (PrimFloat.get_sign p));
      [reflexivity|].
    now apply float_neither_ltb_eqb.
Qed.

(** X17.  The width of the bar is the progress clamped to the range from
    0 to 100: it lies in that range whenever the progress is a number
    (and is not a number only when the progress is not); it equals the
    progress when that lies in the range; it is 0 when the progress is
    negative and 100 when the goal is hit. *)
Theorem bar_width_is_the_progress_clamped :
  forall (stock : StockTracker.t),
    let p := StockCard.progress stock in
    let w := StockCard.barWidth stock in
    (PrimFloat.is_nan p = true -> w = nan) /\
    (PrimFloat.is_nan p = false ->
     PrimFloat.leb 0 w = true /\ PrimFloat.leb w 100 = true) /\
    (PrimFloat.leb 0 p = true -> PrimFloat.leb p 100 = true ->
     PrimFloat.eqb w p = true) /\
    (PrimFloat.ltb p 0 = true -> w = 0%float) /\
    (StockCard.isGoalHit stock = true -> PrimFloat.eqb w 100 = true).
Proof.
  intros stock p w. subst p w. unfold StockCard.barWidth, StockCard.isGoalHit.
  generalize (StockCard.progress stock). intros p.
  split; [|split; [|split; [|split]]].
  - intros Hp. unfold Math_max. rewrite Hp. reflexivity.
  - apply clamp_bounds.
  - apply clamp_within.
  - intros Hneg. unfold Math_max.
    assert (Hp : PrimFloat.is_nan p = false).
    { apply float_ltb_leb in Hneg. now apply float_leb_not_nan in Hneg. }
    rewrite Hp, Hneg. reflexivity.
  - apply clamp_above.
Qed.

(** X18.  The card and the sort agree on the progress of a tracker with
    a price; without a price the card shows none while the sort uses the
    sentinel.  The goal counts as hit only for a tracker that has a
    price and whose target differs from its start. *)
Theorem card_progress_is_the_sort_progress :
  forall (stock : StockTracker.t),
    (hasPrice stock = true -> StockCard.progress stock = getProgress stock) /\
    (hasPrice stock = false ->
     StockCard.progress stock = 0%float /\ getProgress stock = (-9999)%float /\
     StockCard.barWidth stock = 0%float) /\
    (StockCard.isGoalHit stock = true ->
     hasPrice stock = true /\
     PrimFloat.eqb (StockTracker.targetPrice stock - StockTracker.startPrice stock) 0
     = false).
Proof.
  intros stock. unfold hasPrice, StockCard.isGoalHit, StockCard.barWidth,
    StockCard.progress, getProgress.
  destruct (StockTracker.currentPrice stock) as [c|].
  - split; [|split; [discriminate|]].
    + intros _.
      now destruct (PrimFloat.eqb (StockTracker.targetPrice stock
                                   - StockTracker.startPrice stock) 0).
    + destruct (PrimFloat.eqb (StockTracker.targetPrice stock
                               - StockTracker.startPrice stock) 0);
        cbn [negb]; [discriminate | now split].
  - split; [discriminate|]. split; [now repeat split | discriminate].
Qed.

(** X19.  The colour of a card follows the direction of the strategy and
    the locale: a rising strategy (the target not below the start) is red
    in the Chinese and Japanese locales and green in the English one, a
    falling strategy the other way round; the text and the bar always
    wear the same colour; and a strategy whose start or target is not a
    number counts as falling. *)
Theorem colour_follows_direction_and_locale :
  forall (stock : StockTracker.t) (lang : Language),
    let red := ("text-red-400", "bg-gradient-to-r from-orange-400 to-red-500") in
    let green :=
      ("text-emerald-400", "bg-gradient-to-r from-teal-400 to-emerald-500") in
    (StockCard.colorClasses stock lang = red <->
     StockCard.isBullishStrategy stock = StockCard.isAsianLocale lang) /\
    (StockCard.colorClasses stock lang = green <->
     StockCard.isBullishStrategy stock <> StockCard.isAsianLocale lang) /\
    StockCard.colorClasses stock zh = StockCard.colorClasses stock ja /\
    StockCard.colorClasses stock en <> StockCard.colorClasses stock zh /\
    (PrimFloat.eqb (StockTracker.startPrice stock) (StockTracker.targetPrice stock)
     = true -> StockCard.isBullishStrategy stock = true) /\
    (PrimFloat.is_nan (StockTracker.startPrice stock) = true \/
     PrimFloat.is_nan (StockTracker.targetPrice stock) = true ->
     StockCard.isBullishStrategy stock = false).
Proof.
  intros stock lang red green. subst red green. unfold StockCard.colorClasses.
  split; [|split; [|split; [|split; [|split]]]].
  - destruct (StockCard.isBullishStrategy stock), lang; cbn; split;
      congruence.
  - destruct (StockCard.isBullishStrategy stock), lang; cbn; split;
      congruence.
  - reflexivity.
  - destruct (StockCard.isBullishStrategy stock); cbn; discriminate.
  - unfold StockCard.isBullishStrategy.
    rewrite FloatAxioms.eqb_spec, FloatAxioms.leb_spec. unfold SFeqb, SFleb.
    now destruct (SFcompare _ _) as [[| |]|].
  - unfold StockCard.isBullishStrategy. intros H.
    destruct (PrimFloat.leb _ _) eqn:Hle; [|reflexivity].
    apply float_leb_not_nan in Hle as [H1 H2].
    destruct H as [H|H]; congruence.
Qed.

(** X20.  An error takes precedence on the card: a tracker with an
    error message shows the words for an invalid symbol instead of its
    progress, the error badge alone, a full bar, no pulse and no drift
    label, and its toggle is disabled, whatever its price.  A failed
    update puts a card in this state and a successful one takes it out;
    so after a settled refresh the card of a requested tracker shows the
    error or a percentage, and never the notice of the first
    synchronisation. *)
Theorem card_shows_the_error_first :
  (forall stock : StockTracker.t,
      StockCard.hasError stock = true ->
      StockCard.readout stock = StockCard.InvalidSymbol /\
      StockCard.badges stock = [StockCard.ErrorBadge] /\
      StockCard.fillWidth stock = 100%float /\
      StockCard.pulse stock = false /\
      StockCard.drifting stock = false /\
      StockCard.toggleDisabled stock = true) /\
  (forall stock : StockTracker.t,
      StockCard.hasError stock = false ->
      StockCard.toggleDisabled stock = false /\
      StockCard.fillWidth stock = StockCard.barWidth stock /\
      ~ In StockCard.ErrorBadge (StockCard.badges stock) /\
      (StockCard.readout stock = StockCard.Syncing <-> hasPrice stock = false)) /\
  (forall (symbols : list string)
          (outcome : Completion string (list PriceUpdateResult.t))
          (stock : StockTracker.t) (k : nat),
      In (StockTracker.symbol stock) symbols ->
      let stock' := fst match outcome with
                        | Return results => mergeOne symbols results stock k
                        | Throw _ => failOne symbols stock k
                        end in
      (StockCard.hasError stock' = true /\
       StockCard.readout stock' = StockCard.InvalidSymbol /\
       StockTracker.currentPrice stock' = StockTracker.currentPrice stock) \/
      (StockCard.hasError stock' = false /\
       StockCard.readout stock' = StockCard.Percentage (StockCard.progress stock'))).
Proof.
  split; [|split].
  - intros stock He. unfold StockCard.readout, StockCard.badges,
      StockCard.fillWidth, StockCard.pulse, StockCard.drifting,
      StockCard.toggleDisabled. rewrite He. cbn [negb andb].
    rewrite andb_false_r. now repeat split.
  - intros stock He. unfold StockCard.readout, StockCard.badges,
      StockCard.fillWidth, StockCard.toggleDisabled, hasPrice. rewrite He.
    split; [reflexivity|]. split; [reflexivity|]. split.
    + destruct (StockCard.isGoalHit stock && negb (StockCard.completed stock));
        destruct (StockCard.completed stock); cbn;
        intros H; repeat destruct H as [H|H]; try discriminate H; exact H.
    + destruct (StockTracker.currentPrice stock); split; congruence.
  - intros symbols outcome stock k Hin stock'. subst stock'.
    apply includes_In in Hin.
    destruct outcome as [results|e]; unfold mergeOne, failOne; rewrite Hin;
      cbn [negb].
    + destruct (findUpdate results stock) as [update|];
        [destruct (PrimFloat.ltb _ _)|]; cbn [fst bind ret Date_now];
        [right | left | left]; now repeat split.
    + left. now repeat split.
Qed.

(** *** What the patterns of the fallback can capture *)

Lemma star_sound {R : Type} (t : ascii -> bool) (s : list ascii)
    (k : list ascii -> option R) (r : R) :
  star t s k = Some r ->
  exists w s', s = (w ++ s')%list /\ forallb t w = true /\ k s' = Some r.
Proof.
  induction s as [|c s IH]; cbn [star].
  - intros H. exists [], []. now repeat split.
  - destruct (t c) eqn:Hc.
    + destruct (star t s k) as [r0|] eqn:Hs.
      * intros [= <-]. destruct (IH eq_refl) as (w & s' & -> & Hw & Hk).
        exists (c :: w), s'. cbn [forallb app]. rewrite Hc, Hw. now repeat split.
      * intros H. exists [], (c :: s). now repeat split.
    + intros H. exists [], (c :: s). now repeat split.
Qed.

Lemma match_atom_passes {R : Type} (t : ascii -> bool) (qt : Quantifier)
    (s : list ascii) (k : list ascii -> option R) (r : R) :
  match_atom t qt s k = Some r -> exists s', k s' = Some r.
Proof.
  destruct qt; cbn [match_atom].
  - destruct s as [|c s]; [discriminate|]. destruct (t c); [eauto | discriminate].
  - intros H. apply star_sound in H as (_ & s' & _ & _ & H). eauto.
  - destruct s as [|c s]; [discriminate|]. destruct (t c); [|discriminate].
    intros H. apply star_sound in H as (_ & s' & _ & _ & H). eauto.
  - destruct s as [|c s]; [eauto|]. destruct (t c); [|eauto].
    destruct (k s) eqn:Hk; [intros [= <-] | ]; eauto.
Qed.

(** Terms without a group neither add to the captures nor change
    them. *)
Lemma atoms_pass {R : Type} (ic : bool) (ts rest : list Term) :
  atoms_only ts = true ->
  forall (s : list ascii) (caps : list (list ascii))
         (k : list ascii -> list (list ascii) -> option R) (r : R),
    match_terms ic (ts ++ rest)%list s caps k = Some r ->
    exists s', match_terms ic rest s' caps k = Some r.
Proof.
  unfold atoms_only. induction ts as [|[m qt|body] ts IH]; cbn [forallb app];
    intros Hts s caps k r H; [eauto | | discriminate].
  cbn [match_terms] in H. apply match_atom_passes in H as (s1 & H).
  now apply (IH Hts s1 caps k r).
Qed.

(** A pattern with one group, a single class repeated at least once,
    captures a non-empty run of characters of the class. *)
Lemma one_group_capture (P Q : list Term) (m : CharMatcher) (s : list ascii)
    (caps0 : list (list ascii)) :
  atoms_only P = true -> atoms_only Q = true ->
  match_terms true (P ++ TGroup [(m, QPlus)] :: Q)%list s []
    (fun _ caps => Some caps) = Some caps0 ->
  exists w, caps0 = [w] /\ w <> [] /\ forallb (test true m) w = true.
Proof.
  intros HP HQ H. apply (atoms_pass true P _ HP) in H as (s1 & H).
  cbn [match_terms match_atoms match_atom] in H.
  destruct s1 as [|c s1]; [discriminate|].
  destruct (test true m c) eqn:Hc; [|discriminate].
  apply star_sound in H as (w & s' & -> & Hw & H).
  rewrite <- (app_nil_r Q) in H.
  apply (atoms_pass true Q [] HQ) in H as (s'' & H).
  cbn [match_terms app] in H. injection H as <-.
  exists (c :: w). split; [|split; [discriminate|]].
  - change (c :: w ++ s')%list with ((c :: w) ++ s')%list.
    now rewrite consumed_app.
  - cbn [forallb]. now rewrite Hc, Hw.
Qed.

Lemma search_sound (r : RegExp) (s : list ascii) (caps : list (list ascii)) :
  search r s = Some caps ->
  exists pre u, s = (pre ++ u)%list /\ match_here r u = Some caps.
Proof.
  induction s as [|c s IH]; cbn [search].
  - destruct (match_here r []) eqn:H; [|discriminate].
    intros [= <-]. exists [], []. now split.
  - destruct (match_here r (c :: s)) eqn:H.
    + intros [= <-]. exists [], (c :: s). now split.
    + intros Hs. destruct (IH Hs) as (pre & u & -> & Hu).
      exists (c :: pre), u. now split.
Qed.

Lemma atoms_only_literal (w : list ascii) : atoms_only (literal w) = true.
Proof. unfold atoms_only, literal. induction w; cbn; auto. Qed.

Lemma atoms_only_app (a b : list Term) :
  atoms_only (a ++ b) = atoms_only a && atoms_only b.
Proof. apply forallb_app. Qed.

Lemma priceTerms_shape (sym : string) :
  priceTerms sym =
  ((literal (quoted sym) ++ openBrace ++ literal (quoted "price") ++ colon)
     ++ TGroup [(digitOrDot, QPlus)]
     :: [TAtom notBrace QStar; TAtom (MChar "}") QOne])%list.
Proof. unfold priceTerms, priceSuffix. now rewrite <- !app_assoc. Qed.

Lemma nameTerms_shape (sym : string) :
  nameTerms sym =
  ((literal (quoted sym) ++ openBrace ++ literal (quoted "name") ++ colon
      ++ [TAtom (MChar dq) QOne])
     ++ TGroup [(notQuote, QPlus)] :: [TAtom (MChar dq) QOne])%list.
Proof. unfold nameTerms. now rewrite <- !app_assoc. Qed.

Lemma price_capture (sym : string) (s : list ascii) (m : list (list ascii)) :
  search (mkRegExp (priceTerms sym) true) s = Some m ->
  exists num, m = [num] /\ num <> [] /\ forallb digit_or_dot num = true.
Proof.
  intros H. apply search_sound in H as (_ & u & _ & H).
  unfold match_here in H. cbn [terms ignoreCase] in H.
  rewrite priceTerms_shape in H.
  apply one_group_capture in H as (w & -> & Hne & Hw).
  - exists w. split; [reflexivity|]. split; [exact Hne|].
    apply (forallb_impl (test true digitOrDot) digit_or_dot); [|exact Hw].
    intros c. now rewrite test_digitOrDot.
  - rewrite !atoms_only_app, !atoms_only_literal. reflexivity.
  - reflexivity.
Qed.

Lemma name_capture (sym : string) (s : list ascii) (m : list (list ascii)) :
  search (mkRegExp (nameTerms sym) true) s = Some m ->
  exists name, m = [name] /\ name <> [] /\ forallb not_quote name = true.
Proof.
  intros H. apply search_sound in H as (_ & u & _ & H).
  unfold match_here in H. cbn [terms ignoreCase] in H.
  rewrite nameTerms_shape in H.
  apply one_group_capture in H as (w & -> & Hne & Hw).
  - exists w. split; [reflexivity|]. split; [exact Hne|].
    apply (forallb_impl (test true notQuote) not_quote); [|exact Hw].
    intros c. now rewrite test_notQuote.
  - rewrite !atoms_only_app, !atoms_only_literal. reflexivity.
  - reflexivity.
Qed.

(** X21.  Whatever the text of the response, the patterns of the
    fallback capture clean text only: the price pattern a non-empty run
    of digits and dots (no sign, no exponent, no letters), which is all
    that the fallback ever hands to [parseFloat], and the name pattern a
    non-empty text without double quotes.  So an entry the fallback
    records has a price read from such a run, and a name that is the
    symbol or such a text. *)
Theorem fallback_captures_are_clean :
  forall (text sym : string),
    (forall (priceRegex : RegExp) (m : list (list ascii)),
        RegExp_new (pricePattern (escapeRegExp sym)) true = Parsed priceRegex ->
        String_match text priceRegex = Some m ->
        exists num, m = [num] /\ num <> [] /\ forallb digit_or_dot num = true) /\
    (forall (nameRegex : RegExp) (m : list (list ascii)),
        RegExp_new (namePattern (escapeRegExp sym)) true = Parsed nameRegex ->
        String_match text nameRegex = Some m ->
        exists name, m = [name] /\ name <> [] /\ forallb not_quote name = true) /\
    (forall (symbols : list string) (e : Entry),
        fallback symbols text !! sym = Some e ->
        (exists num, entry_price e = parseFloat (string_of_list_ascii num) /\
                     num <> [] /\ forallb digit_or_dot num = true) /\
        (entry_name e = sym \/
         exists name, entry_name e = string_of_list_ascii name /\
                      name <> [] /\ forallb not_quote name = true)).
Proof.
  intros text sym. split; [|split].
  - intros priceRegex m Hre. rewrite RegExp_new_price in Hre.
    injection Hre as <-. apply price_capture.
  - intros nameRegex m Hre. rewrite RegExp_new_name in Hre.
    injection Hre as <-. apply name_capture.
  - intros symbols e. rewrite fallback_lookup.
    destruct (includes symbols sym); [|discriminate].
    rewrite extractSymbol_eq.
    destruct (String_match text (mkRegExp (priceTerms sym) true)) as [m|] eqn:Hm;
      [|rewrite lookup_empty; discriminate].
    rewrite lookup_insert_eq. intros [= <-]. cbn [entry_price entry_name].
    apply price_capture in Hm as (num & -> & Hne & Hnum).
    split; [exists num; now repeat split|].
    destruct (String_match text (mkRegExp (nameTerms sym) true)) as [nm|] eqn:Hn;
      [|now left].
    apply name_capture in Hn as (name & -> & Hnn & Hname).
    right. exists name. now repeat split.
Qed.

(** *** The key of the fallback is matched without regard to case *)

Lemma same_word_ci_prefix (w v s : list ascii) :
  same_word_ci w v = true ->
  prefix_ci w (v ++ s)%list = true /\ length w = length v.
Proof.
  revert v. induction w as [|a w IH]; intros [|c v]; cbn [same_word_ci];
    try discriminate; [now split|].
  intros H. apply andb_true_iff in H as [Hc Hw].
  destruct (IH v Hw) as [Hp Hl]. cbn [prefix_ci app length].
  rewrite Hc, Hp, Hl. now split.
Qed.

Lemma same_word_ci_quoted (sym key : string) :
  same_word_ci (list_ascii_of_string sym) (list_ascii_of_string key) = true ->
  same_word_ci (quoted sym) (quoted key) = true.
Proof.
  unfold quoted. cbn [same_word_ci]. rewrite same_char_refl. cbn [andb].
  generalize (list_ascii_of_string key).
  induction (list_ascii_of_string sym) as [|a w IH]; intros [|c v];
    cbn [same_word_ci app]; try discriminate.
  - intros _. now rewrite same_char_refl.
  - intros H. apply andb_true_iff in H as [-> Hw]. now apply IH.
Qed.

(** X22.  The fallback finds a symbol whatever the case the answer
    writes it in: a recognizable fragment whose key differs from a
    requested symbol in case at most yields the price of the fragment
    for that symbol, when the quoted symbol, in whatever case, does not
    occur earlier in the text and the number is the last price before
    the closing brace.  The strict path is not so lenient: it looks the
    symbol up as it is, so an answer parsed to an object without that
    very key resolves no price for it, whatever other keys it has, and
    names it after itself, or Object for the symbol constructor, which
    every object inherits. *)
Theorem fallback_finds_the_key_in_any_case :
  (forall (symbols : list string) (response : GenerateContentResponse)
          (sym key : string) (pre ws1 ws2 b1 ws3 ws4 num b2 post : list ascii),
      generateContent (requestFor symbols) = Resolved response ->
      JSON_parse_data (cleanup (responseText response)) = None ->
      list_ascii_of_string (cleanup (responseText response))
        = (pre ++ fragment key ws1 ws2 b1 ws3 ws4 num b2 ++ post)%list ->
      In sym symbols ->
      same_word_ci (list_ascii_of_string sym) (list_ascii_of_string key) = true ->
      forallb is_space ws1 = true -> forallb is_space ws2 = true ->
      forallb is_space ws3 = true -> forallb is_space ws4 = true ->
      forallb not_brace b1 = true -> forallb not_brace b2 = true ->
      num <> [] -> forallb digit_or_dot num = true ->
      starts_with_digit_or_dot b2 = false ->
      occurs_within (quoted sym) pre
        (fragment key ws1 ws2 b1 ws3 ws4 num b2 ++ post)%list = false ->
      occurs_within (quoted "price") (tl (priceField ws3 ws4 num b2))
        ("}"%char :: post) = false ->
      exists results update,
        snd (fetchStockPrices symbols) = Return results /\
        In update results /\
        PriceUpdateResult.symbol update = sym /\
        PriceUpdateResult.price update =
          let p := parseFloat (string_of_list_ascii num) in
          if truthy_number p then p else 0%float) /\
  (forall (symbols : list string) (response : GenerateContentResponse)
          (sym : string) (data : gmap string Entry),
      generateContent (requestFor symbols) = Resolved response ->
      JSON_parse_data (cleanup (responseText response)) = Some (DObject data) ->
      data !! sym = None ->
      exists results,
        snd (fetchStockPrices symbols) = Return results /\
        forall update, In update results ->
          PriceUpdateResult.symbol update = sym ->
          PriceUpdateResult.price update = 0%float /\
          PriceUpdateResult.companyName update =
            Some (if String.eqb sym "constructor" then "Object" else sym)).
Proof.
  split.
  - intros symbols response sym key pre ws1 ws2 b1 ws3 ws4 num b2 post
           Hres Hparse Htext Hin Hkey Hs1 Hs2 Hs3 Hs4 Hb1 Hb2 Hne Hnum Hmax
           Hfirst Hlast.
    apply same_word_ci_quoted in Hkey.
    assert (Hsearch :
              String_match (cleanup (responseText response))
                (mkRegExp (priceTerms sym) true) = Some [num]).
    { unfold String_match. rewrite Htext. apply search_skip.
      - intros v u Heq Hu. unfold match_here, priceTerms. cbn [terms ignoreCase].
        rewrite match_literal.
        now rewrite (occurs_within_false _ _ _ Hfirst v u Heq Hu).
      - unfold match_here, priceTerms. cbn [terms ignoreCase].
        rewrite match_literal. unfold fragment. rewrite <- app_assoc.
        destruct (same_word_ci_prefix _ _
                    (ws1 ++ ":"%char :: ws2 ++ "{"%char :: b1
                       ++ priceField ws3 ws4 num b2 ++ "}"%char :: post)%list
                    Hkey) as [Hp Hl].
        reassoc. cbn [app]. rewrite Hp, Hl, skipn_app_exact.
        now apply (match_object ws1 ws2 b1 ws3 ws4 num b2 post). }
    rewrite (fetchStockPrices_fallback symbols response sym Hin Hres Hparse).
    eexists. eexists. split; [reflexivity|]. split; [apply in_map; exact Hin|].
    unfold resultOf. cbn [PriceUpdateResult.symbol PriceUpdateResult.price].
    rewrite fallback_lookup, (proj2 (includes_In symbols sym) Hin).
    rewrite extractSymbol_eq, Hsearch, lookup_insert_eq.
    cbn [price_of entry_price group1 nth]. now split.
  - intros symbols response sym data Hres Hparse Hnone.
    destruct symbols as [|x l];
      [eexists; split; [reflexivity | intros update []]|].
    rewrite (fetchStockPrices_object (x :: l) response data);
      [|discriminate | exact Hres | unfold parsedOrFallback; now rewrite Hparse].
    eexists. split; [reflexivity|].
    intros update Hu Hsym. apply in_map_iff in Hu as (sym' & <- & _).
    cbn [resultOf PriceUpdateResult.symbol] in Hsym. subst sym'.
    rewrite Hnone, resultOf_inherited. now split.
Qed.

(** *** A refresh repeated at once *)

Lemma mapM_pointwise {A B : Type} (f : A -> Clocked B) :
  (forall x n m, fst (f x n) = fst (f x m)) ->
  forall (l : list A) (n : nat), fst (mapM f l n) = map (fun x => fst (f x O)) l.
Proof.
  intros Hf. induction l as [|x l IH]; intros n; [reflexivity|].
  rewrite mapM_cons. cbn [fst map]. now rewrite IH, (Hf x n O).
Qed.

Lemma settleStocks_pointwise (now : Z) symbols outcome l n :
  (forall k, Date_now_at k = now) ->
  fst (settleStocks symbols outcome l n)
  = map (fun s => fst match outcome with
                      | Return results => mergeOne symbols results s O
                      | Throw _ => failOne symbols s O
                      end) l.
Proof.
  intros Hclock. destruct outcome as [results|e]; cbn [settleStocks];
    unfold mergeResults, mergeFailure; apply mapM_pointwise; intros s k m.
  - unfold mergeOne, bind, ret, Date_now.
    destruct (negb _); [reflexivity|].
    destruct (findUpdate results s) as [u|];
      [destruct (PrimFloat.ltb _ _)|]; cbn [fst]; now rewrite !Hclock.
  - unfold failOne, bind, ret, Date_now.
    destruct (includes _ _); cbn [fst]; now rewrite ?Hclock.
Qed.

Lemma js_or_idem {A : Type} (truthy : A -> bool) (a b : option A) :
  js_or truthy a (js_or truthy a b) = js_or truthy a b.
Proof. unfold js_or. now destruct (truthy_opt truthy a). Qed.

(** Merging the same outcome twice is merging it once. *)
Lemma settled_element_idem (symbols : list string)
    (outcome : Completion string (list PriceUpdateResult.t))
    (s : StockTracker.t) (k : nat) :
  let settleOne := fun s =>
    fst match outcome with
        | Return results => mergeOne symbols results s k
        | Throw _ => failOne symbols s k
        end in
  settleOne (settleOne s) = settleOne s.
Proof.
  cbv zeta. destruct outcome as [results|e]; unfold mergeOne, failOne, findUpdate.
  - destruct (includes symbols (StockTracker.symbol s)) eqn:Hin; cbn [negb].
    + destruct (List.find _ results) as [u|] eqn:Hfind;
        [destruct (PrimFloat.ltb _ _) eqn:Hpos|];
        cbn [fst bind ret Date_now successfulUpdate failedUpdate
               StockTracker.symbol];
        rewrite Hin; cbn [negb]; rewrite Hfind, ?Hpos;
        unfold successfulUpdate, failedUpdate;
        cbn [fst bind ret Date_now
               StockTracker.symbol StockTracker.id StockTracker.companyName
               StockTracker.startPrice StockTracker.targetPrice
               StockTracker.currentPrice StockTracker.lastUpdated
               StockTracker.sourceUrl StockTracker.sourceTitle
               StockTracker.isCompleted StockTracker.errorMessage];
        now rewrite ?js_or_idem.
    + cbn [fst ret]. rewrite Hin. reflexivity.
  - destruct (includes symbols (StockTracker.symbol s)) eqn:Hin.
    + cbn [fst bind ret Date_now failedUpdate StockTracker.symbol].
      rewrite Hin. reflexivity.
    + cbn [fst ret]. rewrite Hin. reflexivity.
Qed.

Lemma filter_active_settled (symbols : list string)
    (outcome : Completion string (list PriceUpdateResult.t))
    (l : list StockTracker.t) :
  map StockTracker.symbol
    (List.filter active
       (map (fun s => fst match outcome with
                          | Return results => mergeOne symbols results s O
                          | Throw _ => failOne symbols s O
                          end) l))
  = map StockTracker.symbol (List.filter active l).
Proof.
  induction l as [|s l IH]; [reflexivity|]. cbn [map List.filter].
  destruct (settled_element symbols outcome s O) as [(_ & Hsym & _ & _ & Hdone) _].
  cbv zeta in Hsym, Hdone.
  assert (Hact : active (fst match outcome with
                             | Return results => mergeOne symbols results s O
                             | Throw _ => failOne symbols s O
                             end) = active s)
    by (unfold active; now rewrite Hdone).
  rewrite Hact. destruct (active s); cbn [map]; now rewrite ?Hsym, IH.
Qed.

(** X23.  While the clock stands still and the remote model keeps its
    answer, a refresh repeated at once changes nothing more: the second
    refresh of the same subset (or of all active trackers) leaves the
    list, the flags and the banner exactly as the first one left
    them. *)
Theorem refresh_repeated_at_once_changes_nothing :
  forall (now : Z) (subset : option (list StockTracker.t)) (st : AppState)
         (n : nat),
    (forall k, Date_now_at k = now) ->
    let r1 := refreshPrices subset st n in
    let r2 := refreshPrices subset (fst (fst r1)) (snd r1) in
    fst (fst r2) = fst (fst r1) /\ snd (fst r2) = snd (fst r1).
Proof.
  intros now subset st n Hclock r1 r2. subst r1 r2.
  destruct (apiKey st) as [|c key] eqn:Hk.
  { rewrite (refreshPrices_without_key subset st n Hk). cbn [fst snd].
    rewrite refreshPrices_without_key by exact Hk. cbn [fst snd].
    destruct st; split; reflexivity. }
  assert (Hkey : apiKey st <> "") by (rewrite Hk; discriminate).
  destruct (targetsOf subset st) as [|t targets] eqn:Ht.
  { rewrite (refreshPrices_without_targets subset st n Hkey Ht). cbn [fst snd].
    rewrite (refreshPrices_without_targets subset st n Hkey Ht). now split. }
  assert (Hne : targetsOf subset st <> []) by (rewrite Ht; discriminate).
  rewrite (refreshPrices_with_key subset st n Hkey Hne). cbn [fst snd].
  set (symbols := requestedSymbols (targetsOf subset st)).
  set (outcome := snd (fetchStockPrices symbols)).
  set (st1 := mkApp _ _ _ _ _).
  assert (Hsame : requestedSymbols (targetsOf subset st1) = symbols).
  { subst symbols. destruct subset as [l|]; [reflexivity|].
    unfold targetsOf, requestedSymbols. f_equal. subst st1. cbn [stocks].
    rewrite (settleStocks_pointwise now) by exact Hclock.
    apply filter_active_settled. }
  assert (Hne1 : targetsOf subset st1 <> []).
  { intros Hnil. rewrite Hnil in Hsame. subst symbols.
    now apply (requestedSymbols_nonempty _ Hne). }
  rewrite refreshPrices_with_key by assumption.
  cbn [fst snd]. rewrite Hsame. fold outcome. split; [|reflexivity].
  subst st1. cbn [stocks isSettingsOpen apiKey]. f_equal.
  rewrite !(settleStocks_pointwise now) by exact Hclock.
  rewrite map_map. apply map_ext. intros s.
  apply (settled_element_idem symbols outcome s O).
Qed.

(** *** The foot of the card *)

(** X24.  For a settled tracker whose time stamp is not the zero of the
    clock, the foot of the card never shows the notice of a failed
    update: a tracker with an error has been stamped, so its card shows
    the time of the update.  The card waits exactly when the tracker was
    never stamped, and then it has neither an error nor a price; and a
    link to a source is shown only for a tracker with a price, with an
    address that is not empty. *)
Theorem foot_of_a_settled_card :
  forall (stock : StockTracker.t),
    settled stock ->
    StockTracker.lastUpdated stock <> Some 0 ->
    StockCard.footer stock <> StockCard.UpdateFailed /\
    (StockCard.footer stock = StockCard.Waiting <->
     StockTracker.lastUpdated stock = None) /\
    (StockCard.footer stock = StockCard.Waiting ->
     StockCard.hasError stock = false /\ hasPrice stock = false) /\
    (StockCard.hasError stock = true ->
     exists time via, StockCard.footer stock = StockCard.Updated time via) /\
    (forall time url title,
        StockCard.footer stock = StockCard.Updated time (Some (url, title)) ->
        hasPrice stock = true /\ url <> "").
Proof.
  intros stock (_ & Hstamp & Hsrc & _) Hzero.
  unfold outcome_is_stamped, source_has_price in *.
  unfold StockCard.footer, StockCard.hasError, hasPrice, truthy_opt in *.
  destruct (StockTracker.lastUpdated stock) as [time|] eqn:Hlast.
  - destruct (Z.eqb_spec time 0) as [->|Hne]; [congruence|].
    split; [discriminate|]. split; [split; discriminate|].
    split; [discriminate|]. split; [eauto|].
    intros time' url title.
    destruct (StockTracker.sourceUrl stock) as [[|c u]|] eqn:Hurl;
      cbn [truthy_string]; try discriminate.
    intros [= <- <- _]. split; [|discriminate].
    destruct (StockTracker.currentPrice stock); [reflexivity|].
    exfalso. apply Hsrc; [left; discriminate | reflexivity].
  - assert (Hnone : StockTracker.currentPrice stock = None /\
                    StockTracker.errorMessage stock = None).
    { destruct (StockTracker.currentPrice stock) eqn:Hp;
        [exfalso; apply Hstamp; [left; discriminate | reflexivity]|].
      destruct (StockTracker.errorMessage stock) eqn:He;
        [exfalso; apply Hstamp; [right; discriminate | reflexivity]|].
      now split. }
    destruct Hnone as [-> ->].
    split; [discriminate|]. split; [now split|]. split; [now split|].
    split; discriminate.
Qed.

End Env.

(** ** The theorems at work on the examples *)

(** C1 on the example of the specification: a tracker for AAPL with no
    prior data and the result with price 150 and name Apple Inc. *)
Lemma merge_success_writes_price_witness :
  exists (k : nat) (merged : StockTracker.t),
    fst (mergeResults example_clock (requestedSymbols [aapl]) [aapl_result] [aapl] 0%nat)
      !! 0%nat = Some merged /\
    StockTracker.currentPrice merged = Some 150%float /\
    StockTracker.companyName merged = Some "Apple Inc." /\
    StockTracker.lastUpdated merged = Some (example_clock k) /\
    StockTracker.errorMessage merged = None.
Proof.
  destruct (merge_success_writes_price example_clock example_env_key
              (example_answer aapl_answer) (example_parse aapl_answer (DObject aapl_record))
              example_parseFloat [aapl] [aapl] [aapl_result] 0 0 aapl aapl_result)
    as (k & merged & _ & Hm & Hprice & Hname & Htime & _ & _ & Herr & _).
  - vm_compute. reflexivity.
  - reflexivity.
  - left. reflexivity.
  - left. reflexivity.
  - reflexivity.
  - reflexivity.
  - exists k, merged. repeat split; assumption.
Defined.

(** C2 on an unresolved result for a tracker that had a price. *)
Lemma merge_without_price_records_error_witness :
  exists (k : nat) (merged : StockTracker.t),
    fst (settleStocks example_clock ["AAPL"] (Return [aapl_unresolved])
           [aapl_completed] 0%nat) !! 0%nat = Some merged /\
    StockTracker.currentPrice merged = Some 120%float /\
    StockTracker.lastUpdated merged = Some (example_clock k) /\
    StockTracker.errorMessage merged = Some "Symbol not found or data unavailable".
Proof.
  destruct (merge_without_price_records_error example_clock ["AAPL"]
              (Return [aapl_unresolved]) [aapl_completed] 0 0 aapl_completed)
    as (k & merged & _ & Hm & Hprice & Htime & Herr & _).
  - reflexivity.
  - left. reflexivity.
  - right. exists aapl_unresolved. split; reflexivity.
  - exists k, merged. repeat split; assumption.
Defined.

(** C3 as stated fails: the refresh is driven for the subset that holds
    the active AAPL tracker alone; the completed tracker for AAPL is not in
    the subset and has another id, yet the merge rewrites it, both when the
    round trip returns a result and when it fails. *)
Lemma merge_touches_same_symbol_outside_subset :
  ~ In aapl_completed [aapl] /\
  StockTracker.id aapl_completed <> StockTracker.id aapl /\
  [aapl; aapl_completed] !! 1%nat = Some aapl_completed /\
  fst (settleStocks example_clock (requestedSymbols [aapl]) (Return [aapl_result])
         [aapl; aapl_completed] 0%nat) !! 1%nat
    = Some (successfulUpdate aapl_completed aapl_result example_now) /\
  fst (settleStocks example_clock (requestedSymbols [aapl]) (Throw "Request timed out")
         [aapl; aapl_completed] 0%nat) !! 1%nat
    = Some (failedUpdate aapl_completed "Update failed" example_now) /\
  successfulUpdate aapl_completed aapl_result example_now <> aapl_completed /\
  failedUpdate aapl_completed "Update failed" example_now <> aapl_completed.
Proof.
  split; [intros [H|[]]; discriminate H|].
  split; [discriminate|].
  split; [reflexivity|].
  split; [vm_compute; reflexivity|].
  split; [vm_compute; reflexivity|].
  split; discriminate.
Qed.

(** C3 as the code has it, on a tracker for another symbol. *)
Lemma merge_keeps_other_symbols_witness :
  fst (settleStocks example_clock (requestedSymbols [aapl]) (Return [aapl_result])
         [aapl; msft] 0%nat) !! 1%nat = Some msft.
Proof.
  apply merge_keeps_other_symbols.
  - reflexivity.
  - intros [H|[]]. discriminate H.
Defined.

(** C4 as stated fails: on a list that repeats a symbol the function
    returns two results for that one symbol; and on the answer null,
    which parses, it returns no result at all but throws, and the
    refresh shows the update error. *)
Lemma fetch_two_results_for_repeated_symbol :
  (exists results,
      snd (fetchStockPrices example_env_key (example_answer aapl_answer)
             (example_parse aapl_answer (DObject aapl_record)) example_parseFloat
             ["AAPL"; "AAPL"]) = Return results /\
      In "AAPL" ["AAPL"; "AAPL"] /\
      length (List.filter (fun r => String.eqb (PriceUpdateResult.symbol r) "AAPL")
                          results) = 2%nat) /\
  cleanup null_answer = "null" /\
  fetchStockPrices example_env_key (example_answer null_answer)
    (example_parse "null" DNull) example_parseFloat ["AAPL"]
  = ([mkRequest example_env_key "gemini-2.5-flash" (prompt ["AAPL"]) true],
     Throw TypeError) /\
  error (fst (fst (refreshPrices example_clock example_env_key
                     (example_answer null_answer) (example_parse "null" DNull)
                     example_parseFloat (Some [aapl]) example_state 0%nat)))
  = Some errorUpdate.
Proof.
  split; [|split; [|split]].
  - eexists. split; [vm_compute; reflexivity|].
    split; [now left | reflexivity].
  - vm_compute. reflexivity.
  - vm_compute. reflexivity.
  - vm_compute. reflexivity.
Qed.

(** C4 as the code has it, on a list without repetitions. *)
Lemma fetch_one_result_per_element_witness :
  length (List.filter (fun r => String.eqb (PriceUpdateResult.symbol r) "AAPL")
                      [aapl_result]) = 1%nat.
Proof.
  apply (proj1 (fetch_one_result_per_element example_env_key
                  (example_answer aapl_answer)
                  (example_parse aapl_answer (DObject aapl_record)) example_parseFloat)
               ["AAPL"] [aapl_result]).
  - vm_compute. reflexivity.
  - repeat constructor. intros [].
  - now left.
Defined.



(** C6 as stated fails: the import accepts a file whose tracker has
    [lastUpdated] set and neither a price nor an error, and the list that
    holds it is reached from the empty one. *)
Lemma import_reaches_tracker_without_outcome :
  reachable example_clock (example_parse stale_file stale_json)
    example_parseFloat example_toUpperCase (fun _ => True) [stale_tracker] /\
  StockTracker.lastUpdated stale_tracker = Some example_now /\
  StockTracker.currentPrice stale_tracker = None /\
  StockTracker.errorMessage stale_tracker = None /\
  ~ Forall attempted_has_outcome [stale_tracker].
Proof.
  split; [|repeat split].
  - unfold reachable. eapply rtc_l; [|apply rtc_refl].
    eapply (step_import _ _ _ _ _ stale_file);
      [reflexivity | vm_compute; reflexivity | exact I].
  - intros H. inversion H as [|? ? Hs _]; subst.
    destruct Hs as [Hp|He]; [discriminate | now apply Hp | now apply He].
Qed.

(** C6 as the code has it, on a tracker created by the form and then
    refreshed without success. *)
Lemma invariant_without_foreign_import_witness :
  Forall attempted_has_outcome
    (fst (settleStocks example_clock ["AAPL"] (Throw "Request timed out")
            [example_created] 0%nat)).
Proof.
  apply (proj2 (invariant_without_foreign_import example_clock
                  (example_parse stale_file stale_json) example_parseFloat
                  example_toUpperCase (fun _ => False)
                  (fun imported (H : False) => match H with end))).
  unfold reachable.
  eapply rtc_l;
    [apply (step_create _ _ _ _ _ "uuid-1" example_form example_created);
     vm_compute; reflexivity|].
  eapply rtc_l; [apply step_settle | apply rtc_refl].
Defined.

(** C7 on a list with a tracker refreshed 3600001 ms ago and one refreshed
    just now. *)
Lemma staleness_policy_witness :
  In msft (match fst (autoRefreshTargets example_clock example_state 0%nat) with
           | Some toUpdate => toUpdate
           | None => []
           end) /\
  ~ In progress10 (match fst (autoRefreshTargets example_clock example_state 0%nat) with
                   | Some toUpdate => toUpdate
                   | None => []
                   end).
Proof.
  pose proof (proj1 (proj2 (staleness_policy example_clock))
                example_now example_state 0%nat) as H.
  split.
  - apply H; [reflexivity | discriminate |].
    split; [right; right; left; reflexivity|].
    split; [discriminate|]. right. eexists. split; [reflexivity|].
    unfold example_now. lia.
  - intros Hin. apply H in Hin; [|reflexivity | discriminate].
    destruct Hin as [_ [_ [Hnone|(t & Ht & Hlt)]]]; [discriminate|].
    injection Ht as <-. unfold example_now in Hlt. lia.
Defined.



(** C9 on a file that parses to an array with one valid element. *)
Lemma import_replaces_iff_valid_witness :
  handleImportFile (example_parse stale_file stale_json) (Some stale_file)
  = (Imported [JObject [("id", JString "9"); ("symbol", JString "AAPL");
                        ("startPrice", JNumber 100%float);
                        ("targetPrice", JNumber 200%float);
                        ("currentPrice", JNull);
                        ("lastUpdated", JNumber 1700000000000%float)]],
     Some importSuccess).
Proof.
  apply (proj1 (import_replaces_iff_valid (example_parse stale_file stale_json)
                  stale_file)).
  split; [reflexivity|].
  repeat constructor; eexists; split; reflexivity.
Defined.

(** What the escape is for: left as it is, a symbol with an opening
    bracket would turn into a class, and one with a closing parenthesis
    would make the constructor throw. *)
Example escapeRegExp_example :
  escapeRegExp "BRK(B).X[1]" = "BRK\(B\)\.X\[1\]".
Proof. reflexivity. Qed.

Example unescaped_bracket_changes_pattern :
  exists r, RegExp_new (pricePattern "A[B") true = Parsed r /\
            terms r <> priceTerms "A[B".
Proof. eexists. split; [vm_compute; reflexivity | discriminate]. Qed.

Example unescaped_parenthesis_is_error :
  RegExp_new (pricePattern "A)B") true = SyntaxError.
Proof. vm_compute. reflexivity. Qed.

(** ** Further properties at work on the examples *)

(** X2 on a refresh of the active trackers whose round trip times out. *)
Lemma refresh_settles_the_flags_witness :
  isLoading (fst (fst (refreshPrices example_clock example_env_key example_timeout
                         example_no_parse example_parseFloat None example_state
                         0%nat))) = false /\
  error (fst (fst (refreshPrices example_clock example_env_key example_timeout
                     example_no_parse example_parseFloat None example_state
                     0%nat))) = Some errorUpdate.
Proof.
  destruct (refresh_settles_the_flags example_clock example_env_key example_timeout
              example_no_parse example_parseFloat None example_state 0%nat)
    as (Hload & Hrej & _).
  - discriminate.
  - vm_compute. discriminate.
  - split; [exact Hload | exact (Hrej "Request timed out" eq_refl)].
Defined.

(** X4 on the example list, with a round trip that times out: the
    trackers that were stale are stamped and nothing qualifies any
    more. *)
Lemma automatic_refresh_settles_in_one_pass_witness :
  fst (autoRefreshTargets example_clock
         (fst (fst (autoRefresh example_clock example_env_key example_timeout
                      example_no_parse example_parseFloat example_state 0%nat)))
         (snd (autoRefresh example_clock example_env_key example_timeout
                 example_no_parse example_parseFloat example_state 0%nat)))
  = None.
Proof.
  apply (automatic_refresh_settles_in_one_pass example_clock example_env_key
           example_timeout example_no_parse example_parseFloat example_now
           example_state 0%nat).
  intros k. reflexivity.
Defined.

(** X9 on three trackers with progress 10, no price and progress 90. *)
Lemma no_price_comes_first_when_ascending_witness :
  getSortedStocks PROGRESS_ASC [progress10; noPrice; progress90]
  = [noPrice; progress10; progress90].
Proof.
  rewrite (no_price_comes_first_when_ascending [progress10; noPrice; progress90]).
  - reflexivity.
  - intros s [<-|[<-|[<-|[]]]] Hp; try discriminate Hp; split; reflexivity.
Defined.

(** X10 on a tracker created by the form and then refreshed without
    success. *)
Lemma reachable_trackers_are_settled_witness :
  Forall settled
    (fst (settleStocks example_clock ["AAPL"] (Throw "Request timed out")
            [example_created] 0%nat)).
Proof.
  apply (reachable_trackers_are_settled example_clock
           (example_parse stale_file stale_json) example_parseFloat
           example_toUpperCase (fun _ => False)).
  - intros imported H. destruct H.
  - unfold reachable.
    eapply rtc_l;
      [apply (step_create _ _ _ _ _ "uuid-1" example_form example_created);
       vm_compute; reflexivity|].
    eapply rtc_l; [apply step_settle | apply rtc_refl].
Defined.

(** X13 on the result of the strict answer for AAPL. *)
Lemma results_are_well_formed_witness :
  PrimFloat.is_nan (PriceUpdateResult.price aapl_result) = false /\
  PriceUpdateResult.sourceUrl aapl_result <> Some "".
Proof.
  destruct (results_are_well_formed example_env_key (example_answer aapl_answer)
              (example_parse aapl_answer (DObject aapl_record)) example_parseFloat
              ["AAPL"] [aapl_result] aapl_result) as (H1 & _ & H3 & _).
  - vm_compute. reflexivity.
  - now left.
  - split; assumption.
Defined.

(** X14 on an answer in prose that names no symbol, for AAPL and for
    the symbol constructor. *)
Lemma unmentioned_symbol_stays_unresolved_witness :
  (exists results,
      snd (fetchStockPrices example_env_key (example_answer sorry_answer)
             example_no_parse example_parseFloat ["AAPL"]) = Return results /\
      fst (mergeOne example_clock ["AAPL"] results aapl_completed 0%nat)
      = failedUpdate aapl_completed "Symbol not found or data unavailable"
          example_now) /\
  (exists results update,
      snd (fetchStockPrices example_env_key (example_answer sorry_answer)
             example_no_parse example_parseFloat ["AAPL"; "constructor"])
      = Return results /\
      In update results /\
      PriceUpdateResult.symbol update = "constructor" /\
      PriceUpdateResult.price update = 0%float /\
      PriceUpdateResult.companyName update = Some "Object").
Proof.
  split.
  - destruct (unmentioned_symbol_stays_unresolved example_clock example_env_key
                (example_answer sorry_answer) example_no_parse example_parseFloat
                ["AAPL"] (mkResponse (Some sorry_answer) (Some example_citation))
                "AAPL")
      as (results & Hfetch & _ & _ & Hmerge).
    + reflexivity.
    + reflexivity.
    + now left.
    + vm_compute. reflexivity.
    + exists results.
      split; [exact Hfetch | exact (Hmerge aapl_completed 0%nat eq_refl)].
  - destruct (unmentioned_symbol_stays_unresolved example_clock example_env_key
                (example_answer sorry_answer) example_no_parse example_parseFloat
                ["AAPL"; "constructor"]
                (mkResponse (Some sorry_answer) (Some example_citation))
                "constructor")
      as (results & Hfetch & (update & Hin & Hsym) & Hall & _).
    + reflexivity.
    + reflexivity.
    + right. now left.
    + vm_compute. reflexivity.
    + exists results, update.
      destruct (Hall update Hin Hsym) as [Hprice Hname].
      split; [exact Hfetch|]. split; [exact Hin|]. split; [exact Hsym|].
      split; [exact Hprice | exact Hname].
Defined.

(** X15 on the answer with prose around the object: the name of the
    symbol with parentheses is recovered next to its price. *)
Lemma fallback_recovers_the_name_witness :
  exists results update,
    snd (fetchStockPrices example_env_key (example_answer brk_answer)
           example_no_parse example_parseFloat ["X[1]"; "BRK(B)"]) = Return results /\
    In update results /\
    PriceUpdateResult.symbol update = "BRK(B)" /\
    PriceUpdateResult.companyName update = Some "Berkshire" /\
    PriceUpdateResult.price update = 12.5%float.
Proof.
  destruct (fallback_recovers_the_name example_env_key (example_answer brk_answer)
              example_no_parse example_parseFloat
              ["X[1]"; "BRK(B)"]
              (mkResponse (Some brk_answer) (Some example_citation))
              "BRK(B)"
              (chars "Sure! ") [] (chars " ")
              (chars " " ++ quoted "price" ++ chars ": 12.5, ")%list
              [] (chars " ") (chars "Berkshire") (chars " ") (chars "} thanks")
              (mkRegExp (priceTerms "BRK(B)") true))
    as (results & Hfetch & (update & Hin & Hsym) & Hall);
    try reflexivity.
  - right. left. reflexivity.
  - discriminate.
  - exists results, update.
    specialize (Hall update Hin Hsym). vm_compute in Hall.
    destruct Hall as [Hname Hprice].
    split; [exact Hfetch|]. split; [exact Hin|]. split; [exact Hsym|].
    split; [exact Hname | exact Hprice].
Defined.

(** X22 on an answer that writes the key of AAPL in lower case. *)
Lemma fallback_finds_the_key_in_any_case_witness :
  exists results update,
    snd (fetchStockPrices example_env_key (example_answer lower_answer)
           example_no_parse example_parseFloat ["AAPL"]) = Return results /\
    In update results /\
    PriceUpdateResult.symbol update = "AAPL" /\
    PriceUpdateResult.price update = 150%float.
Proof.
  destruct (proj1 (fallback_finds_the_key_in_any_case example_env_key
                     (example_answer lower_answer) example_no_parse
                     example_parseFloat)
              ["AAPL"] (mkResponse (Some lower_answer) (Some example_citation))
              "AAPL" "aapl" [] [] (chars " ") [] [] (chars " ") (chars "150") [] [])
    as (results & update & Hfetch & Hin & Hsym & Hprice);
    try reflexivity.
  - now left.
  - discriminate.
  - exists results, update. repeat split; assumption.
Defined.

(** X23 on the example list, refreshed twice while the remote model
    times out. *)
Lemma refresh_repeated_at_once_changes_nothing_witness :
  fst (fst (refreshPrices example_clock example_env_key example_timeout
              example_no_parse example_parseFloat None
              (fst (fst (refreshPrices example_clock example_env_key
                           example_timeout example_no_parse example_parseFloat
                           None example_state 0%nat)))
              (snd (refreshPrices example_clock example_env_key example_timeout
                      example_no_parse example_parseFloat None example_state
                      0%nat))))
  = fst (fst (refreshPrices example_clock example_env_key example_timeout
                example_no_parse example_parseFloat None example_state 0%nat)).
Proof.
  apply (proj1 (refresh_repeated_at_once_changes_nothing example_clock
                  example_env_key example_timeout example_no_parse
                  example_parseFloat example_now None example_state 0%nat
                  (fun k => eq_refl))).
Defined.

(** X24 on the active tracker for AAPL after a refresh that timed out. *)
Lemma foot_of_a_settled_card_witness :
  exists time via,
    StockCard.footer (failedUpdate aapl "Update failed" example_now)
    = StockCard.Updated time via.
Proof.
  destruct (foot_of_a_settled_card (failedUpdate aapl "Update failed" example_now))
    as (_ & _ & _ & Herr & _).
  - split; [intros p Hp; discriminate Hp|].
    split; [intros _; discriminate|].
    split; [intros [H|H]; now contradiction H | right; now right].
  - discriminate.
  - apply Herr. reflexivity.
Defined.
